(** * eHealth data pipeline: incremental ETL, warehouse population and QA

    A shallow embedding of the load engine
    ([part2_pipeline/utils/etl_pipeline.py], [db_helper.py], [config.py]),
    the dimensional transformation engine
    ([part3_analytics/populate_warehouse.py]) and the warehouse QA engine
    ([part3_analytics/run_warehouse_qa.py]).

    Conventions of the embedding:
    - a pandas DataFrame is the list of its rows, in index order;
    - a relational table is the list of its rows, in insertion order; a
      [SELECT] without [ORDER BY] returns rows in table order;
    - a Python [dict] and a Python [set] of strings are [gmap string _]
      and [gset string];
    - a Python exception is a value of [exn] returned through [result];
    - draws of the seeded generators ([random], [Faker]) and the wall clock
      are read from an explicit [environment]. *)

From Stdlib Require Import ZArith List String Ascii Lia Bool.
From stdpp Require Import gmap strings list fin_maps.

Local Open Scope Z_scope.

(** ** Python and SQL string primitives *)

Module PyStr.

(** [s.replace('.png', '')]: every non-overlapping occurrence, scanning
    from the left.  [Series.str.replace('.png', '')] is taken with the
    pattern read literally (the default since pandas 2.0), as
    [str.replace] reads it. *)
Fixpoint remove_png (s : string) : string :=
  match s with
  | EmptyString => EmptyString
  | String c rest =>
      match s with
      | String "."%char (String "p"%char (String "n"%char (String "g"%char rest'))) =>
          remove_png rest'
      | _ => String c (remove_png rest)
      end
  end.

(** [s.replace("PAT", "")]. *)
Fixpoint remove_PAT (s : string) : string :=
  match s with
  | EmptyString => EmptyString
  | String c rest =>
      match s with
      | String "P"%char (String "A"%char (String "T"%char rest')) => remove_PAT rest'
      | _ => String c (remove_PAT rest)
      end
  end.

Definition is_digit (c : ascii) : bool :=
  let n := N_of_ascii c in ((48 <=? n) && (n <=? 57))%N.

Definition digit_val (c : ascii) : Z := Z.of_N (N_of_ascii c) - 48.

Fixpoint all_digits (s : string) : bool :=
  match s with
  | EmptyString => true
  | String c rest => is_digit c && all_digits rest
  end.

Fixpoint no_digits (s : string) : bool :=
  match s with
  | EmptyString => true
  | String c rest => negb (is_digit c) && no_digits rest
  end.

(** Value of a string of decimal digits read left to right, from the
    accumulator [acc]. *)
Fixpoint digits_value (acc : Z) (s : string) : Z :=
  match s with
  | EmptyString => acc
  | String c rest => digits_value (10 * acc + digit_val c) rest
  end.

(** [REGEXP_REPLACE(s, '\D', '', 'g')]: drop every non-digit character. *)
Fixpoint strip_nondigits (s : string) : string :=
  match s with
  | EmptyString => EmptyString
  | String c rest =>
      if is_digit c then String c (strip_nondigits rest) else strip_nondigits rest
  end.

(** Characters removed by [str.strip()] (the ASCII ones of
    [str.isspace]). *)
Definition is_space (c : ascii) : bool :=
  let n := N_of_ascii c in
  (((9 <=? n) && (n <=? 13)) || ((28 <=? n) && (n <=? 32)))%N.

Fixpoint lstrip (s : string) : string :=
  match s with
  | EmptyString => EmptyString
  | String c rest => if is_space c then lstrip rest else s
  end.

(** [rstrip] keeps a character when it is not a space or when something
    is kept after it. *)
Fixpoint rstrip (s : string) : string :=
  match s with
  | EmptyString => EmptyString
  | String c rest =>
      match rstrip rest with
      | EmptyString => if is_space c then EmptyString else String c EmptyString
      | r => String c r
      end
  end.

Definition strip (s : string) : string := rstrip (lstrip s).

(** [s.split('|')]: the fields between the separators; never empty. *)
Fixpoint split_pipe_aux (cur : string) (s : string) : list string :=
  match s with
  | EmptyString => [String.rev cur]
  | String c rest =>
      if Ascii.eqb c "|"%char then String.rev cur :: split_pipe_aux EmptyString rest
      else split_pipe_aux (String c cur) rest
  end.

Definition split_pipe (s : string) : list string := split_pipe_aux EmptyString s.

Definition signed_digits (d : string) : bool :=
  all_digits d && negb (String.eqb d EmptyString).

(** [int(s)] for the argument shapes the loader produces: an optional
    sign followed by decimal digits, surrounding white space ignored.
    Anything else is a [ValueError] ([None]).  (Python also accepts single
    underscores between digits; such strings are reported as errors
    here.) *)
Definition py_int (s : string) : option Z :=
  match strip s with
  | EmptyString => None
  | String c d =>
      if Ascii.eqb c "-"%char then
        if signed_digits d then Some (- digits_value 0 d) else None
      else if Ascii.eqb c "+"%char then
        if signed_digits d then Some (digits_value 0 d) else None
      else if all_digits (String c d) then Some (digits_value 0 (String c d))
      else None
  end.

(** [str(n)] for an integer: decimal digits, most significant first. *)
Definition digit_char (n : Z) : ascii := ascii_of_N (Z.to_N (48 + n)).

Fixpoint str_of_Z_aux (fuel : nat) (n : Z) (acc : string) : string :=
  match fuel with
  | O => acc
  | S fuel' =>
      let acc' := String (digit_char (n mod 10)) acc in
      if n / 10 =? 0 then acc' else str_of_Z_aux fuel' (n / 10) acc'
  end.

Definition str_of_Z (n : Z) : string :=
  if n <? 0 then
    String "-"%char (str_of_Z_aux (S (Z.to_nat (Z.log2 (- n)))) (- n) EmptyString)
  else str_of_Z_aux (S (Z.to_nat (Z.log2 n))) n EmptyString.

(** [s.zfill(w)]: pad with zeros on the left up to width [w], after a
    leading sign if there is one. *)
Fixpoint zeros (k : nat) : string :=
  match k with
  | O => EmptyString
  | S k' => String "0"%char (zeros k')
  end.

Definition zfill (w : nat) (s : string) : string :=
  match s with
  | String c r =>
      if Ascii.eqb c "-"%char || Ascii.eqb c "+"%char
      then String c (zeros (w - String.length s) +:+ r)
      else zeros (w - String.length s) +:+ s
  | EmptyString => zeros w
  end.

(** Code-point order on strings, as used by [MAX] over a text column
    under the C collation. *)
Fixpoint str_leb (a b : string) : bool :=
  match a, b with
  | EmptyString, _ => true
  | String _ _, EmptyString => false
  | String x a', String y b' =>
      if (N_of_ascii x <? N_of_ascii y)%N then true
      else if (N_of_ascii y <? N_of_ascii x)%N then false
      else str_leb a' b'
  end.

Definition str_max (a b : string) : string := if str_leb a b then b else a.

(** [MAX(col)] over the selected rows; [None] is SQL [NULL]. *)
Definition sql_max (l : list string) : option string :=
  match l with
  | [] => None
  | x :: r => Some (foldl str_max x r)
  end.

(** [s LIKE 'PAT%']. *)
Definition like_PAT (s : string) : bool :=
  match s with
  | String "P"%char (String "A"%char (String "T"%char _)) => true
  | _ => false
  end.

(** [s LIKE 'NIH_%']: in a [LIKE] pattern [_] stands for any one
    character, so this is "NIH", one more character, then anything. *)
Definition like_NIH_ (s : string) : bool :=
  match s with
  | String "N"%char (String "I"%char (String "H"%char (String _ _))) => true
  | _ => false
  end.

End PyStr.

(** ** Exceptions and row-set primitives *)

Module Common.

Inductive exn :=
| IndexError        (* [random.choices] over an empty population *)
| KeyError          (* a missing dictionary key *)
| ValueError        (* [int()] of a malformed identifier *)
| OverflowError     (* a [date] outside [date.min .. date.max] *)
| UniqueViolation   (* a duplicate primary key on a plain [INSERT] *)
| InvalidTextRepresentation  (* [CAST('' AS INTEGER)] *)
| NumericValueOutOfRange.    (* [CAST] beyond the 32-bit [INTEGER] range *)

Inductive result (A : Type) : Type :=
| Ok (a : A)
| Raise (e : exn).
Arguments Ok {A} a.
Arguments Raise {A} e.

#[export] Instance result_ret : MRet result := @Ok.
#[export] Instance result_bind : MBind result := λ A B f m,
  match m with
  | Ok a => f a
  | Raise e => Raise e
  end.

(** [DataFrame.drop_duplicates()] and [SELECT DISTINCT]: the first
    occurrence of every row is kept, in order. *)
Fixpoint drop_duplicates {A} `{EqDecision A} (seen l : list A) : list A :=
  match l with
  | [] => []
  | x :: r =>
      if decide (x ∈ seen) then drop_duplicates seen r
      else x :: drop_duplicates (x :: seen) r
  end.

End Common.

(** ** Operational schema

    The columns the engines read or key on.  Columns that are only
    carried (free text of reports, Faker-generated names and addresses,
    confidence and duration figures) are left out. *)

Module Schema.

(** A calendar date is its proleptic Gregorian ordinal
    ([date.toordinal()]): 0001-01-01 is day 1. *)
Definition date := Z.

Record patient := {
  patient_id : string;
  date_of_birth : date;
  gender : string;
  contact_email : string;
}.

Record facility := {
  facility_id : string;
  facility_type : string;
}.

Record diagnosis := {
  diagnosis_id : string;
  diagnosis_code : string;
  diagnosis_name : string;
  diagnosis_category : string;
  severity : string;
}.

Record encounter := {
  encounter_id : string;
  enc_patient_id : string;
  enc_facility_id : string;
  encounter_date : date;
  encounter_type : string;
}.

(** [procedure_id] and [report_id] are [SERIAL] columns. *)
Record procedure := {
  procedure_id : Z;
  proc_encounter_id : string;
  procedure_code : string;
  procedure_name : string;
  modality : string;
  view_position : string;
  body_part : string;
}.

Record encounter_diagnosis := {
  ed_encounter_id : string;
  ed_diagnosis_id : string;
  diagnosis_rank : Z;
  is_primary : bool;
}.

Record report := {
  report_id : Z;
  rep_encounter_id : string;
  report_type : string;
  report_status : string;
}.

(** The operational store, with the two sequences behind the [SERIAL]
    columns. *)
Record opdb := {
  patients : list patient;
  facilities : list facility;
  diagnoses : list diagnosis;
  encounters : list encounter;
  procedures : list procedure;
  encounter_diagnoses : list encounter_diagnosis;
  reports : list report;
  procedure_id_seq : Z;
  report_id_seq : Z;
}.

End Schema.

(** ** The load engine ([NIH_ETL_Pipeline]) *)

Module Loader.
Import PyStr Common Schema.

(** [d[k]] on a dictionary. *)
Definition getitem {V} (d : gmap string V) (k : string) : result V :=
  match d !! k with
  | Some v => Ok v
  | None => Raise KeyError
  end.

(** *** Configuration ([config.py]) *)

Definition NIH_TO_ICD10_MAPPING : gmap string (string * string) :=
  list_to_map
    [ ("Atelectasis", ("J98.11", "Atelectasis"));
      ("Cardiomegaly", ("I51.7", "Cardiomegaly"));
      ("Effusion", ("J94.8", "Pleural Effusion"));
      ("Infiltration", ("J98.4", "Other Disorders of Lung"));
      ("Mass", ("D49.2", "Neoplasm of Uncertain Behavior"));
      ("Nodule", ("R91.8", "Abnormal Lung Finding"));
      ("Pneumonia", ("J18.9", "Pneumonia"));
      ("Pneumothorax", ("J93.0", "Spontaneous Tension Pneumothorax"));
      ("Consolidation", ("J18.1", "Lobar Pneumonia"));
      ("Edema", ("J81.0", "Acute Pulmonary Edema"));
      ("Emphysema", ("J43.9", "Emphysema"));
      ("Fibrosis", ("J84.9", "Interstitial Lung Disease"));
      ("Pleural_Thickening", ("J94.8", "Pleural Effusion"));
      ("Hernia", ("K44.9", "Diaphragmatic Hernia"));
      ("No Finding", ("R91.8", "Abnormal Lung Finding")) ].

Definition MODALITY_MAPPING : gmap string string :=
  list_to_map
    [ ("DX", "X-Ray"); ("CR", "X-Ray"); ("PA", "X-Ray"); ("AP", "X-Ray");
      ("CT", "CT"); ("MR", "MRI"); ("US", "Ultrasound") ].

Definition BATCH_SIZE : nat := 2000.

(** *** Input rows and transformed rows *)

(** One row of [nih_with_reports.csv].  [row_patient_id] is
    [str(row['Patient ID'])] and [row_patient_age] is
    [int(row['Patient Age'])]. *)
Record nih_row := {
  row_image_index : string;
  row_patient_id : string;
  row_patient_age : Z;
  row_patient_gender : string;
  row_view_position : string;
  row_finding_labels : string;
  row_report_type : string;
  row_report_status : string;
}.

(** A row after [transform]: the input columns and the derived ones.
    A [datetime] is kept to the hour, as the number of hours since the
    start of ordinal day 0. *)
Record trow := {
  src : nih_row;
  nih_procedure_code : string;
  modality_mapped : string;
  encounter_datetime : Z;
  trow_encounter_date : date;
  diagnosis_list : list string;
  primary_diagnosis : string;
}.

(** What a run reads from outside the program: the clock and the draws
    of the seeded generator, by row position (and batch number). *)
Record environment := {
  now_hours : Z;
  rand_days : nat → Z;
  rand_hours : nat → Z;
  rand_facility : nat → nat → nat;
  rand_encounter_type : nat → nat → nat;
}.

(** *** Pipeline object *)

Record stats_t := {
  records_processed : nat;
  records_skipped : nat;
  patients_created : nat;
  encounters_created : nat;
  procedures_created : nat;
  diagnoses_assigned : nat;
  reports_created : nat;
}.

(** The pipeline object together with the committed state of the
    database its [self.db] helper connects to. *)
Record pipeline := {
  incremental : bool;
  stats : stats_t;
  diagnosis_cache : gmap string string;
  facility_ids : list string;
  db : opdb;
}.

Definition with_stats (f : stats_t → stats_t) (p : pipeline) : pipeline :=
  {| incremental := incremental p; stats := f (stats p);
     diagnosis_cache := diagnosis_cache p; facility_ids := facility_ids p;
     db := db p |}.

Definition with_db (d : opdb) (p : pipeline) : pipeline :=
  {| incremental := incremental p; stats := stats p;
     diagnosis_cache := diagnosis_cache p; facility_ids := facility_ids p;
     db := d |}.

Definition set_records_skipped (n : nat) (s : stats_t) : stats_t :=
  {| records_processed := records_processed s; records_skipped := n;
     patients_created := patients_created s;
     encounters_created := encounters_created s;
     procedures_created := procedures_created s;
     diagnoses_assigned := diagnoses_assigned s;
     reports_created := reports_created s |}.

Definition set_records_processed (n : nat) (s : stats_t) : stats_t :=
  {| records_processed := n; records_skipped := records_skipped s;
     patients_created := patients_created s;
     encounters_created := encounters_created s;
     procedures_created := procedures_created s;
     diagnoses_assigned := diagnoses_assigned s;
     reports_created := reports_created s |}.

Definition add_patients_created (n : nat) (s : stats_t) : stats_t :=
  {| records_processed := records_processed s; records_skipped := records_skipped s;
     patients_created := (patients_created s + n)%nat;
     encounters_created := encounters_created s;
     procedures_created := procedures_created s;
     diagnoses_assigned := diagnoses_assigned s;
     reports_created := reports_created s |}.

Definition add_encounters_created (n : nat) (s : stats_t) : stats_t :=
  {| records_processed := records_processed s; records_skipped := records_skipped s;
     patients_created := patients_created s;
     encounters_created := (encounters_created s + n)%nat;
     procedures_created := procedures_created s;
     diagnoses_assigned := diagnoses_assigned s;
     reports_created := reports_created s |}.

Definition add_procedures_created (n : nat) (s : stats_t) : stats_t :=
  {| records_processed := records_processed s; records_skipped := records_skipped s;
     patients_created := patients_created s;
     encounters_created := encounters_created s;
     procedures_created := (procedures_created s + n)%nat;
     diagnoses_assigned := diagnoses_assigned s;
     reports_created := reports_created s |}.

Definition add_diagnoses_assigned (n : nat) (s : stats_t) : stats_t :=
  {| records_processed := records_processed s; records_skipped := records_skipped s;
     patients_created := patients_created s;
     encounters_created := encounters_created s;
     procedures_created := procedures_created s;
     diagnoses_assigned := (diagnoses_assigned s + n)%nat;
     reports_created := reports_created s |}.

Definition add_reports_created (n : nat) (s : stats_t) : stats_t :=
  {| records_processed := records_processed s; records_skipped := records_skipped s;
     patients_created := patients_created s;
     encounters_created := encounters_created s;
     procedures_created := procedures_created s;
     diagnoses_assigned := diagnoses_assigned s;
     reports_created := (reports_created s + n)%nat |}.

Definition init_stats : stats_t :=
  {| records_processed := 0; records_skipped := 0; patients_created := 0;
     encounters_created := 0; procedures_created := 0;
     diagnoses_assigned := 0; reports_created := 0 |}.

(** [_load_diagnosis_cache]: a dict comprehension over the result rows;
    a later row with the same code replaces an earlier one. *)
Definition _load_diagnosis_cache (d : opdb) : gmap string string :=
  foldl (λ m x, <[diagnosis_code x := diagnosis_id x]> m) ∅ (diagnoses d).

(** [_load_facility_ids]. *)
Definition _load_facility_ids (d : opdb) : list string :=
  facility_id <$> filter (λ f, facility_type f = "Hospital") (facilities d).

(** [NIH_ETL_Pipeline.__init__]. *)
Definition NIH_ETL_Pipeline (incr : bool) (d : opdb) : pipeline :=
  {| incremental := incr; stats := init_stats;
     diagnosis_cache := _load_diagnosis_cache d;
     facility_ids := _load_facility_ids d;
     db := d |}.

(** *** The incremental extraction filter ([transform]) *)

(** [DatabaseHelper.get_existing_image_indices]. *)
Definition get_existing_image_indices (d : opdb) : gset string :=
  list_to_set (filter (λ c, like_NIH_ c = true) (procedure_code <$> procedures d)).

(** ['NIH_' + df['Image Index'].str.replace('.png', '')]. *)
Definition derived_key (r : nih_row) : string :=
  "NIH_" +:+ remove_png (row_image_index r).

(** The derived columns of one row, at position [i] of the frame. *)
Definition transform_row (env : environment) (i : nat) (r : nih_row) : trow :=
  let dt := now_hours env - 730 * 24 + 24 * (rand_days env i `mod` 731)
            + rand_hours env i `mod` 24 in
  let labels := split_pipe (row_finding_labels r) in
  {| src := r;
     nih_procedure_code := derived_key r;
     modality_mapped := default "X-Ray" (MODALITY_MAPPING !! row_view_position r);
     encounter_datetime := dt;
     trow_encounter_date := dt `div` 24;
     diagnosis_list := labels;
     primary_diagnosis := strip (default "" (head labels)) |}.

(** [transform]: returns [None] when nothing is left to process. *)
Definition transform (env : environment) (df : list nih_row) (p : pipeline)
  : option (list trow) * pipeline :=
  let existing_indices : gset string :=
    if incremental p then get_existing_image_indices (db p) else ∅ in
  let filtering := incremental p && negb (bool_decide (existing_indices = ∅)) in
  let df_new :=
    if filtering then filter (λ r, derived_key r ∉ existing_indices) df else df in
  let p1 :=
    if filtering
    then with_stats (set_records_skipped (length df - length df_new)) p
    else p in
  if bool_decide (length df_new = 0%nat) then (None, p1)
  else (Some (imap (transform_row env) df_new),
        with_stats (set_records_processed (length df_new)) p1).

(** The rows a [transform] result stands for: [None] is the empty
    frame. *)
Definition frame (o : option (list trow)) : list trow := default [] o.

(** *** Identity resolution ([_bulk_create_patients]) *)

(** [f"nih_patient_{pid}@external.com"]. *)
Definition email_of (nih_id : string) : string :=
  "nih_patient_" +:+ nih_id +:+ "@external.com".

(** [f"PAT{str(last_id).zfill(7)}"]. *)
Definition format_patient_id (n : Z) : string :=
  "PAT" +:+ zfill 7 (str_of_Z n).

(** ["M" if g == "M" else "F" if g == "F" else "Other"]. *)
Definition map_gender (g : string) : string :=
  if decide (g = "M") then "M" else if decide (g = "F") then "F" else "Other".

(** [SELECT contact_email, patient_id FROM patients WHERE contact_email =
    ANY(emails)], folded into a dict (a later row replaces an earlier
    one). *)
Definition select_existing_patients (emails : list string) (cur : opdb)
  : gmap string string :=
  foldl (λ m x, <[contact_email x := patient_id x]> m) ∅
        (filter (λ x, contact_email x ∈ emails) (patients cur)).

(** [SELECT MAX(patient_id) FROM patients WHERE patient_id LIKE 'PAT%']. *)
Definition select_max_patient_id (cur : opdb) : option string :=
  sql_max (filter (λ i, like_PAT i = true) (patient_id <$> patients cur)).

(** [int(result[0].replace("PAT", "")) if result[0] else 5000]. *)
Definition last_patient_number (cur : opdb) : result Z :=
  match select_max_patient_id cur with
  | Some m =>
      if decide (m = "") then Ok 5000
      else match py_int (remove_PAT m) with
           | Some n => Ok n
           | None => Raise ValueError
           end
  | None => Ok 5000
  end.

(** The fixed-width convention on patient ids: every id under the
    [PAT] prefix is [PAT] followed by exactly 7 decimal digits. *)
Definition fixed_width_id (i : string) : Prop :=
  ∃ d, i = "PAT" +:+ d ∧ all_digits d = true ∧ String.length d = 7%nat.

Definition fixed_width_ids (cur : opdb) : Prop :=
  ∀ x, x ∈ patients cur → like_PAT (patient_id x) = true →
       fixed_width_id (patient_id x).

(** The state of the loop over [unique_patients]. *)
Record creation := {
  last_id : Z;
  new_patients : list patient;
  patient_map : gmap string string;
  created : nat;
}.

(** The number behind an id of the convention. *)
Definition id_number (i : string) : Z := digits_value 0 (remove_PAT i).

(** The ids built so far are those of the numbers after [L], in order. *)
Definition sequential (L : Z) (c : creation) : Prop :=
  L ≤ last_id c
  ∧ length (new_patients c) = Z.to_nat (last_id c - L)
  ∧ patient_id <$> new_patients c
    = (λ k : nat, format_patient_id (L + Z.of_nat k))
        <$> seq 1 (length (new_patients c)).

(** One iteration of the loop, on the row [(Patient ID, Patient Age,
    Patient Gender)]. *)
Definition create_step (env : environment) (existing_patients : gmap string string)
    (c : creation) (row : string * Z * string) : creation :=
  let '(nih_id, age, g) := row in
  let email := email_of nih_id in
  match existing_patients !! email with
  | Some pid =>
      {| last_id := last_id c; new_patients := new_patients c;
         patient_map := <[nih_id := pid]> (patient_map c);
         created := created c |}
  | None =>
      let n := last_id c + 1 in
      let new_patient_id := format_patient_id n in
      let dob := (now_hours env - age * 365 * 24) `div` 24 in
      {| last_id := n;
         new_patients :=
           new_patients c ++
             [ {| patient_id := new_patient_id; date_of_birth := dob;
                  gender := map_gender g; contact_email := email |} ];
         patient_map := <[nih_id := new_patient_id]> (patient_map c);
         created := S (created c) |}
  end.

(** A plain [INSERT INTO patients]: a row whose [patient_id] is already
    in the table violates the primary key. *)
Fixpoint insert_patients (rows : list patient) (tbl : list patient)
  : result (list patient) :=
  match rows with
  | [] => Ok tbl
  | x :: r =>
      if decide (patient_id x ∈ patient_id <$> tbl) then Raise UniqueViolation
      else insert_patients r (tbl ++ [x])
  end.

Definition with_patients (t : list patient) (d : opdb) : opdb :=
  {| patients := t; facilities := facilities d; diagnoses := diagnoses d;
     encounters := encounters d; procedures := procedures d;
     encounter_diagnoses := encounter_diagnoses d; reports := reports d;
     procedure_id_seq := procedure_id_seq d; report_id_seq := report_id_seq d |}.

Definition unique_patients_of (batch_df : list trow) : list (string * Z * string) :=
  drop_duplicates []
    ((λ t, (row_patient_id (src t), row_patient_age (src t),
            row_patient_gender (src t))) <$> batch_df).

(** The loop of [_bulk_create_patients], from the state of the store at
    the two queries. *)
Definition create_patients (env : environment) (cur : opdb)
    (unique_patients : list (string * Z * string)) : result creation :=
  let emails := (λ r, email_of r.1.1) <$> unique_patients in
  let existing_patients := select_existing_patients emails cur in
  last ← last_patient_number cur;
  mret (foldl (create_step env existing_patients)
              {| last_id := last; new_patients := []; patient_map := ∅; created := 0 |}
              unique_patients).

(** [_bulk_create_patients]: the resulting [patient_map] and cursor
    state; the pipeline's counters are updated in place, also when the
    insert fails afterwards. *)
Definition _bulk_create_patients (env : environment) (batch_df : list trow)
    (cur : opdb) (p : pipeline)
  : result (gmap string string * opdb) * pipeline :=
  let unique_patients := unique_patients_of batch_df in
  match unique_patients with
  | [] => (Ok (∅, cur), p)
  | _ =>
      match create_patients env cur unique_patients with
      | Raise e => (Raise e, p)
      | Ok c =>
          let p' := with_stats (add_patients_created (created c)) p in
          match new_patients c with
          | [] => (Ok (patient_map c, cur), p')
          | _ =>
              (tbl ← insert_patients (new_patients c) (patients cur);
               mret (patient_map c, with_patients tbl cur), p')
          end
      end
  end.

(** *** Batch load ([_load_batch_optimized]) *)

Definition with_encounters (t : list encounter) (d : opdb) : opdb :=
  {| patients := patients d; facilities := facilities d; diagnoses := diagnoses d;
     encounters := t; procedures := procedures d;
     encounter_diagnoses := encounter_diagnoses d; reports := reports d;
     procedure_id_seq := procedure_id_seq d; report_id_seq := report_id_seq d |}.

Definition with_procedures (t : list procedure) (next : Z) (d : opdb) : opdb :=
  {| patients := patients d; facilities := facilities d; diagnoses := diagnoses d;
     encounters := encounters d; procedures := t;
     encounter_diagnoses := encounter_diagnoses d; reports := reports d;
     procedure_id_seq := next; report_id_seq := report_id_seq d |}.

Definition with_encounter_diagnoses (t : list encounter_diagnosis) (d : opdb) : opdb :=
  {| patients := patients d; facilities := facilities d; diagnoses := diagnoses d;
     encounters := encounters d; procedures := procedures d;
     encounter_diagnoses := t; reports := reports d;
     procedure_id_seq := procedure_id_seq d; report_id_seq := report_id_seq d |}.

Definition with_reports (t : list report) (next : Z) (d : opdb) : opdb :=
  {| patients := patients d; facilities := facilities d; diagnoses := diagnoses d;
     encounters := encounters d; procedures := procedures d;
     encounter_diagnoses := encounter_diagnoses d; reports := t;
     procedure_id_seq := procedure_id_seq d; report_id_seq := next |}.

(** [random.choices(population, k=k)]: raises on an empty population
    as soon as one element is asked for. *)
Definition random_choices (env : environment) (batch_num : nat)
    (population : list string) (k : nat) : result (list string) :=
  match population with
  | [] => match k with O => Ok [] | S _ => Raise IndexError end
  | x :: _ =>
      Ok ((λ i, default x
                 (population !! (rand_facility env batch_num i `mod` length population)%nat))
            <$> seq 0 k)
  end.

(** [f"NIH_{row['Image Index'].replace('.png', '')}_ENC"]. *)
Definition encounter_id_of (image_index : string) : string :=
  "NIH_" +:+ remove_png image_index +:+ "_ENC".

Definition encounter_types : list string := ["Inpatient"; "Outpatient"; "Emergency"].

(** The encounter tuple of the row at position [idx] of the batch. *)
Definition build_encounter (env : environment) (batch_num : nat)
    (patient_map : gmap string string) (facility_ids_sample : list string)
    (idx : nat) (t : trow) : result encounter :=
  pid ← getitem patient_map (row_patient_id (src t));
  fid ← match facility_ids_sample !! idx with
        | Some f => Ok f
        | None => Raise IndexError
        end;
  mret {| encounter_id := encounter_id_of (row_image_index (src t));
          enc_patient_id := pid;
          enc_facility_id := fid;
          encounter_date := trow_encounter_date t;
          encounter_type :=
            default "Inpatient"
              (encounter_types !! (rand_encounter_type env batch_num idx `mod` 3)%nat) |}.

(** [encounter_map], filled row by row. *)
Definition build_encounter_map (batch_df : list trow) : gmap string string :=
  foldl (λ m t, <[row_image_index (src t) := encounter_id_of (row_image_index (src t))]> m)
        ∅ batch_df.

(** [INSERT INTO encounters ... ON CONFLICT (encounter_id) DO NOTHING]. *)
Definition insert_encounters (rows tbl : list encounter) : list encounter :=
  foldl (λ acc x,
           if decide (encounter_id x ∈ encounter_id <$> acc) then acc else acc ++ [x])
        tbl rows.

(** The procedure tuple of a row; the key is assigned at insertion. *)
Definition build_procedure (encounter_map : gmap string string) (t : trow)
  : result procedure :=
  eid ← getitem encounter_map (row_image_index (src t));
  mret {| procedure_id := 0;
          proc_encounter_id := eid;
          procedure_code := nih_procedure_code t;
          procedure_name := modality_mapped t +:+ " Chest";
          modality := modality_mapped t;
          view_position := row_view_position (src t);
          body_part := "Chest" |}.

Definition same_procedure_key (x y : procedure) : Prop :=
  proc_encounter_id x = proc_encounter_id y ∧ procedure_code x = procedure_code y.

#[export] Instance same_procedure_key_dec x y : Decision (same_procedure_key x y).
Proof. unfold same_procedure_key. apply _. Defined.

(** [INSERT INTO procedures ... ON CONFLICT (encounter_id, procedure_code)
    DO NOTHING]: every proposed row takes the next value of the sequence,
    inserted or not. *)
Definition insert_procedures (rows : list procedure) (tbl : list procedure) (next : Z)
  : list procedure * Z :=
  foldl (λ acc x,
           let '(t, n) := acc in
           if decide (Exists (same_procedure_key x) t) then (t, n + 1)
           else (t ++ [ {| procedure_id := n;
                           proc_encounter_id := proc_encounter_id x;
                           procedure_code := procedure_code x;
                           procedure_name := procedure_name x;
                           modality := modality x;
                           view_position := view_position x;
                           body_part := body_part x |} ], n + 1))
        (tbl, next) rows.

(** The catalog id a label resolves to: the label, stripped, must be a
    key of the mapping and its ICD code must be cached with a non-empty
    id. *)
Definition resolve_label (cache : gmap string string) (label : string)
  : option string :=
  let nih_diagnosis := strip label in
  match NIH_TO_ICD10_MAPPING !! nih_diagnosis with
  | Some (icd_code, _) =>
      match cache !! icd_code with
      | Some did => if decide (did = "") then None else Some did
      | None => None
      end
  | None => None
  end.

(** The diagnosis assignments of one row: the first three labels, ranked
    by position from 1, each kept when it resolves. *)
Definition diagnoses_for_row (cache : gmap string string) (eid : string) (t : trow)
  : list encounter_diagnosis :=
  omap (λ x : nat * string,
          (λ did, {| ed_encounter_id := eid;
                     ed_diagnosis_id := did;
                     diagnosis_rank := Z.of_nat x.1;
                     is_primary := bool_decide (x.1 = 1%nat) |})
            <$> resolve_label cache x.2)
       (imap (λ i l, (S i, l)) (take 3 (diagnosis_list t))).


Definition build_encounter_diagnoses (cache encounter_map : gmap string string)
    (t : trow) : result (list encounter_diagnosis) :=
  eid ← getitem encounter_map (row_image_index (src t));
  mret (diagnoses_for_row cache eid t).

Definition same_assignment (x y : encounter_diagnosis) : Prop :=
  ed_encounter_id x = ed_encounter_id y ∧ ed_diagnosis_id x = ed_diagnosis_id y.

#[export] Instance same_assignment_dec x y : Decision (same_assignment x y).
Proof. unfold same_assignment. apply _. Defined.

(** [INSERT INTO encounter_diagnoses ... ON CONFLICT (encounter_id,
    diagnosis_id) DO NOTHING]. *)
Definition insert_encounter_diagnoses (rows tbl : list encounter_diagnosis)
  : list encounter_diagnosis :=
  foldl (λ acc x, if decide (Exists (same_assignment x) acc) then acc else acc ++ [x])
        tbl rows.

Definition build_report (encounter_map : gmap string string) (t : trow)
  : result report :=
  eid ← getitem encounter_map (row_image_index (src t));
  mret {| report_id := 0; rep_encounter_id := eid;
          report_type := row_report_type (src t);
          report_status := row_report_status (src t) |}.

(** [INSERT INTO reports]: no conflict target, every row is added. *)
Definition insert_reports (rows : list report) (tbl : list report) (next : Z)
  : list report * Z :=
  foldl (λ acc x,
           let '(t, n) := acc in
           (t ++ [ {| report_id := n; rep_encounter_id := rep_encounter_id x;
                      report_type := report_type x;
                      report_status := report_status x |} ], n + 1))
        (tbl, next) rows.

(** Step 1 of the batch, and steps 2 to 5 from its result. *)
Definition load_steps_2_5 (env : environment) (batch_num : nat)
    (batch_df : list trow) (patient_map : gmap string string) (cur : opdb)
    (p : pipeline) : result opdb * pipeline :=
  match
    (sample ← random_choices env batch_num (facility_ids p) (length batch_df);
     mapM (λ x : nat * trow, build_encounter env batch_num patient_map sample x.1 x.2)
          (imap (λ i t, (i, t)) batch_df))
  with
  | Raise e => (Raise e, p)
  | Ok encs =>
      let encounter_map := build_encounter_map batch_df in
      let cur2 := with_encounters (insert_encounters encs (encounters cur)) cur in
      let p2 := with_stats (add_encounters_created (length encs)) p in
      match mapM (build_procedure encounter_map) batch_df with
      | Raise e => (Raise e, p2)
      | Ok procs =>
          let '(ptbl, pnext) :=
            insert_procedures procs (procedures cur2) (procedure_id_seq cur2) in
          let cur3 := with_procedures ptbl pnext cur2 in
          let p3 := with_stats (add_procedures_created (length procs)) p2 in
          match mapM (build_encounter_diagnoses (diagnosis_cache p) encounter_map)
                     batch_df with
          | Raise e => (Raise e, p3)
          | Ok edss =>
              let eds := concat edss in
              let cur4 :=
                match eds with
                | [] => cur3
                | _ => with_encounter_diagnoses
                         (insert_encounter_diagnoses eds (encounter_diagnoses cur3)) cur3
                end in
              let p4 :=
                match eds with
                | [] => p3
                | _ => with_stats (add_diagnoses_assigned (length eds)) p3
                end in
              match mapM (build_report encounter_map) batch_df with
              | Raise e => (Raise e, p4)
              | Ok reps =>
                  let '(rtbl, rnext) :=
                    insert_reports reps (reports cur4) (report_id_seq cur4) in
                  (Ok (with_reports rtbl rnext cur4),
                   with_stats (add_reports_created (length reps)) p4)
              end
          end
      end
  end.

Definition _load_batch_optimized (env : environment) (batch_num : nat)
    (batch_df : list trow) (cur : opdb) (p : pipeline) : result opdb * pipeline :=
  match _bulk_create_patients env batch_df cur p with
  | (Raise e, p1) => (Raise e, p1)
  | (Ok (patient_map, cur1), p1) =>
      load_steps_2_5 env batch_num batch_df patient_map cur1 p1
  end.

(** *** Constraints of the operational schema *)

Definition procedure_pair (x : procedure) : string * string :=
  (proc_encounter_id x, procedure_code x).

Definition assignment_pair (x : encounter_diagnosis) : string * string :=
  (ed_encounter_id x, ed_diagnosis_id x).

(** The uniqueness constraints the inserts rely on: the primary keys,
    the conflict targets, and the two sequences ahead of the keys they
    have issued. *)
Record keys_unique (d : opdb) : Prop := {
  unique_patient_id : NoDup (patient_id <$> patients d);
  unique_encounter_id : NoDup (encounter_id <$> encounters d);
  unique_procedure : NoDup (procedure_pair <$> procedures d);
  unique_procedure_id : NoDup (procedure_id <$> procedures d);
  issued_procedure_id : Forall (λ x, procedure_id x < procedure_id_seq d) (procedures d);
  unique_assignment : NoDup (assignment_pair <$> encounter_diagnoses d);
  unique_report_id : NoDup (report_id <$> reports d);
  issued_report_id : Forall (λ x, report_id x < report_id_seq d) (reports d);
}.

(** The foreign keys. *)
Record references_resolve (d : opdb) : Prop := {
  encounter_patient :
    ∀ e, e ∈ encounters d → enc_patient_id e ∈ patient_id <$> patients d;
  encounter_facility :
    ∀ e, e ∈ encounters d → enc_facility_id e ∈ facility_id <$> facilities d;
  procedure_encounter :
    ∀ x, x ∈ procedures d → proc_encounter_id x ∈ encounter_id <$> encounters d;
  assignment_encounter :
    ∀ x, x ∈ encounter_diagnoses d →
         ed_encounter_id x ∈ encounter_id <$> encounters d;
  assignment_diagnosis :
    ∀ x, x ∈ encounter_diagnoses d →
         ed_diagnosis_id x ∈ diagnosis_id <$> diagnoses d;
  report_encounter :
    ∀ x, x ∈ reports d → rep_encounter_id x ∈ encounter_id <$> encounters d;
}.

(** The reference data cached by the pipeline comes from the store. *)
Definition caches_from (p : pipeline) (d : opdb) : Prop :=
  (∀ f, f ∈ facility_ids p → f ∈ facility_id <$> facilities d)
  ∧ (∀ code did, diagnosis_cache p !! code = Some did →
                 did ∈ diagnosis_id <$> diagnoses d).

(** Rows are only ever added, after the rows already stored. *)
Definition append_only (d d' : opdb) : Prop :=
  patients d `prefix_of` patients d'
  ∧ encounters d `prefix_of` encounters d'
  ∧ procedures d `prefix_of` procedures d'
  ∧ encounter_diagnoses d `prefix_of` encounter_diagnoses d'
  ∧ reports d `prefix_of` reports d'
  ∧ facilities d' = facilities d
  ∧ diagnoses d' = diagnoses d.

(** The rows a batch row stands for are in the store: a patient with the
    row's external email, its encounter, its procedure, and the diagnosis
    assignments the cache gives it. *)
Definition loaded (cache : gmap string string) (d : opdb) (t : trow) : Prop :=
  let eid := encounter_id_of (row_image_index (src t)) in
  email_of (row_patient_id (src t)) ∈ contact_email <$> patients d
  ∧ eid ∈ encounter_id <$> encounters d
  ∧ (eid, nih_procedure_code t) ∈ procedure_pair <$> procedures d
  ∧ ∀ x, x ∈ diagnoses_for_row cache eid t →
         assignment_pair x ∈ assignment_pair <$> encounter_diagnoses d.

(** *** [load] and [run] *)

(** The procedure codes in a store. *)
Definition codes (d : opdb) : list string := procedure_code <$> procedures d.

(** The rows of batch number [bn]: [df.iloc[start_idx:end_idx]]. *)
Definition slice (df : list trow) (bn : nat) : list trow :=
  take (Nat.min (bn * BATCH_SIZE + BATCH_SIZE) (length df) - bn * BATCH_SIZE)%nat
       (drop (bn * BATCH_SIZE)%nat df).

(** The loop over batch numbers on one connection: [cur] is the state
    seen by the cursor, [db p] the committed state.  An exception leaves
    the committed state where the last [conn.commit()] put it. *)
Fixpoint load_batches (env : environment) (df : list trow) (batch_nums : list nat)
    (cur : opdb) (p : pipeline) : result unit * pipeline :=
  match batch_nums with
  | [] => (Ok (), p)
  | batch_num :: rest =>
      let start_idx := (batch_num * BATCH_SIZE)%nat in
      let end_idx := Nat.min (start_idx + BATCH_SIZE) (length df) in
      let batch_df := take (end_idx - start_idx)%nat (drop start_idx df) in
      match _load_batch_optimized env batch_num batch_df cur p with
      | (Raise e, p') => (Raise e, p')
      | (Ok cur', p') => load_batches env df rest cur' (with_db cur' p')
      end
  end.

Definition load (env : environment) (df : option (list trow)) (p : pipeline)
  : result unit * pipeline :=
  match df with
  | None | Some [] => (Ok (), p)
  | Some l =>
      let total_batches := (length l `div` BATCH_SIZE + 1)%nat in
      load_batches env l (seq 0 total_batches) (db p) p
  end.

(** [run], from the frame that [extract] read. *)
Definition run (env : environment) (df : list nih_row) (p : pipeline)
  : result unit * pipeline :=
  match transform env df p with
  | (None, p1) => (Ok (), p1)
  | (Some df_transformed, p1) => load env (Some df_transformed) p1
  end.

End Loader.

(** ** Calendar arithmetic

    [datetime.date] as the standard library computes it, on ordinals. *)

Module Calendar.
Import Common Schema.

(** [date.max.toordinal()], 9999-12-31. *)
Definition MAXORDINAL : Z := 3652059.

Definition is_leap (year : Z) : bool :=
  (year `mod` 4 =? 0) && (negb (year `mod` 100 =? 0) || (year `mod` 400 =? 0)).

Definition days_before_year (year : Z) : Z :=
  let y := year - 1 in y * 365 + y `div` 4 - y `div` 100 + y `div` 400.

Definition DAYS_IN_MONTH (month : Z) : Z :=
  match month with
  | 1 => 31 | 2 => 28 | 3 => 31 | 4 => 30 | 5 => 31 | 6 => 30
  | 7 => 31 | 8 => 31 | 9 => 30 | 10 => 31 | 11 => 30 | 12 => 31
  | _ => -1
  end.

Definition DAYS_BEFORE_MONTH (month : Z) : Z :=
  match month with
  | 1 => 0 | 2 => 31 | 3 => 59 | 4 => 90 | 5 => 120 | 6 => 151
  | 7 => 181 | 8 => 212 | 9 => 243 | 10 => 273 | 11 => 304 | 12 => 334
  | _ => -1
  end.

Definition days_in_month (year month : Z) : Z :=
  if (month =? 2) && is_leap year then 29 else DAYS_IN_MONTH month.

Definition days_before_month (year month : Z) : Z :=
  DAYS_BEFORE_MONTH month + (if (2 <? month) && is_leap year then 1 else 0).

Definition ymd2ord (year month day : Z) : Z :=
  days_before_year year + days_before_month year month + day.

Definition DI400Y : Z := 146097.
Definition DI100Y : Z := 36524.
Definition DI4Y : Z := 1461.

(** [_ord2ymd]: year, month and day of an ordinal. *)
Definition ord2ymd (ordinal : Z) : Z * Z * Z :=
  let n := ordinal - 1 in
  let n400 := n `div` DI400Y in
  let n := n `mod` DI400Y in
  let n100 := n `div` DI100Y in
  let n := n `mod` DI100Y in
  let n4 := n `div` DI4Y in
  let n := n `mod` DI4Y in
  let n1 := n `div` 365 in
  let n := n `mod` 365 in
  let year := n400 * 400 + 1 + n100 * 100 + n4 * 4 + n1 in
  if (n1 =? 4) || (n100 =? 4) then (year - 1, 12, 31)
  else
    let leapyear := (n1 =? 3) && (negb (n4 =? 24) || (n100 =? 3)) in
    let month := Z.shiftr (n + 50) 5 in
    let preceding := DAYS_BEFORE_MONTH month
                     + (if (2 <? month) && leapyear then 1 else 0) in
    if n <? preceding then
      let month' := month - 1 in
      let preceding' := preceding
                        - (DAYS_IN_MONTH month'
                           + (if (month' =? 2) && leapyear then 1 else 0)) in
      (year, month', n - preceding' + 1)
    else (year, month, n - preceding + 1).

Definition year_of (d : date) : Z := (ord2ymd d).1.1.
Definition month_of (d : date) : Z := (ord2ymd d).1.2.
Definition day_of (d : date) : Z := (ord2ymd d).2.

(** [date.weekday()]: Monday is 0. *)
Definition weekday (d : date) : Z := (d + 6) `mod` 7.

Definition isoweek1monday (year : Z) : Z :=
  let firstday := ymd2ord year 1 1 in
  let firstweekday := (firstday + 6) `mod` 7 in
  let week1monday := firstday - firstweekday in
  if 3 <? firstweekday then week1monday + 7 else week1monday.

(** [date.isocalendar()[1]]. *)
Definition iso_week (d : date) : Z :=
  let year := year_of d in
  let week := (d - isoweek1monday year) `div` 7 in
  if week <? 0 then (d - isoweek1monday (year - 1)) `div` 7 + 1
  else if (52 <=? week) && (isoweek1monday (year + 1) <=? d) then 1
  else week + 1.

(** [strftime('%B')] and [strftime('%A')] in the C locale. *)
Definition month_name_of (month : Z) : string :=
  match month with
  | 1 => "January" | 2 => "February" | 3 => "March" | 4 => "April"
  | 5 => "May" | 6 => "June" | 7 => "July" | 8 => "August"
  | 9 => "September" | 10 => "October" | 11 => "November" | _ => "December"
  end.

Definition day_name_of (wd : Z) : string :=
  match wd with
  | 0 => "Monday" | 1 => "Tuesday" | 2 => "Wednesday" | 3 => "Thursday"
  | 4 => "Friday" | 5 => "Saturday" | _ => "Sunday"
  end.

(** [int(d.strftime('%Y%m%d'))] and [TO_CHAR(d, 'YYYYMMDD')::INTEGER]. *)
Definition yyyymmdd (d : date) : Z :=
  year_of d * 10000 + month_of d * 100 + day_of d.

(** [d + timedelta(days=k)]. *)
Definition add_days (d : date) (k : Z) : result date :=
  let o := d + k in
  if (0 <? o) && (o <=? MAXORDINAL) then Ok o else Raise OverflowError.

(** [EXTRACT(YEAR FROM AGE(d1, d2))]: whole years of the symbolic
    difference; negative when [d1] is before [d2]. *)
Definition years_between (later earlier : date) : Z :=
  let '(ly, lm, ld) := ord2ymd later in
  let '(ey, em, ed) := ord2ymd earlier in
  let months := lm - em - (if ld - ed <? 0 then 1 else 0) in
  ly - ey - (if months <? 0 then 1 else 0).

Definition age_years (d1 d2 : date) : Z :=
  if d1 <? d2 then - years_between d2 d1 else years_between d1 d2.

End Calendar.

(** ** The database helper ([db_helper.py])

    Every method runs its statements on a connection of its own and
    commits, so a method takes the committed store and returns the
    committed store. *)

Module Helper.
Import PyStr Common Schema Loader Calendar.

(** [get_patient_by_external_id]: [result[0][0] if result else None].
    The query has [LIMIT 1] and no [ORDER BY]; the first row in table
    order stands for the row the server picks. *)
Definition get_patient_by_external_id (d : opdb) (external_id : string)
  : option string :=
  head (patient_id <$>
        filter (λ x, contact_email x = email_of external_id) (patients d)).

(** [get_diagnosis_by_code], with the same reading of [LIMIT 1]. *)
Definition get_diagnosis_by_code (d : opdb) (diagnosis_code0 : string)
  : option string :=
  head (diagnosis_id <$>
        filter (λ x, diagnosis_code x = diagnosis_code0) (diagnoses d)).

(** The id of a new patient: the number after the greatest id under
    [PAT], or [PAT0010001] when there is none. *)
Definition new_patient_id (d : opdb) : result string :=
  match select_max_patient_id d with
  | Some m =>
      if decide (m = "") then Ok "PAT0010001"
      else match py_int (remove_PAT m) with
           | Some last_id => Ok (format_patient_id (last_id + 1))
           | None => Raise ValueError
           end
  | None => Ok "PAT0010001"
  end.

(** [(datetime.now() - timedelta(days=age * 365)).date()]: a
    [timedelta] holds at most 999999999 days either way, and the
    difference must be a date of the years 1 to 9999. *)
Definition birth_date (env : environment) (age : Z) : result date :=
  let days := age * 365 in
  if decide (999999999 < Z.abs days) then Raise OverflowError
  else
    let o := (now_hours env - days * 24) `div` 24 in
    if decide (1 ≤ o ≤ MAXORDINAL) then Ok o else Raise OverflowError.

(** [get_or_create_patient].  A patient id that is the empty string is
    falsy, so the method goes on to create a patient as if none had been
    found.  A failure before or in the insert leaves the store as it
    was. *)
Definition get_or_create_patient (env : environment) (d : opdb)
    (nih_patient_id : string) (age : Z) (gender0 : string)
  : result string * opdb :=
  let create :=
    match
      (new_id ← new_patient_id d;
       dob ← birth_date env age;
       tbl ← insert_patients
               [ {| patient_id := new_id; date_of_birth := dob;
                    gender := map_gender gender0;
                    contact_email := email_of nih_patient_id |} ]
               (patients d);
       mret (new_id, tbl))
    with
    | Ok (new_id, tbl) => (Ok new_id, with_patients tbl d)
    | Raise e => (Raise e, d)
    end in
  match get_patient_by_external_id d nih_patient_id with
  | Some pid => if decide (pid = "") then create else (Ok pid, d)
  | None => create
  end.

(** The [CASE] of [get_pipeline_stats]. *)
Definition source_of (code : string) : string :=
  if like_NIH_ code then "NIH Dataset" else "Synthetic Data".


(** [SELECT k, COUNT( * ) ... GROUP BY k]: one row per key that occurs,
    here in order of first appearance. *)
Definition group_counts (keys : list string) : list (string * nat) :=
  (λ k, (k, length (filter (λ k', k' = k) keys))) <$> drop_duplicates [] keys.

(** [get_pipeline_stats]: the dict filled from the result rows. *)
Definition get_pipeline_stats (d : opdb) : gmap string nat :=
  foldl (λ stats row, <[row.1 := row.2]> stats) ∅
        (group_counts (source_of <$> (procedure_code <$> procedures d))).

(** The number of patients stored under an email. *)
Definition patients_with_email (d : opdb) (e : string) : nat :=
  length (filter (λ x, contact_email x = e) (patients d)).

End Helper.

(** ** The orchestrator ([run_pipeline.py]) *)

Module Orchestrator.
Import PyStr Common Schema Loader Helper.

(** An entry of [results]. *)
Record run_stats := {
  run_number : nat;
  processed : nat;
  skipped : nat;
  rs_patients_created : nat;
  rs_encounters_created : nat;
}.

Definition run_stats_of (run_num : nat) (p : pipeline) : run_stats :=
  {| run_number := run_num;
     processed := records_processed (stats p);
     skipped := records_skipped (stats p);
     rs_patients_created := patients_created (stats p);
     rs_encounters_created := encounters_created (stats p) |}.

(** The loop of [simulate_incremental_loads] over the run numbers: every
    run is a new pipeline object on the store as it stands and reads the
    same file; [envs] gives the clock and the draws of each run.  An
    exception of a run ends the simulation.  The function prints
    [results] and returns nothing; here [results] is returned, with the
    store. *)
Fixpoint simulate_runs (envs : nat → environment) (df : list nih_row)
    (run_nums : list nat) (d : opdb) (results : list run_stats)
  : result (list run_stats) * opdb :=
  match run_nums with
  | [] => (Ok results, d)
  | run_num :: rest =>
      let pipeline := NIH_ETL_Pipeline true d in
      match run (envs run_num) df pipeline with
      | (Raise e, p') => (Raise e, db p')
      | (Ok _, p') =>
          simulate_runs envs df rest (db p') (results ++ [run_stats_of run_num p'])
      end
  end.

(** [range(1, num_runs + 1)]. *)
Definition simulate_incremental_loads (envs : nat → environment)
    (df : list nih_row) (num_runs : nat) (d : opdb)
  : result (list run_stats) * opdb :=
  simulate_runs envs df (seq 1 num_runs) d [].

(** The entry of a run that found everything loaded. *)
Definition skipped_run (df : list nih_row) (run_num : nat) : run_stats :=
  {| run_number := run_num; processed := 0; skipped := length df;
     rs_patients_created := 0; rs_encounters_created := 0 |}.

End Orchestrator.

(** ** The dimensional transformation engine ([WarehouseETL]) *)

Module Warehouse.
Import PyStr Common Schema Calendar.

(** *** Warehouse schema *)

Record dim_time_row := {
  date_id : Z;
  full_date : date;
  year : Z;
  quarter : Z;
  month : Z;
  month_name : string;
  week : Z;
  day_of_month : Z;
  day_of_week : Z;
  day_name : string;
  is_weekend : bool;
  is_holiday : bool;
  fiscal_year : Z;
  fiscal_quarter : Z;
}.

(** [patient_key], [procedure_key], [diagnosis_key] and [encounter_key]
    are the generated surrogate keys.  [age] is nullable. *)
Record dim_patient_row := {
  patient_key : Z;
  dp_patient_id : Z;
  age : option Z;
  sex : string;
  age_group : string;
  location : string;
}.

Record dim_procedure_row := {
  procedure_key : Z;
  dpr_procedure_id : Z;
  external_procedure_id : option string;
  dpr_procedure_code : string;
  dpr_procedure_name : string;
  dpr_modality : string;
  projection : string;
  dpr_body_part : string;
}.

Record dim_diagnosis_row := {
  diagnosis_key : Z;
  dd_diagnosis_id : Z;
  dd_diagnosis_code : string;
  dd_diagnosis_name : string;
  category : string;
  dd_severity : string;
}.

Record fact_encounter_row := {
  encounter_key : Z;
  fe_encounter_id : Z;
  fe_patient_key : Z;
  fe_date_id : Z;
  fe_facility_id : Z;
  fe_encounter_type : string;
  procedure_count : Z;
  diagnosis_count : Z;
  report_count : Z;
}.

Record bridge_procedure_row := {
  bp_encounter_key : Z;
  bp_procedure_key : Z;
}.

Record bridge_diagnosis_row := {
  bd_encounter_key : Z;
  bd_diagnosis_key : Z;
  diagnosis_type : string;
}.

(** The warehouse tables and the sequences behind the surrogate keys.
    [TRUNCATE] empties a table and leaves its sequence where it is. *)
Record warehouse := {
  dim_time : list dim_time_row;
  dim_patient : list dim_patient_row;
  dim_procedure : list dim_procedure_row;
  dim_diagnosis : list dim_diagnosis_row;
  fact_encounters : list fact_encounter_row;
  bridge_encounter_procedures : list bridge_procedure_row;
  bridge_encounter_diagnoses : list bridge_diagnosis_row;
  patient_key_seq : Z;
  procedure_key_seq : Z;
  diagnosis_key_seq : Z;
  encounter_key_seq : Z;
}.

Record wstats := {
  dim_time_records : nat;
  dim_patient_records : nat;
  dim_procedure_records : nat;
  dim_diagnosis_records : nat;
  fact_encounters_records : nat;
  bridge_procedures_records : nat;
  bridge_diagnoses_records : nat;
}.

Definition init_wstats : wstats :=
  {| dim_time_records := 0; dim_patient_records := 0; dim_procedure_records := 0;
     dim_diagnosis_records := 0; fact_encounters_records := 0;
     bridge_procedures_records := 0; bridge_diagnoses_records := 0 |}.

(** *** Key mapping *)

(** [CAST(s AS INTEGER)] on a string of digits: empty input and values
    beyond [2^31 - 1] are errors. *)
Definition cast_integer (s : string) : result Z :=
  if decide (s = "") then Raise InvalidTextRepresentation
  else
    let v := digits_value 0 s in
    if 2147483647 <? v then Raise NumericValueOutOfRange else Ok v.

(** [CAST(REGEXP_REPLACE(k, '\D', '', 'g') AS INTEGER)]. *)
Definition key_of (natural_key : string) : result Z :=
  cast_integer (strip_nondigits natural_key).

(** *** [clear_warehouse] *)

Definition clear_warehouse (w : warehouse) : warehouse :=
  {| dim_time := []; dim_patient := []; dim_procedure := []; dim_diagnosis := [];
     fact_encounters := []; bridge_encounter_procedures := [];
     bridge_encounter_diagnoses := [];
     patient_key_seq := patient_key_seq w;
     procedure_key_seq := procedure_key_seq w;
     diagnosis_key_seq := diagnosis_key_seq w;
     encounter_key_seq := encounter_key_seq w |}.

(** *** [populate_dim_time] *)

(** [SELECT MIN(encounter_date), MAX(encounter_date) FROM encounters]. *)
Definition select_min_max (d : opdb) : option (date * date) :=
  match encounter_date <$> encounters d with
  | [] => None
  | x :: r => Some (foldl Z.min x r, foldl Z.max x r)
  end.

(** The tuple appended for [current_date]. *)
Definition time_record (current_date : date) : dim_time_row :=
  {| date_id := yyyymmdd current_date;
     full_date := current_date;
     year := year_of current_date;
     quarter := (month_of current_date - 1) `div` 3 + 1;
     month := month_of current_date;
     month_name := month_name_of (month_of current_date);
     week := iso_week current_date;
     day_of_month := day_of current_date;
     day_of_week := weekday current_date + 1;
     day_name := day_name_of (weekday current_date);
     is_weekend := 5 <=? weekday current_date;
     is_holiday := false;
     fiscal_year := year_of current_date;
     fiscal_quarter := (month_of current_date - 1) `div` 3 + 1 |}.

(** The [while current_date <= max_date] loop.  [None] means the fuel
    ran out before the loop ended. *)
Fixpoint generate_dates (fuel : nat) (current_date max_date : date)
    (time_records : list dim_time_row) : option (result (list dim_time_row)) :=
  if current_date <=? max_date then
    match fuel with
    | O => None
    | S fuel' =>
        let time_records' := time_records ++ [time_record current_date] in
        match add_days current_date 1 with
        | Ok next => generate_dates fuel' next max_date time_records'
        | Raise e => Some (Raise e)
        end
    end
  else Some (Ok time_records).

(** [INSERT INTO dim_time ... ON CONFLICT (date_id) DO NOTHING]. *)
Definition insert_dim_time (rows tbl : list dim_time_row) : list dim_time_row :=
  foldl (λ acc x, if decide (date_id x ∈ date_id <$> acc) then acc else acc ++ [x])
        tbl rows.

Definition with_dim_time (t : list dim_time_row) (w : warehouse) : warehouse :=
  {| dim_time := t; dim_patient := dim_patient w; dim_procedure := dim_procedure w;
     dim_diagnosis := dim_diagnosis w; fact_encounters := fact_encounters w;
     bridge_encounter_procedures := bridge_encounter_procedures w;
     bridge_encounter_diagnoses := bridge_encounter_diagnoses w;
     patient_key_seq := patient_key_seq w;
     procedure_key_seq := procedure_key_seq w;
     diagnosis_key_seq := diagnosis_key_seq w;
     encounter_key_seq := encounter_key_seq w |}.

Definition set_dim_time_records (n : nat) (s : wstats) : wstats :=
  {| dim_time_records := n; dim_patient_records := dim_patient_records s;
     dim_procedure_records := dim_procedure_records s;
     dim_diagnosis_records := dim_diagnosis_records s;
     fact_encounters_records := fact_encounters_records s;
     bridge_procedures_records := bridge_procedures_records s;
     bridge_diagnoses_records := bridge_diagnoses_records s |}.

(** The days from [first], [n] of them. *)
Definition days_from (first : date) (n : nat) : list date :=
  (λ i : nat, first + Z.of_nat i) <$> seq 0 n.

(** The rows the stage builds, with the fuel the loop is given: one
    step per day of the range and one for the final test. *)
Definition dim_time_records_of (d : opdb) : option (result (list dim_time_row)) :=
  match select_min_max d with
  | None => Some (Ok [])
  | Some (min_date, max_date) =>
      generate_dates (S (Z.to_nat (max_date - min_date + 1))) min_date max_date []
  end.

(** [populate_dim_time]: the cursor state and the counters after the
    stage.  Without encounter dates the stage returns early and leaves
    both as they were. *)
Definition populate_dim_time (d : opdb) (w : warehouse) (s : wstats)
  : option (result (warehouse * wstats)) :=
  match select_min_max d with
  | None => Some (Ok (w, s))
  | Some _ =>
      match dim_time_records_of d with
      | None => None
      | Some (Raise e) => Some (Raise e)
      | Some (Ok time_records) =>
          Some (Ok (with_dim_time (insert_dim_time time_records (dim_time w)) w,
                    set_dim_time_records (length time_records) s))
      end
  end.

(** *** [populate_dim_patient] *)

(** The [CASE] over the computed age; with a [NULL] age no [WHEN] holds. *)
Definition age_group_of (a : option Z) : string :=
  match a with
  | Some n =>
      if n <? 18 then "Pediatric"
      else if (18 <=? n) && (n <=? 35) then "Young Adult"
      else if (36 <=? n) && (n <=? 55) then "Middle Age"
      else if (56 <=? n) && (n <=? 75) then "Senior"
      else "Elderly"
  | None => "Elderly"
  end.

(** [MIN(e.encounter_date)] over the encounters joined to a patient;
    [None] when the [LEFT JOIN] found none. *)
Definition first_encounter_date (d : opdb) (pid : string) : option date :=
  match encounter_date <$> filter (λ e, enc_patient_id e = pid) (encounters d) with
  | [] => None
  | x :: r => Some (foldl Z.min x r)
  end.

(** The row selected for one group [(patient_id, date_of_birth,
    gender)]; the key is assigned at insertion. *)
Definition dim_patient_select (d : opdb) (g : string * date * string)
  : result dim_patient_row :=
  let '(pid, dob, gen) := g in
  k ← key_of pid;
  let a := (λ m, age_years m dob) <$> first_encounter_date d pid in
  mret {| patient_key := 0; dp_patient_id := k; age := a; sex := gen;
          age_group := age_group_of a; location := "Kigali" |}.

(** The groups of the query, in order of first appearance. *)
Definition patient_groups (d : opdb) : list (string * date * string) :=
  drop_duplicates [] ((λ p, (patient_id p, date_of_birth p, gender p)) <$> patients d).

(** [INSERT INTO dim_patient ... ON CONFLICT (patient_id) DO NOTHING]:
    every proposed row takes the next key, inserted or not. *)
Definition insert_dim_patient (rows tbl : list dim_patient_row) (next : Z)
  : list dim_patient_row * Z :=
  foldl (λ acc x,
           let '(t, n) := acc in
           if decide (dp_patient_id x ∈ dp_patient_id <$> t) then (t, n + 1)
           else (t ++ [ {| patient_key := n; dp_patient_id := dp_patient_id x;
                           age := age x; sex := sex x; age_group := age_group x;
                           location := location x |} ], n + 1))
        (tbl, next) rows.


Definition with_dim_patient (t : list dim_patient_row) (next : Z) (w : warehouse)
  : warehouse :=
  {| dim_time := dim_time w; dim_patient := t; dim_procedure := dim_procedure w;
     dim_diagnosis := dim_diagnosis w; fact_encounters := fact_encounters w;
     bridge_encounter_procedures := bridge_encounter_procedures w;
     bridge_encounter_diagnoses := bridge_encounter_diagnoses w;
     patient_key_seq := next;
     procedure_key_seq := procedure_key_seq w;
     diagnosis_key_seq := diagnosis_key_seq w;
     encounter_key_seq := encounter_key_seq w |}.

Definition set_dim_patient_records (n : nat) (s : wstats) : wstats :=
  {| dim_time_records := dim_time_records s; dim_patient_records := n;
     dim_procedure_records := dim_procedure_records s;
     dim_diagnosis_records := dim_diagnosis_records s;
     fact_encounters_records := fact_encounters_records s;
     bridge_procedures_records := bridge_procedures_records s;
     bridge_diagnoses_records := bridge_diagnoses_records s |}.

Definition populate_dim_patient (d : opdb) (w : warehouse) (s : wstats)
  : result (warehouse * wstats) :=
  rows ← mapM (dim_patient_select d) (patient_groups d);
  let '(t, n) := insert_dim_patient rows (dim_patient w) (patient_key_seq w) in
  mret (with_dim_patient t n w, set_dim_patient_records (length t) s).

(** *** [populate_dim_procedure] *)

Definition dim_procedure_select (p : procedure) : dim_procedure_row :=
  {| procedure_key := 0; dpr_procedure_id := procedure_id p;
     external_procedure_id := None;
     dpr_procedure_code := procedure_code p;
     dpr_procedure_name := procedure_name p;
     dpr_modality := modality p;
     projection := view_position p;
     dpr_body_part := body_part p |}.

#[export] Instance dim_procedure_row_eq_dec : EqDecision dim_procedure_row.
Proof. solve_decision. Defined.

Definition insert_dim_procedure (rows tbl : list dim_procedure_row) (next : Z)
  : list dim_procedure_row * Z :=
  foldl (λ acc x,
           let '(t, n) := acc in
           if decide (dpr_procedure_id x ∈ dpr_procedure_id <$> t) then (t, n + 1)
           else (t ++ [ {| procedure_key := n; dpr_procedure_id := dpr_procedure_id x;
                           external_procedure_id := external_procedure_id x;
                           dpr_procedure_code := dpr_procedure_code x;
                           dpr_procedure_name := dpr_procedure_name x;
                           dpr_modality := dpr_modality x;
                           projection := projection x;
                           dpr_body_part := dpr_body_part x |} ], n + 1))
        (tbl, next) rows.

Definition with_dim_procedure (t : list dim_procedure_row) (next : Z) (w : warehouse)
  : warehouse :=
  {| dim_time := dim_time w; dim_patient := dim_patient w; dim_procedure := t;
     dim_diagnosis := dim_diagnosis w; fact_encounters := fact_encounters w;
     bridge_encounter_procedures := bridge_encounter_procedures w;
     bridge_encounter_diagnoses := bridge_encounter_diagnoses w;
     patient_key_seq := patient_key_seq w;
     procedure_key_seq := next;
     diagnosis_key_seq := diagnosis_key_seq w;
     encounter_key_seq := encounter_key_seq w |}.

Definition set_dim_procedure_records (n : nat) (s : wstats) : wstats :=
  {| dim_time_records := dim_time_records s;
     dim_patient_records := dim_patient_records s;
     dim_procedure_records := n;
     dim_diagnosis_records := dim_diagnosis_records s;
     fact_encounters_records := fact_encounters_records s;
     bridge_procedures_records := bridge_procedures_records s;
     bridge_diagnoses_records := bridge_diagnoses_records s |}.

Definition populate_dim_procedure (d : opdb) (w : warehouse) (s : wstats)
  : warehouse * wstats :=
  let rows := drop_duplicates [] (dim_procedure_select <$> procedures d) in
  let '(t, n) := insert_dim_procedure rows (dim_procedure w) (procedure_key_seq w) in
  (with_dim_procedure t n w, set_dim_procedure_records (length t) s).

(** *** [populate_dim_diagnosis] *)

Definition dim_diagnosis_select (x : diagnosis) : result dim_diagnosis_row :=
  k ← key_of (diagnosis_id x);
  mret {| diagnosis_key := 0; dd_diagnosis_id := k;
          dd_diagnosis_code := diagnosis_code x;
          dd_diagnosis_name := diagnosis_name x;
          category := diagnosis_category x;
          dd_severity := severity x |}.

Definition insert_dim_diagnosis (rows tbl : list dim_diagnosis_row) (next : Z)
  : list dim_diagnosis_row * Z :=
  foldl (λ acc x,
           let '(t, n) := acc in
           if decide (dd_diagnosis_id x ∈ dd_diagnosis_id <$> t) then (t, n + 1)
           else (t ++ [ {| diagnosis_key := n; dd_diagnosis_id := dd_diagnosis_id x;
                           dd_diagnosis_code := dd_diagnosis_code x;
                           dd_diagnosis_name := dd_diagnosis_name x;
                           category := category x;
                           dd_severity := dd_severity x |} ], n + 1))
        (tbl, next) rows.

Definition with_dim_diagnosis (t : list dim_diagnosis_row) (next : Z) (w : warehouse)
  : warehouse :=
  {| dim_time := dim_time w; dim_patient := dim_patient w;
     dim_procedure := dim_procedure w;
     dim_diagnosis := t; fact_encounters := fact_encounters w;
     bridge_encounter_procedures := bridge_encounter_procedures w;
     bridge_encounter_diagnoses := bridge_encounter_diagnoses w;
     patient_key_seq := patient_key_seq w;
     procedure_key_seq := procedure_key_seq w;
     diagnosis_key_seq := next;
     encounter_key_seq := encounter_key_seq w |}.

Definition set_dim_diagnosis_records (n : nat) (s : wstats) : wstats :=
  {| dim_time_records := dim_time_records s;
     dim_patient_records := dim_patient_records s;
     dim_procedure_records := dim_procedure_records s;
     dim_diagnosis_records := n;
     fact_encounters_records := fact_encounters_records s;
     bridge_procedures_records := bridge_procedures_records s;
     bridge_diagnoses_records := bridge_diagnoses_records s |}.

Definition populate_dim_diagnosis (d : opdb) (w : warehouse) (s : wstats)
  : result (warehouse * wstats) :=
  rows ← mapM dim_diagnosis_select (diagnoses d);
  let '(t, n) := insert_dim_diagnosis rows (dim_diagnosis w) (diagnosis_key_seq w) in
  mret (with_dim_diagnosis t n w, set_dim_diagnosis_records (length t) s).

(** *** [populate_fact_encounters] *)

#[export] Instance encounter_eq_dec : EqDecision encounter.
Proof. solve_decision. Defined.

(** [encounters e JOIN dim_patient dp ON dp.patient_id = CAST(...)]: the
    pairs [(e, dp.patient_key)] of one encounter.  The join key is
    computed for every encounter. *)
Definition fact_join (w : warehouse) (e : encounter) : result (list (encounter * Z)) :=
  pk ← key_of (enc_patient_id e);
  mret ((λ dp, (e, patient_key dp))
          <$> filter (λ dp, dp_patient_id dp = pk) (dim_patient w)).

(** [COUNT(DISTINCT col)] over the rows joined to an encounter. *)
Definition count_distinct (ids : list Z) : Z :=
  Z.of_nat (length (drop_duplicates [] ids)).

(** The row selected for one group [(e, patient_key)]. *)
Definition fact_select (d : opdb) (g : encounter * Z) : result fact_encounter_row :=
  let '(e, pkey) := g in
  eid ← key_of (encounter_id e);
  fid ← key_of (enc_facility_id e);
  mret {| encounter_key := 0;
          fe_encounter_id := eid;
          fe_patient_key := pkey;
          fe_date_id := yyyymmdd (encounter_date e);
          fe_facility_id := fid;
          fe_encounter_type := encounter_type e;
          procedure_count :=
            count_distinct
              (procedure_id <$> filter (λ p, proc_encounter_id p = encounter_id e)
                                       (procedures d));
          diagnosis_count :=
            Z.of_nat (length (drop_duplicates []
              (ed_diagnosis_id <$> filter (λ x, ed_encounter_id x = encounter_id e)
                                          (encounter_diagnoses d))));
          report_count :=
            count_distinct
              (report_id <$> filter (λ r, rep_encounter_id r = encounter_id e)
                                    (reports d)) |}.

(** The groups of the query: [encounter_id] and [patient_key] are
    primary keys, so a group is a pair of rows. *)
Definition fact_groups (d : opdb) (w : warehouse) : result (list (encounter * Z)) :=
  joined ← mapM (fact_join w) (encounters d);
  mret (drop_duplicates [] (concat joined)).

Definition insert_fact_encounters (rows tbl : list fact_encounter_row) (next : Z)
  : list fact_encounter_row * Z :=
  foldl (λ acc x,
           let '(t, n) := acc in
           if decide (fe_encounter_id x ∈ fe_encounter_id <$> t) then (t, n + 1)
           else (t ++ [ {| encounter_key := n; fe_encounter_id := fe_encounter_id x;
                           fe_patient_key := fe_patient_key x;
                           fe_date_id := fe_date_id x;
                           fe_facility_id := fe_facility_id x;
                           fe_encounter_type := fe_encounter_type x;
                           procedure_count := procedure_count x;
                           diagnosis_count := diagnosis_count x;
                           report_count := report_count x |} ], n + 1))
        (tbl, next) rows.

Definition with_fact_encounters (t : list fact_encounter_row) (next : Z)
    (w : warehouse) : warehouse :=
  {| dim_time := dim_time w; dim_patient := dim_patient w;
     dim_procedure := dim_procedure w;
     dim_diagnosis := dim_diagnosis w; fact_encounters := t;
     bridge_encounter_procedures := bridge_encounter_procedures w;
     bridge_encounter_diagnoses := bridge_encounter_diagnoses w;
     patient_key_seq := patient_key_seq w;
     procedure_key_seq := procedure_key_seq w;
     diagnosis_key_seq := diagnosis_key_seq w;
     encounter_key_seq := next |}.

Definition set_fact_encounters_records (n : nat) (s : wstats) : wstats :=
  {| dim_time_records := dim_time_records s;
     dim_patient_records := dim_patient_records s;
     dim_procedure_records := dim_procedure_records s;
     dim_diagnosis_records := dim_diagnosis_records s;
     fact_encounters_records := n;
     bridge_procedures_records := bridge_procedures_records s;
     bridge_diagnoses_records := bridge_diagnoses_records s |}.

Definition populate_fact_encounters (d : opdb) (w : warehouse) (s : wstats)
  : result (warehouse * wstats) :=
  groups ← fact_groups d w;
  rows ← mapM (fact_select d) groups;
  let '(t, n) := insert_fact_encounters rows (fact_encounters w) (encounter_key_seq w) in
  mret (with_fact_encounters t n w, set_fact_encounters_records (length t) s).

(** *** Bridge tables *)

(** [CAST(REGEXP_REPLACE(e.encounter_id, ...))] for every encounter, the
    left side of the join with [fact_encounters]. *)
Definition keyed_encounters (d : opdb) : result (list (encounter * Z)) :=
  mapM (λ e, k ← key_of (encounter_id e); mret (e, k)) (encounters d).

#[export] Instance bridge_procedure_row_eq_dec : EqDecision bridge_procedure_row.
Proof. solve_decision. Defined.

#[export] Instance bridge_diagnosis_row_eq_dec : EqDecision bridge_diagnosis_row.
Proof. solve_decision. Defined.

Definition bridge_procedure_select (d : opdb) (w : warehouse)
    (keyed : list (encounter * Z)) : list bridge_procedure_row :=
  f ← fact_encounters w;
  ek ← filter (λ ek : encounter * Z, ek.2 = fe_encounter_id f) keyed;
  p ← filter (λ p, proc_encounter_id p = encounter_id ek.1) (procedures d);
  dp ← filter (λ dp, dpr_procedure_id dp = procedure_id p) (dim_procedure w);
  [ {| bp_encounter_key := encounter_key f; bp_procedure_key := procedure_key dp |} ].

(** [ON CONFLICT (encounter_key, procedure_key) DO NOTHING]. *)
Definition insert_bridge_procedures (rows tbl : list bridge_procedure_row)
  : list bridge_procedure_row :=
  foldl (λ acc x, if decide (x ∈ acc) then acc else acc ++ [x]) tbl rows.

Definition with_bridge_procedures (t : list bridge_procedure_row) (w : warehouse)
  : warehouse :=
  {| dim_time := dim_time w; dim_patient := dim_patient w;
     dim_procedure := dim_procedure w;
     dim_diagnosis := dim_diagnosis w; fact_encounters := fact_encounters w;
     bridge_encounter_procedures := t;
     bridge_encounter_diagnoses := bridge_encounter_diagnoses w;
     patient_key_seq := patient_key_seq w;
     procedure_key_seq := procedure_key_seq w;
     diagnosis_key_seq := diagnosis_key_seq w;
     encounter_key_seq := encounter_key_seq w |}.

Definition set_bridge_procedures_records (n : nat) (s : wstats) : wstats :=
  {| dim_time_records := dim_time_records s;
     dim_patient_records := dim_patient_records s;
     dim_procedure_records := dim_procedure_records s;
     dim_diagnosis_records := dim_diagnosis_records s;
     fact_encounters_records := fact_encounters_records s;
     bridge_procedures_records := n;
     bridge_diagnoses_records := bridge_diagnoses_records s |}.

Definition populate_bridge_procedures (d : opdb) (w : warehouse) (s : wstats)
  : result (warehouse * wstats) :=
  keyed ← keyed_encounters d;
  let rows := drop_duplicates [] (bridge_procedure_select d w keyed) in
  let t := insert_bridge_procedures rows (bridge_encounter_procedures w) in
  mret (with_bridge_procedures t w, set_bridge_procedures_records (length t) s).

(** [encounter_diagnoses ed JOIN dim_diagnosis dd ON dd.diagnosis_id =
    CAST(...)]: the key of every assignment. *)
Definition keyed_assignments (d : opdb) : result (list (encounter_diagnosis * Z)) :=
  mapM (λ x, k ← key_of (ed_diagnosis_id x); mret (x, k)) (encounter_diagnoses d).

Definition bridge_diagnosis_select (w : warehouse)
    (keyed : list (encounter * Z)) (assignments : list (encounter_diagnosis * Z))
  : list bridge_diagnosis_row :=
  f ← fact_encounters w;
  ek ← filter (λ ek : encounter * Z, ek.2 = fe_encounter_id f) keyed;
  a ← filter (λ a : encounter_diagnosis * Z, ed_encounter_id a.1 = encounter_id ek.1)
             assignments;
  dd ← filter (λ dd, dd_diagnosis_id dd = a.2) (dim_diagnosis w);
  [ {| bd_encounter_key := encounter_key f; bd_diagnosis_key := diagnosis_key dd;
       diagnosis_type := if is_primary a.1 then "Primary" else "Secondary" |} ].

Definition same_bridge_diagnosis (x y : bridge_diagnosis_row) : Prop :=
  bd_encounter_key x = bd_encounter_key y ∧ bd_diagnosis_key x = bd_diagnosis_key y.

#[export] Instance same_bridge_diagnosis_dec x y : Decision (same_bridge_diagnosis x y).
Proof. unfold same_bridge_diagnosis. apply _. Defined.

(** [ON CONFLICT (encounter_key, diagnosis_key) DO NOTHING]. *)
Definition insert_bridge_diagnoses (rows tbl : list bridge_diagnosis_row)
  : list bridge_diagnosis_row :=
  foldl (λ acc x, if decide (Exists (same_bridge_diagnosis x) acc) then acc
                  else acc ++ [x]) tbl rows.

Definition with_bridge_diagnoses (t : list bridge_diagnosis_row) (w : warehouse)
  : warehouse :=
  {| dim_time := dim_time w; dim_patient := dim_patient w;
     dim_procedure := dim_procedure w;
     dim_diagnosis := dim_diagnosis w; fact_encounters := fact_encounters w;
     bridge_encounter_procedures := bridge_encounter_procedures w;
     bridge_encounter_diagnoses := t;
     patient_key_seq := patient_key_seq w;
     procedure_key_seq := procedure_key_seq w;
     diagnosis_key_seq := diagnosis_key_seq w;
     encounter_key_seq := encounter_key_seq w |}.

Definition set_bridge_diagnoses_records (n : nat) (s : wstats) : wstats :=
  {| dim_time_records := dim_time_records s;
     dim_patient_records := dim_patient_records s;
     dim_procedure_records := dim_procedure_records s;
     dim_diagnosis_records := dim_diagnosis_records s;
     fact_encounters_records := fact_encounters_records s;
     bridge_procedures_records := bridge_procedures_records s;
     bridge_diagnoses_records := n |}.

Definition populate_bridge_diagnoses (d : opdb) (w : warehouse) (s : wstats)
  : result (warehouse * wstats) :=
  keyed ← keyed_encounters d;
  assignments ← keyed_assignments d;
  let rows := drop_duplicates [] (bridge_diagnosis_select w keyed assignments) in
  let t := insert_bridge_diagnoses rows (bridge_encounter_diagnoses w) in
  mret (with_bridge_diagnoses t w, set_bridge_diagnoses_records (length t) s).

(** *** Constraints of the warehouse schema *)

Definition bridge_diagnosis_pair (b : bridge_diagnosis_row) : Z * Z :=
  (bd_encounter_key b, bd_diagnosis_key b).

(** The uniqueness constraints behind the conflict targets, the
    surrogate keys, and the sequences ahead of the keys they issued. *)
Record warehouse_keys_unique (w : warehouse) : Prop := {
  unique_date_id : NoDup (date_id <$> dim_time w);
  unique_dp_patient_id : NoDup (dp_patient_id <$> dim_patient w);
  unique_patient_key : NoDup (patient_key <$> dim_patient w);
  issued_patient_key : Forall (λ x, patient_key x < patient_key_seq w) (dim_patient w);
  unique_dpr_procedure_id : NoDup (dpr_procedure_id <$> dim_procedure w);
  unique_procedure_key : NoDup (procedure_key <$> dim_procedure w);
  issued_procedure_key :
    Forall (λ x, procedure_key x < procedure_key_seq w) (dim_procedure w);
  unique_dd_diagnosis_id : NoDup (dd_diagnosis_id <$> dim_diagnosis w);
  unique_diagnosis_key : NoDup (diagnosis_key <$> dim_diagnosis w);
  issued_diagnosis_key :
    Forall (λ x, diagnosis_key x < diagnosis_key_seq w) (dim_diagnosis w);
  unique_fe_encounter_id : NoDup (fe_encounter_id <$> fact_encounters w);
  unique_encounter_key : NoDup (encounter_key <$> fact_encounters w);
  issued_encounter_key :
    Forall (λ x, encounter_key x < encounter_key_seq w) (fact_encounters w);
  unique_bridge_procedure : NoDup (bridge_encounter_procedures w);
  unique_bridge_diagnosis :
    NoDup (bridge_diagnosis_pair <$> bridge_encounter_diagnoses w);
}.

(** The references the two [LEFT JOIN] checks look for. *)
Record warehouse_references (w : warehouse) : Prop := {
  fact_patient :
    ∀ f, f ∈ fact_encounters w → fe_patient_key f ∈ patient_key <$> dim_patient w;
  bridge_procedure :
    ∀ b, b ∈ bridge_encounter_procedures w →
         bp_procedure_key b ∈ procedure_key <$> dim_procedure w;
}.

(** *** [run] *)

(** The outcome of a run: what was raised, if anything, the committed
    warehouse and the counters.  Every stage is committed on its own; an
    exception rolls back the stage in progress only.  [None] stands for
    the time loop running out of fuel. *)
Record run_result := {
  outcome : result unit;
  committed : warehouse;
  counters : wstats;
}.

Definition stage (step : warehouse → wstats → result (warehouse * wstats))
    (k : warehouse → wstats → run_result) (w : warehouse) (s : wstats) : run_result :=
  match step w s with
  | Raise e => {| outcome := Raise e; committed := w; counters := s |}
  | Ok (w', s') => k w' s'
  end.

Definition run (d : opdb) (w0 : warehouse) : option run_result :=
  let w := clear_warehouse w0 in
  match populate_dim_time d w init_wstats with
  | None => None
  | Some step1 =>
      Some
        (stage (λ _ _, step1)
          (stage (populate_dim_patient d)
            (stage (λ w s, Ok (populate_dim_procedure d w s))
              (stage (populate_dim_diagnosis d)
                (stage (populate_fact_encounters d)
                  (stage (populate_bridge_procedures d)
                    (stage (populate_bridge_diagnoses d)
                      (λ w s, {| outcome := Ok (); committed := w;
                                 counters := s |})))))))
          w init_wstats)
  end.

End Warehouse.

(** ** The warehouse QA engine ([WarehouseQA]) *)

Module QA.
Import PyStr.

(** A cell of a result row. *)
Inductive value :=
| VNull
| VInt (z : Z)
| VText (s : string).

(** What the server answers to a query run outside a failed
    transaction: the column names and the rows, or an error message. *)
Inductive answer :=
| Rows (cols : list string) (rows : list (list value))
| Error (msg : string).

(** The connection: inside a transaction that an error has aborted,
    every statement fails until a rollback. *)
Record connection := {
  aborted : bool;
  rollbacks : nat;
}.

Definition fresh_connection : connection := {| aborted := false; rollbacks := 0 |}.

Definition in_failed_transaction : string :=
  "current transaction is aborted, commands ignored until end of transaction block".

(** [cursor.execute(sql)] followed by [cursor.fetchall()]. *)
Definition execute (server : string → answer) (sql : string) (c : connection)
  : answer * connection :=
  if aborted c then (Error in_failed_transaction, c)
  else
    match server sql with
    | Rows cols rows => (Rows cols rows, c)
    | Error msg => (Error msg, {| aborted := true; rollbacks := rollbacks c |})
    end.

(** [conn.rollback()]. *)
Definition rollback (c : connection) : connection :=
  {| aborted := false; rollbacks := S (rollbacks c) |}.

Definition QA_DESCRIPTIONS : gmap Z string :=
  list_to_map
    [ (1, "Check for duplicate patient IDs");
      (2, "Check for missing patient demographics");
      (3, "Check for orphan encounters");
      (5, "Check for duplicate encounter IDs");
      (6, "Check for missing encounter dates");
      (7, "Check for orphan procedures in bridge");
      (9, "Check for duplicate procedure codes") ].

(** [_load_queries], in the order the dict yields its items. *)
Definition _load_queries : list (Z * string) :=
  [ (1, "SELECT patient_id, COUNT(*) FROM dim_patient GROUP BY patient_id HAVING COUNT(*) > 1;");
    (2, "SELECT patient_id, age_group, sex FROM dim_patient WHERE age_group IS NULL OR sex IS NULL;");
    (3, "SELECT f.encounter_id FROM fact_encounters f LEFT JOIN dim_patient dp ON f.patient_key = dp.patient_key WHERE dp.patient_key IS NULL;");
    (5, "SELECT encounter_id, COUNT(*) FROM fact_encounters GROUP BY encounter_id HAVING COUNT(*) > 1;");
    (6, "SELECT encounter_id FROM fact_encounters WHERE date_id IS NULL;");
    (7, "SELECT bp.encounter_key, bp.procedure_key FROM bridge_encounter_procedures bp LEFT JOIN dim_procedure dp ON bp.procedure_key = dp.procedure_key WHERE dp.procedure_key IS NULL;");
    (9, "SELECT procedure_code, COUNT(*) FROM dim_procedure GROUP BY procedure_code HAVING COUNT(*) > 1;") ].

(** The [output] field: a text, or one dict per returned row. *)
Inductive output_t :=
| Text (s : string)
| Evidence (rows : list (gmap string value)).

Record qa_result := {
  id : Z;
  description : string;
  status : string;
  output : output_t;
}.

(** [dict(zip(cols, r))]. *)
Definition row_dict (cols : list string) (r : list value) : gmap string value :=
  foldl (λ m cv, <[cv.1 := cv.2]> m) ∅ (zip cols r).

(** [QA_DESCRIPTIONS.get(idx, f"Query {idx}")]. *)
Definition describe (idx : Z) : string :=
  default ("Query " +:+ str_of_Z idx) (QA_DESCRIPTIONS !! idx).

(** The body of the loop for one predicate: the appended entry and the
    connection afterwards. *)
Definition check_predicate (server : string → answer) (c : connection)
    (q : Z * string) : qa_result * connection :=
  let '(idx, sql) := q in
  match execute server sql c with
  | (Rows cols rows, c') =>
      match rows with
      | [] => ({| id := idx; description := describe idx; status := "PASS";
                  output := Text "_No rows returned — OK_" |}, c')
      | _ => ({| id := idx; description := describe idx; status := "FAIL";
                 output := Evidence (row_dict cols <$> rows) |}, c')
      end
  | (Error msg, c') =>
      ({| id := idx; description := describe idx; status := "ERROR";
          output := Text msg |}, rollback c')
  end.

(** The loop of [run_all] over the queries, appending to [self.results]. *)
Definition run_queries (server : string → answer) (queries : list (Z * string))
    (results : list qa_result) (c : connection) : list qa_result * connection :=
  foldl (λ acc q,
           let '(res, c') := check_predicate server acc.2 q in
           (acc.1 ++ [res], c'))
        (results, c) queries.

(** [run_all] on a new [WarehouseQA] object. *)
Definition run_all (server : string → answer) : list qa_result * connection :=
  run_queries server _load_queries [] fresh_connection.

(** The entry the report must hold for one predicate, given the
    server's answer to its query. *)
Definition entry_for (server : string → answer) (q : Z * string) (r : qa_result)
  : Prop :=
  id r = q.1 ∧ description r = describe q.1 ∧
  match server q.2 with
  | Rows cols [] => status r = "PASS"
  | Rows cols rows => status r = "FAIL" ∧ output r = Evidence (row_dict cols <$> rows)
  | Error msg => status r = "ERROR" ∧ output r = Text msg
  end.

Definition failed (a : answer) : bool :=
  match a with
  | Error _ => true
  | Rows _ _ => false
  end.

End QA.

(** ** The quality queries on a warehouse

    What the server answers to the queries of [_load_queries] on the
    warehouse [w].  The columns the two [IS NULL] checks read are never
    [NULL] in the warehouse of this development. *)

Module QAServer.
Import PyStr Common Schema Warehouse QA.

(** [SELECT k, COUNT( * ) ... GROUP BY k HAVING COUNT( * ) > 1], one row
    per key, in order of first appearance. *)
Definition having_count_gt_1 {A} `{EqDecision A} (keys : list A) : list (A * Z) :=
  filter (λ kc, 1 < kc.2)
         ((λ k, (k, Z.of_nat (length (filter (λ k', k' = k) keys))))
            <$> drop_duplicates [] keys).

(** The predicate a query text belongs to. *)
Definition query_id (sql : string) : option Z :=
  fst <$> head (filter (λ q : Z * string, q.2 = sql) _load_queries).

Definition answer_of (w : warehouse) (sql : string) : answer :=
  match query_id sql with
  | Some 1 =>
      Rows ["patient_id"; "count"]
           ((λ kc, [VInt kc.1; VInt kc.2])
              <$> having_count_gt_1 (dp_patient_id <$> dim_patient w))
  | Some 2 => Rows ["patient_id"; "age_group"; "sex"] []
  | Some 3 =>
      Rows ["encounter_id"]
           ((λ f, [VInt (fe_encounter_id f)])
              <$> filter (λ f, fe_patient_key f ∉ patient_key <$> dim_patient w)
                         (fact_encounters w))
  | Some 5 =>
      Rows ["encounter_id"; "count"]
           ((λ kc, [VInt kc.1; VInt kc.2])
              <$> having_count_gt_1 (fe_encounter_id <$> fact_encounters w))
  | Some 6 => Rows ["encounter_id"] []
  | Some 7 =>
      Rows ["encounter_key"; "procedure_key"]
           ((λ b, [VInt (bp_encounter_key b); VInt (bp_procedure_key b)])
              <$> filter (λ b, bp_procedure_key b ∉ procedure_key <$> dim_procedure w)
                         (bridge_encounter_procedures w))
  | Some 9 =>
      Rows ["procedure_code"; "count"]
           ((λ kc, [VText kc.1; VInt kc.2])
              <$> having_count_gt_1 (dpr_procedure_code <$> dim_procedure w))
  | _ => Error "syntax error"
  end.

(** The verdicts of a report, by predicate. *)
Definition verdicts (results : list qa_result) : list (Z * string) :=
  (λ x, (id x, status x)) <$> results.

End QAServer.

(** ** Concrete stores and inputs *)

Module Examples.
Import PyStr Common Schema Loader Calendar Warehouse.

Definition mk_diagnosis (i c n g v : string) : diagnosis :=
  {| diagnosis_id := i; diagnosis_code := c; diagnosis_name := n;
     diagnosis_category := g; severity := v |}.

(** The diagnosis catalog of [generate_synthetic_data.py]. *)
Definition diagnoses_data : list diagnosis :=
  [
    mk_diagnosis "DIAG001" "J18.9" "Pneumonia" "Respiratory" "Moderate";
    mk_diagnosis "DIAG002" "J12.9" "Viral Pneumonia" "Respiratory" "Moderate";
    mk_diagnosis "DIAG003" "J44.0" "COPD with Acute Lower Respiratory Infection" "Respiratory" "Severe";
    mk_diagnosis "DIAG004" "J44.1" "COPD with Acute Exacerbation" "Respiratory" "Severe";
    mk_diagnosis "DIAG005" "J81.0" "Acute Pulmonary Edema" "Respiratory" "Severe";
    mk_diagnosis "DIAG006" "J93.0" "Spontaneous Tension Pneumothorax" "Respiratory" "Severe";
    mk_diagnosis "DIAG007" "J98.4" "Other Disorders of Lung" "Respiratory" "Mild";
    mk_diagnosis "DIAG008" "J20.9" "Acute Bronchitis" "Respiratory" "Mild";
    mk_diagnosis "DIAG009" "J45.9" "Asthma" "Respiratory" "Moderate";
    mk_diagnosis "DIAG010" "J84.9" "Interstitial Lung Disease" "Respiratory" "Severe";
    mk_diagnosis "DIAG011" "I50.9" "Heart Failure" "Cardiovascular" "Severe";
    mk_diagnosis "DIAG012" "I25.10" "Coronary Artery Disease" "Cardiovascular" "Severe";
    mk_diagnosis "DIAG013" "I21.9" "Acute Myocardial Infarction" "Cardiovascular" "Severe";
    mk_diagnosis "DIAG014" "I48.91" "Atrial Fibrillation" "Cardiovascular" "Moderate";
    mk_diagnosis "DIAG015" "I11.0" "Hypertensive Heart Disease" "Cardiovascular" "Moderate";
    mk_diagnosis "DIAG016" "I26.99" "Pulmonary Embolism" "Cardiovascular" "Severe";
    mk_diagnosis "DIAG017" "I10" "Essential Hypertension" "Cardiovascular" "Mild";
    mk_diagnosis "DIAG018" "A41.9" "Sepsis" "Infectious" "Severe";
    mk_diagnosis "DIAG019" "B99.9" "Infectious Disease" "Infectious" "Moderate";
    mk_diagnosis "DIAG020" "J22" "Viral Upper Respiratory Infection" "Infectious" "Mild";
    mk_diagnosis "DIAG021" "S22.9" "Rib Fracture" "Trauma" "Moderate";
    mk_diagnosis "DIAG022" "S32.9" "Spinal Fracture" "Trauma" "Severe";
    mk_diagnosis "DIAG023" "S42.9" "Shoulder Fracture" "Trauma" "Moderate";
    mk_diagnosis "DIAG024" "S72.9" "Femur Fracture" "Trauma" "Severe";
    mk_diagnosis "DIAG025" "S06.9" "Traumatic Brain Injury" "Trauma" "Severe";
    mk_diagnosis "DIAG026" "C34.90" "Lung Cancer" "Oncology" "Severe";
    mk_diagnosis "DIAG027" "C50.9" "Breast Cancer" "Oncology" "Severe";
    mk_diagnosis "DIAG028" "D49.2" "Neoplasm of Uncertain Behavior" "Oncology" "Moderate";
    mk_diagnosis "DIAG029" "R91.8" "Abnormal Lung Finding" "Radiology" "Mild";
    mk_diagnosis "DIAG030" "R07.9" "Chest Pain" "Symptom" "Mild";
    mk_diagnosis "DIAG031" "R05" "Cough" "Symptom" "Mild";
    mk_diagnosis "DIAG032" "R06.02" "Shortness of Breath" "Symptom" "Moderate";
    mk_diagnosis "DIAG033" "J96.90" "Respiratory Failure" "Respiratory" "Severe";
    mk_diagnosis "DIAG034" "J47.9" "Bronchiectasis" "Respiratory" "Moderate";
    mk_diagnosis "DIAG035" "J43.9" "Emphysema" "Respiratory" "Severe";
    mk_diagnosis "DIAG036" "J85.2" "Lung Abscess" "Infectious" "Severe";
    mk_diagnosis "DIAG037" "J94.8" "Pleural Effusion" "Respiratory" "Moderate";
    mk_diagnosis "DIAG038" "M79.3" "Chest Wall Pain" "Musculoskeletal" "Mild";
    mk_diagnosis "DIAG039" "E11.9" "Type 2 Diabetes" "Endocrine" "Moderate";
    mk_diagnosis "DIAG040" "E66.9" "Obesity" "Endocrine" "Mild";
    mk_diagnosis "DIAG041" "N18.9" "Chronic Kidney Disease" "Renal" "Severe";
    mk_diagnosis "DIAG042" "K21.9" "GERD" "Gastrointestinal" "Mild";
    mk_diagnosis "DIAG043" "F41.9" "Anxiety Disorder" "Mental Health" "Mild";
    mk_diagnosis "DIAG044" "G47.33" "Sleep Apnea" "Neurological" "Moderate";
    mk_diagnosis "DIAG045" "Z87.891" "History of Tobacco Use" "Social History" "Mild";
    mk_diagnosis "DIAG046" "Z20.828" "COVID-19 Contact" "Infectious" "Mild";
    mk_diagnosis "DIAG047" "U07.1" "COVID-19" "Infectious" "Moderate";
    mk_diagnosis "DIAG048" "J80" "ARDS" "Respiratory" "Severe";
    mk_diagnosis "DIAG049" "T78.2" "Anaphylaxis" "Allergy" "Severe";
    mk_diagnosis "DIAG050" "J18.1" "Lobar Pneumonia" "Respiratory" "Moderate" ].

Definition mk_row (image pid : string) (age : Z) (labels : string) : nih_row :=
  {| row_image_index := image; row_patient_id := pid; row_patient_age := age;
     row_patient_gender := "M"; row_view_position := "PA";
     row_finding_labels := labels;
     row_report_type := "Radiology"; row_report_status := "Final" |}.

(** A clock and generator draws: 2024-01-01 05:00, and draws that follow
    the row position. *)
Definition env0 : environment :=
  {| now_hours := 738886 * 24 + 5;
     rand_days := λ i, Z.of_nat i * 7;
     rand_hours := λ i, 3;
     rand_facility := λ _ i, i;
     rand_encounter_type := λ _ i, i |}.

(** A store with the catalog, one hospital and one synthetic patient. *)
Definition db0 : opdb :=
  {| patients := [ {| patient_id := "PAT0000001"; date_of_birth := 725000;
                      gender := "F"; contact_email := "a@example.org" |} ];
     facilities := [ {| facility_id := "FAC000001"; facility_type := "Hospital" |} ];
     diagnoses := diagnoses_data;
     encounters := []; procedures := []; encounter_diagnoses := []; reports := [];
     procedure_id_seq := 1; report_id_seq := 1 |}.

(** Two studies of external patient 1, taken at ages 58 and 59. *)
Definition df0 : list nih_row :=
  [ mk_row "00000001_000.png" "1" 58 "Atelectasis|Effusion";
    mk_row "00000001_001.png" "1" 59 "Effusion" ].

(** [df0] after [transform], as one batch. *)
Definition batch0 : list trow := imap (transform_row env0) df0.

(** A store whose last patient id is the last one of 7 digits, and two
    batches of one new external patient each. *)
Definition db_last7 : opdb :=
  {| patients := [ {| patient_id := "PAT9999999"; date_of_birth := 725000;
                      gender := "F"; contact_email := "b@example.org" |} ];
     facilities := [ {| facility_id := "FAC000001"; facility_type := "Hospital" |} ];
     diagnoses := diagnoses_data;
     encounters := []; procedures := []; encounter_diagnoses := []; reports := [];
     procedure_id_seq := 1; report_id_seq := 1 |}.

Definition batch_a : list trow :=
  [ transform_row env0 0 (mk_row "00000002_000.png" "2" 40 "Mass") ].

Definition batch_b : list trow :=
  [ transform_row env0 0 (mk_row "00000003_000.png" "3" 41 "Nodule") ].

(** The scenario of the specification: patients A and B, encounters of
    A on 2024-01-01 and 2024-01-03 and of B on 2024-01-02, each with one
    procedure and one primary diagnosis; and a third patient C without
    encounters. *)
Definition db_scenario : opdb :=
  {| patients :=
       [ {| patient_id := "PAT0000001"; date_of_birth := ymd2ord 1980 5 17;
            gender := "F"; contact_email := "a@example.org" |};
         {| patient_id := "PAT0000002"; date_of_birth := ymd2ord 2010 2 1;
            gender := "M"; contact_email := "b@example.org" |};
         {| patient_id := "PAT0000003"; date_of_birth := ymd2ord 1999 9 9;
            gender := "F"; contact_email := "c@example.org" |} ];
     facilities := [ {| facility_id := "FAC000001"; facility_type := "Hospital" |} ];
     diagnoses := diagnoses_data;
     encounters :=
       [ {| encounter_id := "ENC00000001"; enc_patient_id := "PAT0000001";
            enc_facility_id := "FAC000001"; encounter_date := ymd2ord 2024 1 1;
            encounter_type := "Outpatient" |};
         {| encounter_id := "ENC00000002"; enc_patient_id := "PAT0000001";
            enc_facility_id := "FAC000001"; encounter_date := ymd2ord 2024 1 3;
            encounter_type := "Inpatient" |};
         {| encounter_id := "ENC00000003"; enc_patient_id := "PAT0000002";
            enc_facility_id := "FAC000001"; encounter_date := ymd2ord 2024 1 2;
            encounter_type := "Emergency" |} ];
     procedures :=
       [ {| procedure_id := 1; proc_encounter_id := "ENC00000001";
            procedure_code := "CPT70001"; procedure_name := "X-Ray Chest";
            modality := "X-Ray"; view_position := "PA"; body_part := "Chest" |};
         {| procedure_id := 2; proc_encounter_id := "ENC00000002";
            procedure_code := "CPT70002"; procedure_name := "CT Chest";
            modality := "CT"; view_position := "AP"; body_part := "Chest" |};
         {| procedure_id := 3; proc_encounter_id := "ENC00000003";
            procedure_code := "CPT70003"; procedure_name := "X-Ray Chest";
            modality := "X-Ray"; view_position := "PA"; body_part := "Chest" |} ];
     encounter_diagnoses :=
       [ {| ed_encounter_id := "ENC00000001"; ed_diagnosis_id := "DIAG001";
            diagnosis_rank := 1; is_primary := true |};
         {| ed_encounter_id := "ENC00000002"; ed_diagnosis_id := "DIAG037";
            diagnosis_rank := 1; is_primary := true |};
         {| ed_encounter_id := "ENC00000003"; ed_diagnosis_id := "DIAG029";
            diagnosis_rank := 1; is_primary := true |} ];
     reports := [];
     procedure_id_seq := 4; report_id_seq := 1 |}.

(** A store without encounters. *)
Definition db_no_encounters : opdb := db0.

(** A store whose only encounter is dated 9999-12-31. *)
Definition db_last_day : opdb :=
  {| patients := patients db0; facilities := facilities db0;
     diagnoses := diagnoses db0;
     encounters :=
       [ {| encounter_id := "ENC00000001"; enc_patient_id := "PAT0000001";
            enc_facility_id := "FAC000001"; encounter_date := MAXORDINAL;
            encounter_type := "Outpatient" |} ];
     procedures := []; encounter_diagnoses := []; reports := [];
     procedure_id_seq := 1; report_id_seq := 1 |}.

(** A warehouse before its first population. *)
Definition w_new : warehouse :=
  {| dim_time := []; dim_patient := []; dim_procedure := []; dim_diagnosis := [];
     fact_encounters := []; bridge_encounter_procedures := [];
     bridge_encounter_diagnoses := [];
     patient_key_seq := 1; procedure_key_seq := 1; diagnosis_key_seq := 1;
     encounter_key_seq := 1 |}.


(** A store holding a synthetic encounter and a loaded one whose ids
    carry the same digits. *)
Definition db_same_digits : opdb :=
  {| patients := patients db0; facilities := facilities db0;
     diagnoses := diagnoses db0;
     encounters :=
       [ {| encounter_id := "ENC00001000"; enc_patient_id := "PAT0000001";
            enc_facility_id := "FAC000001"; encounter_date := ymd2ord 2024 1 1;
            encounter_type := "Outpatient" |};
         {| encounter_id := "NIH_00000001_000_ENC"; enc_patient_id := "PAT0000001";
            enc_facility_id := "FAC000001"; encounter_date := ymd2ord 2024 1 2;
            encounter_type := "Inpatient" |} ];
     procedures := []; encounter_diagnoses := []; reports := [];
     procedure_id_seq := 1; report_id_seq := 1 |}.

(** The result of a run on the scenario, from a new warehouse. *)
Definition scenario_run : run_result :=
  match run db_scenario w_new with
  | Some r => r
  | None => {| outcome := Raise OverflowError; committed := w_new;
               counters := init_wstats |}
  end.

(** A store in which external patient 1 was created by an earlier
    run. *)
Definition db_with_nih1 : opdb :=
  {| patients :=
       patients db0 ++
       [ {| patient_id := "PAT0005001"; date_of_birth := 717830;
            gender := "M"; contact_email := "nih_patient_1@external.com" |} ];
     facilities := facilities db0; diagnoses := diagnoses db0;
     encounters := []; procedures := []; encounter_diagnoses := []; reports := [];
     procedure_id_seq := 1; report_id_seq := 1 |}.

(** The state of the creation loop for external patients 1 and 9 on
    that store. *)
Definition creation_1_9 : creation :=
  match create_patients env0 db_with_nih1 [("1", 58, "M"); ("9", 41, "M")] with
  | Ok c => c
  | Raise _ => {| last_id := 0; new_patients := []; patient_map := ∅; created := 0 |}
  end.

(** A store whose only facility is a clinic. *)
Definition db_no_hospital : opdb :=
  {| patients := patients db0;
     facilities := [ {| facility_id := "FAC000002"; facility_type := "Clinic" |} ];
     diagnoses := diagnoses db0;
     encounters := []; procedures := []; encounter_diagnoses := []; reports := [];
     procedure_id_seq := 1; report_id_seq := 1 |}.

End Examples.

(** * Properties *)

(** ** List facts used throughout *)

Module ListFacts.

Lemma filter_all {A} (P : A → Prop) `{∀ x, Decision (P x)} (l : list A) :
  Forall P l → filter P l = l.
Proof.
  induction 1 as [|x l Hx Hl IH]; [done|].
  rewrite filter_cons_True by done. by rewrite IH.
Qed.

Lemma filter_none {A} (P : A → Prop) `{∀ x, Decision (P x)} (l : list A) :
  Forall (λ x, ¬ P x) l → filter P l = [].
Proof.
  induction 1 as [|x l Hx Hl IH]; [done|].
  rewrite filter_cons_False by done. done.
Qed.


End ListFacts.


(** ** Digit strings *)

Module StrFacts.
Import PyStr.

Lemma is_digit_val c : is_digit c = true → 0 ≤ digit_val c ≤ 9.
Proof.
  unfold is_digit, digit_val. intros H. apply andb_true_iff in H as [H1 H2].
  apply N.leb_le in H1, H2. lia.
Qed.

Lemma digit_val_inj c1 c2 :
  digit_val c1 = digit_val c2 → c1 = c2.
Proof.
  unfold digit_val. intros H.
  rewrite <- (ascii_N_embedding c1), <- (ascii_N_embedding c2). f_equal. lia.
Qed.

Lemma digits_value_acc s : ∀ acc,
  digits_value acc s = acc * 10 ^ Z.of_nat (String.length s) + digits_value 0 s.
Proof.
  induction s as [|c s IH]; intros acc; simpl String.length; simpl digits_value.
  - simpl. lia.
  - rewrite (IH (10 * acc + digit_val c)), (IH (10 * 0 + digit_val c)).
    rewrite Nat2Z.inj_succ, Z.pow_succ_r by lia. ring.
Qed.

Lemma digits_value_bound s :
  all_digits s = true → 0 ≤ digits_value 0 s < 10 ^ Z.of_nat (String.length s).
Proof.
  induction s as [|c s IH]; simpl all_digits; simpl String.length; intros H.
  - simpl. lia.
  - apply andb_true_iff in H as [Hc Hs]. apply is_digit_val in Hc.
    specialize (IH Hs). simpl digits_value. rewrite digits_value_acc.
    rewrite Nat2Z.inj_succ, Z.pow_succ_r by lia. nia.
Qed.

(** Digit strings of one width denote distinct numbers. *)
Lemma digits_value_inj a : ∀ b,
  all_digits a = true → all_digits b = true →
  String.length a = String.length b →
  digits_value 0 a = digits_value 0 b → a = b.
Proof.
  induction a as [|x a IH]; intros [|y b] Ha Hb Hl Hv; simpl in Hl; try discriminate.
  - reflexivity.
  - simpl in Ha, Hb. apply andb_true_iff in Ha as [Hx Ha], Hb as [Hy Hb].
    injection Hl as Hl. simpl in Hv.
    rewrite (digits_value_acc a), (digits_value_acc b) in Hv.
    pose proof (digits_value_bound a Ha). pose proof (digits_value_bound b Hb).
    apply is_digit_val in Hx, Hy. rewrite <- Hl in *.
    assert (digit_val x = digit_val y) by nia.
    assert (digits_value 0 a = digits_value 0 b) by nia.
    f_equal; [by apply digit_val_inj | by apply IH].
Qed.

(** On digit strings of one width the code-point order is the numeric
    order. *)
Lemma str_leb_digits a : ∀ b,
  all_digits a = true → all_digits b = true →
  String.length a = String.length b →
  str_leb a b = true → digits_value 0 a ≤ digits_value 0 b.
Proof.
  induction a as [|x a IH]; intros [|y b] Ha Hb Hl Hle; simpl in Hl;
    try (simpl; lia); try discriminate Hl.
  simpl in Ha, Hb. apply andb_true_iff in Ha as [Hx Ha], Hb as [Hy Hb].
    injection Hl as Hl. simpl digits_value.
    rewrite (digits_value_acc a), (digits_value_acc b).
    pose proof (digits_value_bound a Ha). pose proof (digits_value_bound b Hb).
    pose proof (is_digit_val _ Hx). pose proof (is_digit_val _ Hy).
    rewrite <- Hl in *. simpl in Hle.
    set (P := 10 ^ Z.of_nat (String.length a)) in *.
    destruct (N_of_ascii x <? N_of_ascii y)%N eqn:E1.
    { apply N.ltb_lt in E1.
      assert ((digit_val x + 1) * P ≤ digit_val y * P)
        by (apply Z.mul_le_mono_nonneg_r; unfold digit_val; lia).
      lia. }
    destruct (N_of_ascii y <? N_of_ascii x)%N eqn:E2; [discriminate|].
    apply N.ltb_ge in E1, E2. specialize (IH b Ha Hb Hl Hle).
    assert (digit_val x = digit_val y) as -> by (unfold digit_val; lia). lia.
Qed.

Lemma strip_nondigits_app a b :
  strip_nondigits (a +:+ b) = strip_nondigits a +:+ strip_nondigits b.
Proof.
  induction a as [|c a IH]; simpl; [done|].
  destruct (is_digit c); simpl; by rewrite IH.
Qed.

Lemma strip_nondigits_none s : no_digits s = true → strip_nondigits s = "".
Proof.
  induction s as [|c s IH]; simpl; [done|]. intros H.
  apply andb_true_iff in H as [Hc Hs]. apply negb_true_iff in Hc. rewrite Hc. auto.
Qed.

Lemma strip_nondigits_all s : all_digits s = true → strip_nondigits s = s.
Proof.
  induction s as [|c s IH]; simpl; [done|]. intros H.
  apply andb_true_iff in H as [Hc Hs]. rewrite Hc. by rewrite IH.
Qed.

Lemma app_empty_r (s : string) : s +:+ "" = s.
Proof.
  induction s as [|c s IH]; [done|].
  change (String c s +:+ "") with (String c (s +:+ "")). by rewrite IH.
Qed.

Lemma app_inv_head (p a b : string) : p +:+ a = p +:+ b → a = b.
Proof.
  induction p as [|c p IH]; [done|]. intros H.
  change (String c (p +:+ a) = String c (p +:+ b)) in H. injection H. auto.
Qed.

(** The digits of a key [prefix ++ digits ++ suffix]. *)
Lemma strip_nondigits_shape p d q :
  no_digits p = true → all_digits d = true → no_digits q = true →
  strip_nondigits (p +:+ d +:+ q) = d.
Proof.
  intros Hp Hd Hq. rewrite !strip_nondigits_app.
  rewrite (strip_nondigits_none p Hp), (strip_nondigits_none q Hq),
    (strip_nondigits_all d Hd).
  change ("" +:+ (d +:+ "")) with (d +:+ ""). apply app_empty_r.
Qed.

(** *** [str], [zfill] and [int] on natural numbers *)

Lemma digit_char_spec k :
  0 ≤ k ≤ 9 → is_digit (digit_char k) = true ∧ digit_val (digit_char k) = k.
Proof.
  intros Hk. unfold is_digit, digit_val, digit_char.
  rewrite N_ascii_embedding by lia.
  split; [apply andb_true_iff; split; apply N.leb_le; lia | lia].
Qed.

Lemma str_of_Z_aux_spec fuel : ∀ n acc,
  0 ≤ n < 2 ^ Z.of_nat fuel →
  digits_value 0 (str_of_Z_aux fuel n acc) = digits_value n acc
  ∧ (all_digits acc = true → all_digits (str_of_Z_aux fuel n acc) = true).
Proof.
  induction fuel as [|fuel IH]; intros n acc Hn.
  - simpl in *. assert (n = 0) as -> by lia. auto.
  - simpl str_of_Z_aux.
    assert (Hm : 0 ≤ n `mod` 10 ≤ 9) by (pose proof (Z.mod_pos_bound n 10); lia).
    destruct (digit_char_spec _ Hm) as [Hd Hv].
    pose proof (Z.div_mod n 10 ltac:(lia)) as Hdm.
    destruct (n `div` 10 =? 0) eqn:E.
    + apply Z.eqb_eq in E. simpl. rewrite Hv, Hd. split; [f_equal; lia | auto].
    + assert (Hq : 0 ≤ n `div` 10 < 2 ^ Z.of_nat fuel).
      { rewrite Nat2Z.inj_succ, Z.pow_succ_r in Hn by lia.
        split; [apply Z.div_pos; lia|].
        apply Z.div_lt_upper_bound; lia. }
      destruct (IH (n `div` 10) (String (digit_char (n `mod` 10)) acc) Hq) as [H1 H2].
      split.
      * rewrite H1. simpl. rewrite Hv. f_equal. lia.
      * intros Ha. apply H2. simpl. by rewrite Hd, Ha.
Qed.

Lemma str_of_Z_aux_nonempty fuel n acc :
  str_of_Z_aux (S fuel) n acc ≠ "".
Proof.
  revert n acc. induction fuel as [|fuel IH]; intros n acc; simpl.
  - destruct (n `div` 10 =? 0); discriminate.
  - destruct (n `div` 10 =? 0); [discriminate|]. apply IH.
Qed.

Lemma str_of_Z_nonneg n :
  0 ≤ n →
  all_digits (str_of_Z n) = true ∧ digits_value 0 (str_of_Z n) = n
  ∧ str_of_Z n ≠ "".
Proof.
  intros Hn. unfold str_of_Z.
  destruct (n <? 0) eqn:E; [apply Z.ltb_lt in E; lia|].
  assert (Hb : 0 ≤ n < 2 ^ Z.of_nat (S (Z.to_nat (Z.log2 n)))).
  { rewrite Nat2Z.inj_succ, Z2Nat.id by apply Z.log2_nonneg.
    destruct (Z.eq_dec n 0) as [->|Hz]; [simpl; lia|].
    pose proof (Z.log2_spec n ltac:(lia)). lia. }
  destruct (str_of_Z_aux_spec _ n "" Hb) as [H1 H2].
  split; [auto|]. split; [exact H1|]. apply str_of_Z_aux_nonempty.
Qed.

Lemma zeros_digits k : all_digits (zeros k) = true.
Proof. induction k; simpl; auto. Qed.

Lemma all_digits_app a b :
  all_digits (a +:+ b) = all_digits a && all_digits b.
Proof.
  induction a as [|c a IH]; [done|].
  change (String c a +:+ b) with (String c (a +:+ b)). simpl.
  rewrite IH. by rewrite andb_assoc.
Qed.

Lemma digits_value_zeros k s : ∀ acc,
  digits_value acc (zeros k +:+ s) = digits_value (acc * 10 ^ Z.of_nat k) s.
Proof.
  induction k as [|k IH]; intros acc.
  - simpl. f_equal. lia.
  - change (zeros (S k) +:+ s) with (String "0" (zeros k +:+ s)).
    simpl digits_value. rewrite IH. f_equal.
    rewrite Nat2Z.inj_succ, Z.pow_succ_r by lia.
    change (digit_val "0") with 0. ring.
Qed.

Lemma is_digit_not_sign c :
  is_digit c = true → Ascii.eqb c "-" = false ∧ Ascii.eqb c "+" = false.
Proof.
  intros H. split; apply Ascii.eqb_neq; intros ->; discriminate.
Qed.

Lemma is_digit_not_space c : is_digit c = true → is_space c = false.
Proof.
  unfold is_digit, is_space. intros H. apply andb_true_iff in H as [H1 H2].
  apply N.leb_le in H1, H2. apply orb_false_iff.
  split; apply andb_false_iff; right; apply N.leb_gt; lia.
Qed.

(** [zfill] of a digit string: zeros in front, same number. *)
Lemma zfill_digits w s :
  all_digits s = true → s ≠ "" →
  zfill w s = zeros (w - String.length s) +:+ s
  ∧ all_digits (zfill w s) = true
  ∧ digits_value 0 (zfill w s) = digits_value 0 s.
Proof.
  intros Hs Hne. destruct s as [|c r]; [done|].
  assert (Hc : is_digit c = true) by (simpl in Hs; by apply andb_true_iff in Hs as [? _]).
  destruct (is_digit_not_sign c Hc) as [E1 E2].
  unfold zfill. rewrite E1, E2. simpl orb. cbv iota.
  split; [done|]. split.
  - rewrite all_digits_app, zeros_digits. exact Hs.
  - rewrite digits_value_zeros. f_equal.
Qed.

Lemma rstrip_digits s : all_digits s = true → rstrip s = s.
Proof.
  induction s as [|c s IH]; [done|]. simpl. intros H.
  apply andb_true_iff in H as [Hc Hs]. rewrite (IH Hs).
  destruct s; [by rewrite (is_digit_not_space c Hc)|done].
Qed.

Lemma strip_digits s : all_digits s = true → strip s = s.
Proof.
  intros H. unfold strip. destruct s as [|c s]; [done|].
  assert (Hc : is_digit c = true) by (simpl in H; by apply andb_true_iff in H as [? _]).
  simpl lstrip. rewrite (is_digit_not_space c Hc). by apply rstrip_digits.
Qed.

(** [int()] reads a digit string as its number. *)
Lemma py_int_digits s :
  all_digits s = true → s ≠ "" → py_int s = Some (digits_value 0 s).
Proof.
  intros H Hne. unfold py_int. rewrite (strip_digits s H).
  destruct s as [|c s]; [done|].
  assert (Hc : is_digit c = true) by (simpl in H; by apply andb_true_iff in H as [? _]).
  destruct (is_digit_not_sign c Hc) as [E1 E2]. rewrite E1, E2, H. done.
Qed.

Lemma remove_PAT_digits s : all_digits s = true → remove_PAT s = s.
Proof.
  induction s as [|c s IH]; [done|]. intros H. simpl in H.
  apply andb_true_iff in H as [Hc Hs].
  assert (c ≠ "P"%char) by (intros ->; discriminate).
  simpl. rewrite (IH Hs).
  destruct c as [[] [] [] [] [] [] [] []]; try done.
Qed.

Lemma str_leb_total a : ∀ b, str_leb a b = false → str_leb b a = true.
Proof.
  induction a as [|x a IH]; intros [|y b]; simpl; try done.
  destruct (N_of_ascii x <? N_of_ascii y)%N eqn:E1; [done|].
  destruct (N_of_ascii y <? N_of_ascii x)%N eqn:E2; [done|]. apply IH.
Qed.

End StrFacts.

(** ** Facts about the result monad and row sets *)

Module CommonFacts.
Import Common.

Lemma bind_Ok {A B} (m : result A) (f : A → result B) (b : B) :
  m ≫= f = Ok b → ∃ a, m = Ok a ∧ f a = Ok b.
Proof. destruct m as [a|e]; simpl; [eauto|discriminate]. Qed.

(** A successful [mapM] has applied the function to every element. *)
Lemma mapM_Ok {A B} (f : A → result B) (l : list A) : ∀ rows,
  mapM f l = Ok rows → Forall2 (λ x y, f x = Ok y) l rows.
Proof.
  induction l as [|x l IH]; intros rows H; simpl in H.
  - injection H as <-. constructor.
  - apply bind_Ok in H as (y & Hy & H). apply bind_Ok in H as (k & Hk & H).
    injection H as <-. constructor; auto.
Qed.

Lemma mapM_Ok_elem {A B} (f : A → result B) (l : list A) rows y :
  mapM f l = Ok rows → y ∈ rows → ∃ x, x ∈ l ∧ f x = Ok y.
Proof.
  intros H Hy. apply mapM_Ok in H.
  induction H as [|x z l rows Hx H IH]; [by apply elem_of_nil in Hy|].
  apply elem_of_cons in Hy as [->|Hy].
  - exists x. split; [apply list_elem_of_here|done].
  - destruct (IH Hy) as (x' & Hin & Hf). exists x'.
    split; [by apply list_elem_of_further|done].
Qed.

Lemma mapM_Ok_elem_l {A B} (f : A → result B) (l : list A) rows x :
  mapM f l = Ok rows → x ∈ l → ∃ y, y ∈ rows ∧ f x = Ok y.
Proof.
  intros H Hx. apply mapM_Ok in H.
  induction H as [|x' z l rows Hx' H IH]; [by apply elem_of_nil in Hx|].
  apply elem_of_cons in Hx as [->|Hx].
  - exists z. split; [apply list_elem_of_here|done].
  - destruct (IH Hx) as (y & Hin & Hf). exists y.
    split; [by apply list_elem_of_further|done].
Qed.

Lemma drop_duplicates_elem {A} `{EqDecision A} (l : list A) : ∀ seen x,
  x ∈ drop_duplicates seen l ↔ x ∈ l ∧ x ∉ seen.
Proof.
  induction l as [|y l IH]; intros seen x; simpl.
  - rewrite elem_of_nil. tauto.
  - destruct (decide (y ∈ seen)) as [Hy|Hy].
    + rewrite IH, elem_of_cons. split; [tauto|].
      intros [[->|H] Hn]; [done|tauto].
    + rewrite elem_of_cons, IH, !elem_of_cons. split.
      * intros [->|[H1 H2]]; [tauto|]. split; [tauto|]. tauto.
      * intros [[->|H1] H2]; [tauto|].
        destruct (decide (x = y)) as [->|Hne]; [tauto|]. right. tauto.
Qed.

Lemma drop_duplicates_elem_nil {A} `{EqDecision A} (l : list A) x :
  x ∈ drop_duplicates [] l ↔ x ∈ l.
Proof. rewrite drop_duplicates_elem. rewrite elem_of_nil. tauto. Qed.

(** An invariant of a left fold. *)
Lemma foldl_invariant {A B} (P : A → Prop) (f : A → B → A) (l : list B) :
  (∀ a b, b ∈ l → P a → P (f a b)) → ∀ a, P a → P (foldl f a l).
Proof.
  induction l as [|b l IH]; intros Hstep a Ha; simpl; [done|].
  apply IH.
  - intros a' b' Hb'. apply Hstep. by apply list_elem_of_further.
  - apply Hstep; [apply list_elem_of_here|done].
Qed.

Lemma elem_of_concat {A} (x : A) (ls : list (list A)) :
  x ∈ concat ls ↔ ∃ l, x ∈ l ∧ l ∈ ls.
Proof.
  induction ls as [|l ls IH]; simpl.
  - rewrite elem_of_nil. split; [done|]. intros (l & _ & H). by apply elem_of_nil in H.
  - rewrite elem_of_app, IH. split.
    + intros [H|(l' & H1 & H2)].
      * exists l. split; [done|apply list_elem_of_here].
      * exists l'. split; [done|by apply list_elem_of_further].
    + intros (l' & H1 & H2). apply elem_of_cons in H2 as [->|H2]; [by left|].
      right. eauto.
Qed.

End CommonFacts.

Module LoaderProofs.
Import PyStr Common Schema Loader.

Lemma imap_src (env : environment) (l : list nih_row) :
  src <$> imap (transform_row env) l = l.
Proof.
  assert (G : ∀ (f : nat → nih_row → trow), (∀ i x, src (f i x) = x) →
                src <$> imap f l = l).
  { induction l as [|x l IH]; intros f Hf; simpl; [done|].
    rewrite Hf. f_equal. apply IH. intros i y. apply Hf. }
  apply G. done.
Qed.

Lemma imap_codes (env : environment) (l : list nih_row) :
  Forall (λ t, nih_procedure_code t = derived_key (src t)) (imap (transform_row env) l).
Proof.
  assert (G : ∀ (f : nat → nih_row → trow),
             (∀ i x, nih_procedure_code (f i x) = derived_key (src (f i x))) →
             Forall (λ t, nih_procedure_code t = derived_key (src t)) (imap f l)).
  { induction l as [|x l IH]; intros f Hf; simpl; constructor; [apply Hf|].
    apply IH. intros i y. apply Hf. }
  apply G. done.
Qed.

(** C6.  On a new pipeline with the incremental filter on, [transform]
    returns exactly the candidates whose derived key ['NIH_' + image index
    without '.png'] is not among the procedure codes already stored, in
    order; the skipped count is the input size minus the output size; the
    database is left as it was; and with no stored key every candidate
    passes and the skipped count is zero. *)
Theorem transform_is_set_difference (env : environment) (d : opdb) (df : list nih_row) :
  let existing := get_existing_image_indices d in
  let out := transform env df (NIH_ETL_Pipeline true d) in
  src <$> frame out.1 = filter (λ r, derived_key r ∉ existing) df
  ∧ Forall (λ t, nih_procedure_code t = derived_key (src t)) (frame out.1)
  ∧ records_skipped (stats out.2) = (length df - length (frame out.1))%nat
  ∧ db out.2 = d
  ∧ (existing = ∅ →
     src <$> frame out.1 = df ∧ records_skipped (stats out.2) = 0%nat).
Proof.
  intros existing out. subst out. unfold transform. simpl incremental. simpl db.
  fold existing. cbv beta iota. simpl andb.
  destruct (decide (existing = ∅)) as [He|He].
  - rewrite (bool_decide_eq_true_2 _ He). simpl negb. cbv iota.
    rewrite (ListFacts.filter_all (λ r, derived_key r ∉ existing))
      by (apply Forall_forall; intros r _; rewrite He; set_solver).
    case_bool_decide as Hl; simpl.
    + apply length_zero_iff_nil in Hl. subst df. simpl. repeat split; auto.
    + rewrite imap_src, length_imap. repeat split; auto using imap_codes. lia.
  - rewrite (bool_decide_eq_false_2 _ He). simpl negb. cbv iota.
    case_bool_decide as Hl; simpl.
    + apply length_zero_iff_nil in Hl. rewrite Hl. simpl.
      repeat split; auto; try lia; contradiction.
    + rewrite imap_src, length_imap.
      repeat split; auto using imap_codes; contradiction.
Qed.
End LoaderProofs.

Module QAProofs.
Import PyStr QA.

Lemma check_predicate_spec server c q :
  aborted c = false →
  let rc := check_predicate server c q in
  entry_for server q rc.1 ∧ aborted rc.2 = false ∧
  rollbacks rc.2 = (rollbacks c + (if failed (server q.2) then 1 else 0))%nat.
Proof.
  intros Hc. destruct q as [idx sql]. unfold check_predicate, execute, entry_for.
  rewrite Hc. simpl. destruct (server sql) as [cols [|r rows]|msg]; simpl;
    repeat split; auto; lia.
Qed.

Lemma run_queries_spec server queries : ∀ results c,
  aborted c = false →
  let out := run_queries server queries results c in
  ∃ new, out.1 = results ++ new ∧ Forall2 (entry_for server) queries new
         ∧ aborted out.2 = false
         ∧ rollbacks out.2 =
             (rollbacks c
              + length (filter (λ q : Z * string, failed (server q.2) = true) queries))%nat.
Proof.
  induction queries as [|q qs IH]; intros results c Hc; simpl.
  - exists []. rewrite app_nil_r. repeat split; auto. 
  - pose proof (check_predicate_spec server c q Hc) as (He & Ha & Hr).
    destruct (check_predicate server c q) as [res c'] eqn:E. simpl in *.
    destruct (IH (results ++ [res]) c' Ha) as (new & H1 & H2 & H3 & H4).
    exists (res :: new). unfold run_queries in *. simpl. rewrite E.
    rewrite H1, <- app_assoc. simpl. repeat split; auto.
    rewrite H4, Hr. rewrite filter_cons.
    destruct (server q.2) as [cols rows|msg]; destruct (decide _) as [Hm|Hn];
      simpl in *; try discriminate; try lia; done.
Qed.

(** C8.  Whatever the server answers, [run_all] appends exactly one
    entry per predicate, in order, carrying the predicate's id and
    description; the entry is PASS when the query returns no row, FAIL with
    one evidence dict per returned row when it returns rows, and ERROR with
    the message when the query fails; every failure is followed by a
    rollback, so the connection is never left in a failed transaction and
    each predicate is judged on the answer to its own query.  The same
    holds for any list of predicates. *)
Theorem run_all_one_entry_per_predicate (server : string → answer) :
  (∀ queries,
     let out := run_queries server queries [] fresh_connection in
     Forall2 (entry_for server) queries out.1
     ∧ aborted out.2 = false
     ∧ rollbacks out.2
       = length (filter (λ q : Z * string, failed (server q.2) = true) queries))
  ∧ Forall2 (entry_for server) _load_queries (run_all server).1
  ∧ length (run_all server).1 = 7%nat.
Proof.
  assert (G : ∀ queries,
     let out := run_queries server queries [] fresh_connection in
     Forall2 (entry_for server) queries out.1
     ∧ aborted out.2 = false
     ∧ rollbacks out.2
       = length (filter (λ q : Z * string, failed (server q.2) = true) queries)).
  { intros queries out.
    destruct (run_queries_spec server queries [] fresh_connection eq_refl)
      as (new & H1 & H2 & H3 & H4).
    subst out. rewrite H1. simpl. repeat split; auto. }
  split; [exact G|]. destruct (G _load_queries) as (H & _ & _).
  split; [exact H|]. apply Forall2_length in H. unfold run_all. rewrite <- H. done.
Qed.

End QAProofs.

Module DiagnosisProofs.
Import PyStr Common Schema Loader Examples.





End DiagnosisProofs.

(** ** Key mapping *)

Module KeyProofs.
Import PyStr Common Schema Warehouse Examples.

Lemma cast_integer_value s n : cast_integer s = Ok n → digits_value 0 s = n.
Proof.
  unfold cast_integer. destruct (decide (s = "")); [discriminate|].
  destruct (2147483647 <? digits_value 0 s); [discriminate|]. congruence.
Qed.

(** C3, as the code has it.  Natural keys of one shape, a digit-free
    prefix, then digits of one fixed width, then a digit-free suffix
    (PAT + 7 digits, ENC + 8 digits, FAC + 6 digits), map to distinct
    integers: two such keys with the same derived integer are the same
    key. *)
Theorem key_of_injective_on_fixed_width (p q d1 d2 : string) (n : Z) :
  no_digits p = true → no_digits q = true →
  all_digits d1 = true → all_digits d2 = true →
  String.length d1 = String.length d2 →
  key_of (p +:+ d1 +:+ q) = Ok n →
  key_of (p +:+ d2 +:+ q) = Ok n →
  p +:+ d1 +:+ q = p +:+ d2 +:+ q.
Proof.
  intros Hp Hq H1 H2 Hl K1 K2. unfold key_of in *.
  rewrite StrFacts.strip_nondigits_shape in K1, K2 by done.
  apply cast_integer_value in K1, K2.
  f_equal. f_equal. apply StrFacts.digits_value_inj; auto. congruence.
Qed.

Lemma key_of_injective_on_fixed_width_witness :
  key_of ("PAT" +:+ "0005001" +:+ "") = Ok 5001
  ∧ "PAT" +:+ "0005001" +:+ "" = "PAT" +:+ "0005001" +:+ "".
Proof.
  split; [reflexivity|].
  apply (key_of_injective_on_fixed_width "PAT" "" "0005001" "0005001" 5001);
    reflexivity.
Defined.

(** C3 as stated fails: the encounter ids of the two id schemes of the
    repository, [ENC] + 8 digits for synthetic encounters and
    [NIH_<image index>_ENC] for loaded ones, collapse to one integer. *)
Lemma key_of_collision :
  "ENC00001000" ≠ "NIH_00000001_000_ENC"
  ∧ key_of "ENC00001000" = Ok 1000
  ∧ key_of "NIH_00000001_000_ENC" = Ok 1000.
Proof. split; [discriminate|]. split; reflexivity. Qed.

(** In a store that holds both encounters, the run keeps one fact row
    for the two of them. *)
Lemma colliding_encounters_share_one_fact_row :
  (outcome <$> run db_same_digits w_new) = Some (Ok ())
  ∧ (λ r, fe_encounter_id <$> fact_encounters (committed r))
      <$> run db_same_digits w_new
    = Some [1000].
Proof. vm_compute. split; reflexivity. Qed.

End KeyProofs.

(** ** Patient id synthesis *)

Module IdProofs.
Import PyStr Common Schema Loader Examples.

Lemma remove_PAT_prefixed d : all_digits d = true → remove_PAT ("PAT" +:+ d) = d.
Proof. intros H. change (remove_PAT ("PAT" +:+ d)) with (remove_PAT d).
       by apply StrFacts.remove_PAT_digits. Qed.

Lemma format_patient_id_spec n :
  0 ≤ n →
  ∃ d, format_patient_id n = "PAT" +:+ d ∧ all_digits d = true
       ∧ digits_value 0 d = n.
Proof.
  intros Hn. destruct (StrFacts.str_of_Z_nonneg n Hn) as (Ha & Hv & Hne).
  destruct (StrFacts.zfill_digits 7 _ Ha Hne) as (_ & Hz & Hzv).
  exists (zfill 7 (str_of_Z n)). unfold format_patient_id.
  split; [done|]. split; [done|]. by rewrite Hzv.
Qed.

Lemma format_patient_id_inj n m :
  0 ≤ n → 0 ≤ m → format_patient_id n = format_patient_id m → n = m.
Proof.
  intros Hn Hm H.
  destruct (format_patient_id_spec n Hn) as (d1 & E1 & _ & V1).
  destruct (format_patient_id_spec m Hm) as (d2 & E2 & _ & V2).
  rewrite E1, E2 in H. apply StrFacts.app_inv_head in H. congruence.
Qed.

Lemma like_PAT_format n : like_PAT (format_patient_id n) = true.
Proof. reflexivity. Qed.

Lemma str_max_fixed_width a b :
  fixed_width_id a → fixed_width_id b →
  fixed_width_id (str_max a b)
  ∧ id_number a ≤ id_number (str_max a b)
  ∧ id_number b ≤ id_number (str_max a b).
Proof.
  intros (da & -> & Ha & La) (db & -> & Hb & Lb). unfold str_max, id_number.
  rewrite !remove_PAT_prefixed by done.
  change (str_leb ("PAT" +:+ da) ("PAT" +:+ db)) with (str_leb da db).
  destruct (str_leb da db) eqn:E.
  - rewrite remove_PAT_prefixed by done.
    split; [by exists db|]. split; [|lia].
    apply StrFacts.str_leb_digits; auto; congruence.
  - rewrite remove_PAT_prefixed by done.
    split; [by exists da|]. split; [lia|].
    apply StrFacts.str_leb_total in E.
    apply StrFacts.str_leb_digits; auto; congruence.
Qed.

Lemma foldl_str_max_fixed_width r : ∀ x,
  fixed_width_id x → Forall fixed_width_id r →
  fixed_width_id (foldl str_max x r)
  ∧ id_number x ≤ id_number (foldl str_max x r)
  ∧ Forall (λ y, id_number y ≤ id_number (foldl str_max x r)) r.
Proof.
  induction r as [|y r IH]; intros x Hx Hr; simpl.
  - split; [done|]. split; [lia|constructor].
  - apply Forall_cons in Hr as [Hy Hr].
    destruct (str_max_fixed_width x y Hx Hy) as (Hm & H1 & H2).
    destruct (IH _ Hm Hr) as (G1 & G2 & G3).
    split; [done|]. split; [lia|]. constructor; [lia|done].
Qed.

(** Under the convention the [MAX] query and [int()] give a number that
    bounds the number of every stored id. *)
Lemma last_patient_number_bound cur :
  fixed_width_ids cur →
  ∃ L, last_patient_number cur = Ok L ∧ 0 ≤ L
       ∧ ∀ x, x ∈ patients cur → like_PAT (patient_id x) = true →
              id_number (patient_id x) ≤ L.
Proof.
  intros Hfw. unfold last_patient_number, select_max_patient_id.
  set (ids := filter (λ i, like_PAT i = true) (patient_id <$> patients cur)).
  assert (Hids : Forall fixed_width_id ids).
  { apply Forall_forall. intros i Hi. apply list_elem_of_filter in Hi as [Hl Hi].
    apply list_elem_of_fmap in Hi as (x & -> & Hx). by apply Hfw. }
  assert (Hin : ∀ x, x ∈ patients cur → like_PAT (patient_id x) = true →
                     patient_id x ∈ ids).
  { intros x Hx Hl. apply list_elem_of_filter. split; [done|].
    apply list_elem_of_fmap. eauto. }
  destruct ids as [|i r] eqn:E; simpl.
  - exists 5000. split; [done|]. split; [lia|].
    intros x Hx Hl. specialize (Hin x Hx Hl). by apply elem_of_nil in Hin.
  - apply Forall_cons in Hids as [Hi Hr].
    destruct (foldl_str_max_fixed_width r i Hi Hr) as ((d & Em & Hd & Ld) & G2 & G3).
    rewrite Em. destruct (decide ("PAT" +:+ d = "")) as [Hx|_]; [discriminate|].
    rewrite remove_PAT_prefixed by done.
    assert (Hne : d ≠ "") by (intros ->; discriminate).
    rewrite (StrFacts.py_int_digits d Hd Hne).
    exists (digits_value 0 d). split; [done|].
    split; [apply (StrFacts.digits_value_bound d Hd)|].
    intros x Hx Hl. specialize (Hin x Hx Hl).
    assert (Hv : id_number (foldl str_max i r) = digits_value 0 d)
      by (unfold id_number; rewrite Em; by rewrite remove_PAT_prefixed).
    rewrite <- Hv. apply elem_of_cons in Hin as [->|Hin]; [done|].
    rewrite Forall_forall in G3. by apply G3.
Qed.

Lemma create_step_sequential env existing L c row :
  sequential L c → sequential L (create_step env existing c row).
Proof.
  intros (H1 & H2 & H3). destruct row as [[nih_id a] g]. unfold create_step.
  destruct (existing !! email_of nih_id); [done|]. unfold sequential. simpl.
  rewrite length_app, fmap_app. simpl.
  split; [lia|]. split; [lia|].
  rewrite Nat.add_1_r, seq_S, fmap_app, <- H3. simpl. do 3 f_equal. lia.
Qed.

Lemma foldl_create_step_sequential env existing L rows : ∀ c,
  sequential L c → sequential L (foldl (create_step env existing) c rows).
Proof.
  induction rows as [|row rows IH]; intros c Hc; simpl; [done|].
  apply IH. by apply create_step_sequential.
Qed.

Lemma insert_patients_fresh rows : ∀ tbl,
  NoDup (patient_id <$> rows) →
  (∀ i, i ∈ patient_id <$> rows → i ∉ patient_id <$> tbl) →
  insert_patients rows tbl = Ok (tbl ++ rows).
Proof.
  induction rows as [|x rows IH]; intros tbl Hnd Hfresh; simpl.
  - by rewrite app_nil_r.
  - rewrite fmap_cons in Hnd. apply NoDup_cons in Hnd as [Hx Hnd].
    destruct (decide (patient_id x ∈ patient_id <$> tbl)) as [Hin|_].
    { exfalso. apply (Hfresh (patient_id x)); [|done]. rewrite fmap_cons. left. }
    rewrite IH; [by rewrite <- app_assoc|done|].
    intros i Hi. rewrite fmap_app. simpl. intros Hin.
    apply elem_of_app in Hin as [Hin|Hin].
    + apply (Hfresh i); [|done]. rewrite fmap_cons. by right.
    + apply list_elem_of_singleton in Hin. subst. done.
Qed.

(** C9, as the code has it.  When every stored id under the [PAT]
    prefix is [PAT] followed by exactly 7 digits, the one [MAX] query of a
    batch yields a number [L], the loop succeeds, and the ids it
    synthesizes are those of [L+1], [L+2], ... in order; they are pairwise
    distinct and none of them is the id of a stored patient, so the bulk
    insert goes through. *)
Theorem synthesized_ids_fresh (env : environment) (cur : opdb)
    (unique_patients : list (string * Z * string)) :
  fixed_width_ids cur →
  ∃ L c,
    last_patient_number cur = Ok L
    ∧ create_patients env cur unique_patients = Ok c
    ∧ patient_id <$> new_patients c
      = (λ k : nat, format_patient_id (L + Z.of_nat k))
          <$> seq 1 (length (new_patients c))
    ∧ NoDup (patient_id <$> new_patients c)
    ∧ (∀ i, i ∈ patient_id <$> new_patients c → i ∉ patient_id <$> patients cur)
    ∧ insert_patients (new_patients c) (patients cur)
      = Ok (patients cur ++ new_patients c).
Proof.
  intros Hfw. destruct (last_patient_number_bound cur Hfw) as (L & HL & HL0 & Hmax).
  unfold create_patients. rewrite HL. simpl.
  set (c := foldl _ _ _).
  assert (Hseq : sequential L c).
  { apply foldl_create_step_sequential. unfold sequential. simpl.
    split; [lia|]. split; [|done]. by rewrite Z.sub_diag. }
  destruct Hseq as (H1 & H2 & H3).
  assert (Hnd : NoDup (patient_id <$> new_patients c)).
  { rewrite H3. apply NoDup_fmap_2_strong; [|apply NoDup_seq].
    intros x y _ _ E. apply format_patient_id_inj in E; lia. }
  assert (Hfresh : ∀ i, i ∈ patient_id <$> new_patients c →
                        i ∉ patient_id <$> patients cur).
  { intros i Hi Hs. rewrite H3 in Hi.
    apply list_elem_of_fmap in Hi as (k & -> & Hk).
    apply elem_of_seq in Hk.
    apply list_elem_of_fmap in Hs as (x & Ex & Hx).
    assert (Hl : like_PAT (patient_id x) = true) by (rewrite <- Ex; reflexivity).
    specialize (Hmax x Hx Hl).
    destruct (Hfw x Hx Hl) as (d & Ed & Hd & _).
    destruct (format_patient_id_spec (L + Z.of_nat k) ltac:(lia)) as (d' & Ed' & Hd' & Hv).
    rewrite Ed, Ed' in Ex. apply StrFacts.app_inv_head in Ex. subst d'.
    unfold id_number in Hmax. rewrite Ed, remove_PAT_prefixed in Hmax by done. lia. }
  exists L, c. repeat split; auto. by apply insert_patients_fresh.
Qed.

Lemma synthesized_ids_fresh_witness :
  ∃ L c,
    last_patient_number db0 = Ok L
    ∧ create_patients env0 db0 [("1", 58, "M"); ("7", 30, "F")] = Ok c
    ∧ patient_id <$> new_patients c
      = (λ k : nat, format_patient_id (L + Z.of_nat k))
          <$> seq 1 (length (new_patients c))
    ∧ NoDup (patient_id <$> new_patients c)
    ∧ (∀ i, i ∈ patient_id <$> new_patients c → i ∉ patient_id <$> patients db0)
    ∧ insert_patients (new_patients c) (patients db0)
      = Ok (patients db0 ++ new_patients c).
Proof.
  apply (synthesized_ids_fresh env0 db0).
  intros x Hx _. apply list_elem_of_singleton in Hx. subst x.
  exists "0000001". repeat split; reflexivity.
Defined.

(** C9 as stated fails once an id has outgrown 7 digits.  From a store
    whose last id is PAT9999999, one batch creates PAT10000000; in the next
    batch the [MAX] query, which compares ids as text, still answers
    PAT9999999, and the id synthesized for the new patient is PAT10000000
    again, the id of a stored patient. *)
Lemma synthesized_id_collides :
  ∃ pm cur1 p1 c,
    _bulk_create_patients env0 batch_a db_last7 (NIH_ETL_Pipeline true db_last7)
      = (Ok (pm, cur1), p1)
    ∧ select_max_patient_id cur1 = Some "PAT9999999"
    ∧ create_patients env0 cur1 (unique_patients_of batch_b) = Ok c
    ∧ patient_id <$> new_patients c = ["PAT10000000"]
    ∧ "PAT10000000" ∈ patient_id <$> patients cur1
    ∧ (_bulk_create_patients env0 batch_b cur1 p1).1 = Raise UniqueViolation.
Proof.
  eexists _, _, _, _. split; [vm_compute; reflexivity|].
  split; [vm_compute; reflexivity|].
  split; [vm_compute; reflexivity|].
  split; [vm_compute; reflexivity|].
  split; [|vm_compute; reflexivity].
  vm_compute. apply list_elem_of_further, list_elem_of_here.
Qed.

End IdProofs.

(** ** Time dimension *)

Module TimeProofs.
Import PyStr Common Schema Calendar Warehouse Examples.

Lemma days_from_S first n :
  days_from first (S n) = first :: days_from (first + 1) n.
Proof.
  unfold days_from. simpl. f_equal; [lia|].
  rewrite <- fmap_S_seq, <- list_fmap_compose. apply list_fmap_ext.
  intros i x _. simpl. lia.
Qed.

(** With one unit of fuel more than there are days left, the loop ends
    and has appended one row per day up to [max_date]. *)
Lemma generate_dates_complete n : ∀ fuel current_date max_date acc,
  n = Z.to_nat (max_date - current_date + 1) →
  0 ≤ current_date → max_date < MAXORDINAL → (n < fuel)%nat →
  generate_dates fuel current_date max_date acc
  = Some (Ok (acc ++ (time_record <$> days_from current_date n))).
Proof.
  induction n as [|n IH]; intros fuel cur mx acc Hn Hc Hm Hf.
  - destruct fuel as [|fuel]; [lia|]. simpl.
    destruct (cur <=? mx) eqn:E; [apply Z.leb_le in E; lia|].
    by rewrite app_nil_r.
  - destruct fuel as [|fuel]; [lia|]. simpl generate_dates.
    destruct (cur <=? mx) eqn:E; [|apply Z.leb_gt in E; lia].
    apply Z.leb_le in E. unfold add_days.
    assert (Hr : (0 <? cur + 1) && (cur + 1 <=? MAXORDINAL) = true).
    { apply andb_true_iff. split; [apply Z.ltb_lt|apply Z.leb_le]; lia. }
    rewrite Hr. rewrite (IH fuel (cur + 1) mx) by lia.
    rewrite days_from_S, fmap_cons, <- app_assoc. done.
Qed.

Lemma foldl_min_spec r : ∀ x,
  foldl Z.min x r ≤ x ∧ Forall (λ y, foldl Z.min x r ≤ y) r
  ∧ foldl Z.min x r ∈ x :: r.
Proof.
  induction r as [|y r IH]; intros x; simpl.
  - split; [lia|]. split; [constructor|apply list_elem_of_here].
  - destruct (IH (Z.min x y)) as (H1 & H2 & H3).
    split; [lia|]. split; [constructor; [lia|done]|].
    apply elem_of_cons in H3 as [H3|H3].
    + rewrite H3. destruct (Z.min_spec x y) as [[_ ->]|[_ ->]];
        [apply list_elem_of_here | apply list_elem_of_further, list_elem_of_here].
    + by do 2 apply list_elem_of_further.
Qed.

Lemma foldl_max_spec r : ∀ x,
  x ≤ foldl Z.max x r ∧ Forall (λ y, y ≤ foldl Z.max x r) r
  ∧ foldl Z.max x r ∈ x :: r.
Proof.
  induction r as [|y r IH]; intros x; simpl.
  - split; [lia|]. split; [constructor|apply list_elem_of_here].
  - destruct (IH (Z.max x y)) as (H1 & H2 & H3).
    split; [lia|]. split; [constructor; [lia|done]|].
    apply elem_of_cons in H3 as [H3|H3].
    + rewrite H3. destruct (Z.max_spec x y) as [[_ ->]|[_ ->]];
        [apply list_elem_of_further, list_elem_of_here | apply list_elem_of_here].
    + by do 2 apply list_elem_of_further.
Qed.

(** The two aggregates are the least and the greatest encounter date. *)
Lemma select_min_max_spec d dmin dmax :
  select_min_max d = Some (dmin, dmax) →
  dmin ∈ encounter_date <$> encounters d
  ∧ dmax ∈ encounter_date <$> encounters d
  ∧ ∀ x, x ∈ encounter_date <$> encounters d → dmin ≤ x ≤ dmax.
Proof.
  unfold select_min_max. destruct (encounter_date <$> encounters d) as [|x r];
    [discriminate|]. intros H. injection H as <- <-.
  destruct (foldl_min_spec r x) as (A1 & A2 & A3).
  destruct (foldl_max_spec r x) as (B1 & B2 & B3).
  split; [done|]. split; [done|]. intros y Hy.
  apply elem_of_cons in Hy as [->|Hy]; [lia|].
  rewrite Forall_forall in A2, B2. split; [by apply A2 | by apply B2].
Qed.

(** C4, as the code has it.  Without encounters the stage returns
    without error and leaves the warehouse and the counters as they were.
    With encounters spanning [dmin .. dmax], [dmax] before 9999-12-31, the
    loop ends and the stage builds exactly [dmax - dmin + 1] rows, the
    calendar rows of the consecutive days [dmin], [dmin + 1], ..., [dmax],
    records that number, and hands the rows to the insert. *)
Theorem dim_time_complete (d : opdb) (w : warehouse) (s : wstats) :
  (encounters d = [] →
   dim_time_records_of d = Some (Ok [])
   ∧ populate_dim_time d w s = Some (Ok (w, s)))
  ∧ (∀ dmin dmax,
       select_min_max d = Some (dmin, dmax) → 1 ≤ dmin → dmax < MAXORDINAL →
       let rows := time_record <$> days_from dmin (Z.to_nat (dmax - dmin + 1)) in
       (dmin ∈ encounter_date <$> encounters d
        ∧ dmax ∈ encounter_date <$> encounters d
        ∧ ∀ x, x ∈ encounter_date <$> encounters d → dmin ≤ x ≤ dmax)
       ∧ dim_time_records_of d = Some (Ok rows)
       ∧ Z.of_nat (length rows) = dmax - dmin + 1
       ∧ full_date <$> rows = days_from dmin (Z.to_nat (dmax - dmin + 1))
       ∧ populate_dim_time d w s
         = Some (Ok (with_dim_time (insert_dim_time rows (dim_time w)) w,
                     set_dim_time_records (length rows) s))).
Proof.
  split.
  - intros He. unfold dim_time_records_of, populate_dim_time, select_min_max.
    rewrite He. done.
  - intros dmin dmax Hsel Hmin Hmax rows.
    pose proof (select_min_max_spec d dmin dmax Hsel) as Hspec.
    assert (Hle : dmin ≤ dmax) by (destruct Hspec as (H1 & _ & H3); apply (H3 _ H1)).
    assert (Hrec : dim_time_records_of d = Some (Ok rows)).
    { unfold dim_time_records_of. rewrite Hsel.
      rewrite (generate_dates_complete (Z.to_nat (dmax - dmin + 1))) by lia. done. }
    split; [exact Hspec|]. split; [exact Hrec|]. split; [|split].
    + subst rows. unfold days_from. rewrite !length_fmap, length_seq. lia.
    + subst rows. clear Hrec. rewrite <- list_fmap_compose.
      induction (days_from dmin (Z.to_nat (dmax - dmin + 1))) as [|x l IH];
        [done|]. rewrite fmap_cons, IH. reflexivity.
    + unfold populate_dim_time. rewrite Hsel, Hrec. done.
Qed.

Lemma dim_time_complete_witness :
  populate_dim_time db_no_encounters w_new init_wstats = Some (Ok (w_new, init_wstats))
  ∧ dim_time_records_of db_scenario
    = Some (Ok (time_record <$> days_from (ymd2ord 2024 1 1) 3)).
Proof.
  split.
  - apply (proj1 (dim_time_complete db_no_encounters w_new init_wstats)). reflexivity.
  - apply (proj2 (dim_time_complete db_scenario w_new init_wstats)
                 (ymd2ord 2024 1 1) (ymd2ord 2024 1 3));
      [reflexivity | vm_compute; discriminate | reflexivity].
Defined.

(** C4 as stated fails on the last representable day: with an encounter
    dated 9999-12-31 the row of that day is built, then stepping to the
    next day overflows and the stage raises instead of emitting its one
    row. *)
Lemma dim_time_overflow_on_last_day :
  select_min_max db_last_day = Some (MAXORDINAL, MAXORDINAL)
  ∧ dim_time_records_of db_last_day = Some (Raise OverflowError)
  ∧ populate_dim_time db_last_day w_new init_wstats = Some (Raise OverflowError).
Proof. repeat split. Qed.

End TimeProofs.

(** ** Idempotency of the load *)

Module IdempotencyProofs.
Import PyStr Common Schema Loader Examples.

Lemma existing_image_indices_spec d c :
  c ∈ get_existing_image_indices d ↔ like_NIH_ c = true ∧ c ∈ codes d.
Proof.
  unfold get_existing_image_indices, codes.
  rewrite elem_of_list_to_set, list_elem_of_filter. done.
Qed.

Lemma like_NIH_derived_key r : like_NIH_ (derived_key r) = true.
Proof. reflexivity. Qed.

(** *** What a successful batch leaves in the store *)

Lemma insert_procedures_codes rows : ∀ tbl next,
  (∀ c, c ∈ procedure_code <$> tbl →
        c ∈ procedure_code <$> (insert_procedures rows tbl next).1)
  ∧ (∀ x, x ∈ rows →
          procedure_code x ∈ procedure_code <$> (insert_procedures rows tbl next).1).
Proof.
  induction rows as [|x rows IH]; intros tbl next.
  - split; [done|]. intros x Hx. by apply elem_of_nil in Hx.
  - unfold insert_procedures. simpl.
    destruct (decide (Exists (same_procedure_key x) tbl)) as [Hex|Hex].
    + destruct (IH tbl (next + 1)) as [I1 I2]. split; [exact I1|].
      intros y Hy. apply elem_of_cons in Hy as [->|Hy]; [|by apply I2].
      apply I1. apply Exists_exists in Hex as (z & Hz & _ & Hc).
      rewrite Hc. apply list_elem_of_fmap. eauto.
    + match goal with |- context [foldl _ (?t, ?n) rows] =>
        destruct (IH t n) as [I1 I2] end.
      split.
      * intros c Hc. apply I1. rewrite fmap_app. apply elem_of_app. by left.
      * intros y Hy. apply elem_of_cons in Hy as [->|Hy]; [|by apply I2].
        apply I1. rewrite fmap_app. apply elem_of_app. right. simpl.
        apply list_elem_of_here.
Qed.

Lemma build_procedure_code m t x :
  build_procedure m t = Ok x → procedure_code x = nih_procedure_code t.
Proof.
  unfold build_procedure. intros H.
  apply CommonFacts.bind_Ok in H as (eid & _ & H). injection H as <-. done.
Qed.

Lemma bulk_create_patients_procedures env batch cur p pm cur1 p1 :
  _bulk_create_patients env batch cur p = (Ok (pm, cur1), p1) →
  procedures cur1 = procedures cur ∧ procedure_id_seq cur1 = procedure_id_seq cur.
Proof.
  unfold _bulk_create_patients.
  destruct (unique_patients_of batch) as [|u us].
  { intros H. injection H as <- <- <-. done. }
  destruct (create_patients env cur (u :: us)) as [c|e]; [|discriminate].
  destruct (new_patients c) as [|x xs].
  { intros H. injection H as <- <- <-. done. }
  destruct (insert_patients (x :: xs) (patients cur)) as [tbl|e]; simpl;
    [|discriminate].
  intros H. injection H as <- <- <-. done.
Qed.

Lemma load_steps_2_5_codes env bn batch pm cur p cur' p' :
  load_steps_2_5 env bn batch pm cur p = (Ok cur', p') →
  (∀ c, c ∈ codes cur → c ∈ codes cur')
  ∧ (∀ t, t ∈ batch → nih_procedure_code t ∈ codes cur').
Proof.
  unfold load_steps_2_5.
  destruct (_ ≫= _) as [encs|e]; [|discriminate].
  destruct (mapM (build_procedure _) batch) as [procs|e] eqn:Eprocs; [|discriminate].
  destruct (insert_procedures procs _ _) as [ptbl pnext] eqn:Eins.
  destruct (mapM (build_encounter_diagnoses _ _) batch) as [edss|e]; [|discriminate].
  destruct (mapM (build_report _) batch) as [reps|e]; [|discriminate].
  destruct (insert_reports reps _ _) as [rtbl rnext].
  intros H. injection H as <- <-.
  destruct (insert_procedures_codes procs (procedures cur) (procedure_id_seq cur))
    as [I1 I2].
  simpl in Eins. rewrite Eins in I1, I2. simpl in I1, I2. unfold codes.
  destruct (concat edss); simpl; (split; [exact I1|]); intros t Ht;
    destruct (CommonFacts.mapM_Ok_elem_l _ _ _ _ Eprocs Ht) as (x & Hx & Hb);
    rewrite <- (build_procedure_code _ _ _ Hb); by apply I2.
Qed.

Lemma load_batch_codes env bn batch cur p cur' p' :
  _load_batch_optimized env bn batch cur p = (Ok cur', p') →
  (∀ c, c ∈ codes cur → c ∈ codes cur')
  ∧ (∀ t, t ∈ batch → nih_procedure_code t ∈ codes cur').
Proof.
  unfold _load_batch_optimized.
  destruct (_bulk_create_patients env batch cur p) as [[[pm cur1]|e] p1] eqn:E;
    [|discriminate].
  intros H. apply load_steps_2_5_codes in H as [H1 H2].
  apply bulk_create_patients_procedures in E as [E _].
  unfold codes in *. rewrite E in H1. done.
Qed.

Lemma load_batches_codes env df nums : ∀ cur p p',
  load_batches env df nums cur p = (Ok (), p') → db p = cur →
  (∀ c, c ∈ codes cur → c ∈ codes (db p'))
  ∧ (∀ bn t, bn ∈ nums → t ∈ slice df bn → nih_procedure_code t ∈ codes (db p')).
Proof.
  induction nums as [|bn nums IH]; intros cur p p' H Hdb.
  - simpl in H. injection H as <-. rewrite Hdb. split; [done|].
    intros bn t Hbn. by apply elem_of_nil in Hbn.
  - simpl in H. fold (slice df bn) in H.
    destruct (_load_batch_optimized env bn (slice df bn) cur p)
      as [[cur'|e] p''] eqn:E; [|discriminate].
    apply load_batch_codes in E as [E1 E2].
    apply IH in H as [H1 H2]; [|done].
    split; [auto|]. intros bn' t Hbn Ht.
    apply elem_of_cons in Hbn as [->|Hbn]; [auto|by eapply H2].
Qed.

(** Every row lies in the batch numbered by its position divided by the
    batch size. *)
Lemma slices_cover_any {A} (B : nat) (l : list A) (x : A) :
  (0 < B)%nat → x ∈ l →
  ∃ bn, bn ∈ seq 0 (length l `div` B + 1)
        ∧ x ∈ take (Nat.min (bn * B + B) (length l) - bn * B)%nat (drop (bn * B)%nat l).
Proof.
  intros HB Hx. apply list_elem_of_lookup in Hx as [i Hi].
  pose proof (lookup_lt_Some _ _ _ Hi) as Hlt.
  exists (i `div` B)%nat.
  pose proof (Nat.div_mod_eq i B) as Hdm.
  pose proof (Nat.mod_upper_bound i B ltac:(lia)) as Hm.
  split.
  - apply elem_of_seq. split; [lia|].
    pose proof (Nat.Div0.div_le_mono i (length l) B ltac:(lia)). lia.
  - apply list_elem_of_lookup. exists (i `mod` B)%nat.
    rewrite lookup_take_lt by nia. rewrite lookup_drop.
    replace (i `div` B * B + i `mod` B)%nat with i by nia. done.
Qed.

Lemma slices_cover (df : list trow) (t : trow) :
  t ∈ df →
  ∃ bn, bn ∈ seq 0 (length df `div` BATCH_SIZE + 1) ∧ t ∈ slice df bn.
Proof.
  apply slices_cover_any. unfold BATCH_SIZE. lia.
Qed.

Lemma load_codes env dft p p1 :
  load env (Some dft) p = (Ok (), p1) →
  (∀ c, c ∈ codes (db p) → c ∈ codes (db p1))
  ∧ (∀ t, t ∈ dft → nih_procedure_code t ∈ codes (db p1)).
Proof.
  unfold load. destruct dft as [|t0 dft].
  { intros H. injection H as <-. split; [done|].
    intros t Ht. by apply elem_of_nil in Ht. }
  intros H. apply load_batches_codes in H as [H1 H2]; [|done].
  split; [exact H1|]. intros t Ht.
  destruct (slices_cover _ t Ht) as (bn & Hbn & Hs). by eapply H2.
Qed.

(** *** What [transform] lets through *)

Lemma imap_transform_row_elem env l r :
  r ∈ l → ∃ t, t ∈ imap (transform_row env) l ∧ nih_procedure_code t = derived_key r.
Proof.
  intros Hr. apply list_elem_of_lookup in Hr as [i Hi].
  exists (transform_row env i r). split; [|done].
  apply list_elem_of_lookup. exists i. rewrite list_lookup_imap, Hi. done.
Qed.

Lemma transform_db env df p : db (transform env df p).2 = db p.
Proof.
  unfold transform.
  repeat match goal with |- context [if ?b then _ else _] => destruct b end;
    reflexivity.
Qed.

Lemma transform_passes env df p r :
  r ∈ df →
  derived_key r ∈ get_existing_image_indices (db p)
  ∨ ∃ t, t ∈ frame (transform env df p).1 ∧ nih_procedure_code t = derived_key r.
Proof.
  intros Hr. unfold transform.
  set (existing := if incremental p then get_existing_image_indices (db p) else ∅).
  set (filtering := incremental p && negb (bool_decide (existing = ∅))).
  set (df_new := if filtering then filter (λ r, derived_key r ∉ existing) df else df).
  cbv zeta.
  assert (Hnew : derived_key r ∈ get_existing_image_indices (db p) ∨ r ∈ df_new).
  { subst df_new. destruct filtering eqn:Ef; [|by right].
    destruct (decide (derived_key r ∈ existing)) as [Hin|Hout].
    - left. subst existing filtering. by destruct (incremental p).
    - right. apply list_elem_of_filter. done. }
  destruct Hnew as [Hin|Hnew]; [by left|]. right.
  fold existing. fold filtering. fold df_new.
  case_bool_decide as Hl.
  - apply length_zero_iff_nil in Hl. rewrite Hl in Hnew. by apply elem_of_nil in Hnew.
  - simpl. by apply imap_transform_row_elem.
Qed.

(** After a run that ended without error every candidate's key is among
    the stored keys. *)
Lemma run_loads_every_key env df p p1 r :
  run env df p = (Ok (), p1) → r ∈ df →
  derived_key r ∈ get_existing_image_indices (db p1).
Proof.
  unfold run. intros Hrun Hr.
  pose proof (transform_passes env df p r Hr) as Hpass.
  pose proof (transform_db env df p) as Hdb.
  destruct (transform env df p) as [[dft|] p'] eqn:Et; simpl in Hpass, Hdb.
  - apply load_codes in Hrun as [H1 H2]. rewrite Hdb in H1.
    apply existing_image_indices_spec. split; [apply like_NIH_derived_key|].
    destruct Hpass as [Hin|(t & Ht & Hc)].
    + apply existing_image_indices_spec in Hin as [_ Hin]. by apply H1.
    + rewrite <- Hc. by apply H2.
  - injection Hrun as <-. rewrite Hdb.
    destruct Hpass as [Hin|(t & Ht & _)]; [done|by apply elem_of_nil in Ht].
Qed.

(** C1.  When a run of the load engine on an input ends without error,
    a second run on the same input, by a new pipeline with the incremental
    filter on, ends without error, leaves every operational table as the
    first run left it, processes nothing and reports a skipped count equal
    to the size of the input. *)
Theorem load_is_idempotent (env1 env2 : environment) (df : list nih_row)
    (p p1 : pipeline) :
  run env1 df p = (Ok (), p1) →
  let second := run env2 df (NIH_ETL_Pipeline true (db p1)) in
  second.1 = Ok ()
  ∧ db second.2 = db p1
  ∧ records_skipped (stats second.2) = length df
  ∧ records_processed (stats second.2) = 0%nat.
Proof.
  intros Hrun second.
  assert (Hall : Forall (λ r, ¬ (derived_key r ∉ get_existing_image_indices (db p1))) df).
  { apply Forall_forall. intros r Hr Hn. apply Hn.
    by eapply run_loads_every_key. }
  subst second. unfold run, transform. simpl incremental. simpl db.
  set (existing := get_existing_image_indices (db p1)) in *. cbv zeta. simpl andb.
  destruct (decide (existing = ∅)) as [He|He].
  - rewrite (bool_decide_eq_true_2 _ He). simpl negb. cbv iota.
    assert (df = []) as ->.
    { destruct df as [|r df]; [done|]. apply Forall_cons in Hall as [Hr _].
      exfalso. apply Hr. rewrite He. apply not_elem_of_empty. }
    done.
  - rewrite (bool_decide_eq_false_2 _ He). simpl negb. cbv iota.
    rewrite (ListFacts.filter_none _ _ Hall). simpl.
    repeat split. lia.
Qed.

Lemma load_is_idempotent_witness :
  let p1 := (run env0 df0 (NIH_ETL_Pipeline true db0)).2 in
  let second := run env0 df0 (NIH_ETL_Pipeline true (db p1)) in
  second.1 = Ok ()
  ∧ db second.2 = db p1
  ∧ records_skipped (stats second.2) = length df0
  ∧ records_processed (stats second.2) = 0%nat.
Proof.
  apply (load_is_idempotent env0 env0 df0 (NIH_ETL_Pipeline true db0)).
  vm_compute. reflexivity.
Defined.

End IdempotencyProofs.

(** ** Fact and bridge tables *)

Module WarehouseProofs.
Import PyStr Common Schema Calendar Warehouse Examples.

Lemma stage_Ok step k w s :
  outcome (stage step k w s) = Ok () →
  ∃ w' s', step w s = Ok (w', s') ∧ stage step k w s = k w' s'.
Proof.
  unfold stage. destruct (step w s) as [[w' s']|e]; simpl; [eauto|discriminate].
Qed.

Lemma populate_dim_time_tables d w s w' s' :
  populate_dim_time d w s = Some (Ok (w', s')) →
  dim_patient w' = dim_patient w ∧ dim_procedure w' = dim_procedure w
  ∧ dim_diagnosis w' = dim_diagnosis w ∧ fact_encounters w' = fact_encounters w
  ∧ bridge_encounter_procedures w' = bridge_encounter_procedures w
  ∧ bridge_encounter_diagnoses w' = bridge_encounter_diagnoses w.
Proof.
  unfold populate_dim_time. destruct (select_min_max d).
  - destruct (dim_time_records_of d) as [[rows|e]|]; try discriminate.
    intros H. injection H as <- <-. done.
  - intros H. injection H as <- <-. done.
Qed.

Lemma insert_fact_encounters_sound rows tbl next y :
  y ∈ (insert_fact_encounters rows tbl next).1 →
  y ∈ tbl ∨ ∃ x, x ∈ rows ∧ fe_encounter_id y = fe_encounter_id x
                 ∧ fe_patient_key y = fe_patient_key x.
Proof.
  unfold insert_fact_encounters. revert y.
  apply (CommonFacts.foldl_invariant
           (λ acc : list fact_encounter_row * Z,
              ∀ y, y ∈ acc.1 →
                   y ∈ tbl ∨ ∃ x, x ∈ rows ∧ fe_encounter_id y = fe_encounter_id x
                                  ∧ fe_patient_key y = fe_patient_key x)).
  - intros [t n] x Hx IH y. simpl in IH.
    destruct (decide (fe_encounter_id x ∈ fe_encounter_id <$> t)); simpl; [apply IH|].
    intros Hy. apply elem_of_app in Hy as [Hy|Hy]; [by apply IH|].
    apply list_elem_of_singleton in Hy. subst y. right. exists x. done.
  - simpl. auto.
Qed.

Lemma insert_bridge_procedures_sound rows tbl y :
  y ∈ insert_bridge_procedures rows tbl → y ∈ tbl ∨ y ∈ rows.
Proof.
  unfold insert_bridge_procedures. revert y.
  apply (CommonFacts.foldl_invariant
           (λ acc : list bridge_procedure_row, ∀ y, y ∈ acc → y ∈ tbl ∨ y ∈ rows)).
  - intros t x Hx IH y. destruct (decide (x ∈ t)); [apply IH|].
    intros Hy. apply elem_of_app in Hy as [Hy|Hy]; [by apply IH|].
    apply list_elem_of_singleton in Hy. subst y. by right.
  - auto.
Qed.

Lemma insert_bridge_diagnoses_sound rows tbl y :
  y ∈ insert_bridge_diagnoses rows tbl → y ∈ tbl ∨ y ∈ rows.
Proof.
  unfold insert_bridge_diagnoses. revert y.
  apply (CommonFacts.foldl_invariant
           (λ acc : list bridge_diagnosis_row, ∀ y, y ∈ acc → y ∈ tbl ∨ y ∈ rows)).
  - intros t x Hx IH y.
    destruct (decide (Exists (same_bridge_diagnosis x) t)); [apply IH|].
    intros Hy. apply elem_of_app in Hy as [Hy|Hy]; [by apply IH|].
    apply list_elem_of_singleton in Hy. subst y. by right.
  - auto.
Qed.

(** Every group of the fact query pairs an encounter with the key of a
    patient row under the encounter's patient key. *)
Lemma fact_groups_sound d w groups e pkey :
  fact_groups d w = Ok groups → (e, pkey) ∈ groups →
  e ∈ encounters d
  ∧ ∃ dp, dp ∈ dim_patient w ∧ patient_key dp = pkey
          ∧ key_of (enc_patient_id e) = Ok (dp_patient_id dp).
Proof.
  unfold fact_groups. intros H Hg.
  apply CommonFacts.bind_Ok in H as (joined & Hj & H). injection H as <-.
  apply (proj1 (CommonFacts.drop_duplicates_elem_nil _ _)) in Hg.
  apply CommonFacts.elem_of_concat in Hg as (l & Hl & Hin).
  destruct (CommonFacts.mapM_Ok_elem _ _ _ _ Hj Hin) as (e' & He' & Hjoin).
  unfold fact_join in Hjoin.
  apply CommonFacts.bind_Ok in Hjoin as (pk & Hpk & Hjoin). injection Hjoin as <-.
  apply list_elem_of_fmap in Hl as (dp & Heq & Hdp). injection Heq as -> ->.
  apply list_elem_of_filter in Hdp as [Hid Hdp].
  split; [done|]. exists dp. split; [done|]. split; [done|]. by rewrite Hid.
Qed.

Lemma fact_join_unmatched d w groups e :
  fact_groups d w = Ok groups → e ∈ encounters d →
  (∀ dp, dp ∈ dim_patient w → key_of (enc_patient_id e) ≠ Ok (dp_patient_id dp)) →
  fact_join w e = Ok [].
Proof.
  unfold fact_groups. intros H He Hno.
  apply CommonFacts.bind_Ok in H as (joined & Hj & _).
  destruct (CommonFacts.mapM_Ok_elem_l _ _ _ _ Hj He) as (l & _ & Hjoin).
  unfold fact_join in *.
  apply CommonFacts.bind_Ok in Hjoin as (pk & Hpk & _). rewrite Hpk. simpl.
  rewrite (ListFacts.filter_none (λ dp, dp_patient_id dp = pk)); [done|].
  apply Forall_forall. intros dp Hdp Hid. apply (Hno dp Hdp). by rewrite Hid.
Qed.

(** C5.  After a run that ends without error: every fact row carries
    the key of a patient row, the one under the patient key of an
    operational encounter that the fact row stands for; every row of the
    two bridge tables carries the key of a fact row and the key of a
    procedure, respectively diagnosis, row; and for an encounter whose
    patient key matches no patient row the join of the fact query is
    empty, so no fact row is built from it. *)
Theorem referential_integrity (d : opdb) (w0 : warehouse) (r : run_result) :
  run d w0 = Some r → outcome r = Ok () →
  let w := committed r in
  (∀ f, f ∈ fact_encounters w →
        ∃ dp e, dp ∈ dim_patient w ∧ patient_key dp = fe_patient_key f
                ∧ e ∈ encounters d
                ∧ key_of (enc_patient_id e) = Ok (dp_patient_id dp)
                ∧ key_of (encounter_id e) = Ok (fe_encounter_id f))
  ∧ (∀ b, b ∈ bridge_encounter_procedures w →
          (∃ f, f ∈ fact_encounters w ∧ encounter_key f = bp_encounter_key b)
          ∧ (∃ dp, dp ∈ dim_procedure w ∧ procedure_key dp = bp_procedure_key b))
  ∧ (∀ b, b ∈ bridge_encounter_diagnoses w →
          (∃ f, f ∈ fact_encounters w ∧ encounter_key f = bd_encounter_key b)
          ∧ (∃ dd, dd ∈ dim_diagnosis w ∧ diagnosis_key dd = bd_diagnosis_key b))
  ∧ (∀ e, e ∈ encounters d →
          (∀ dp, dp ∈ dim_patient w →
                 key_of (enc_patient_id e) ≠ Ok (dp_patient_id dp)) →
          fact_join w e = Ok []).
Proof.
  unfold run. intros Hrun Hok.
  destruct (populate_dim_time d (clear_warehouse w0) init_wstats) as [step1|] eqn:E1;
    [|discriminate].
  injection Hrun as Hr. subst r.
  destruct (stage_Ok _ _ _ _ Hok) as (w1 & s1 & H1 & Heq). rewrite Heq in *. clear Heq.
  destruct (stage_Ok _ _ _ _ Hok) as (w2 & s2 & H2 & Heq). rewrite Heq in *. clear Heq.
  destruct (stage_Ok _ _ _ _ Hok) as (w3 & s3 & H3 & Heq). rewrite Heq in *. clear Heq.
  destruct (stage_Ok _ _ _ _ Hok) as (w4 & s4 & H4 & Heq). rewrite Heq in *. clear Heq.
  destruct (stage_Ok _ _ _ _ Hok) as (w5 & s5 & H5 & Heq). rewrite Heq in *. clear Heq.
  destruct (stage_Ok _ _ _ _ Hok) as (w6 & s6 & H6 & Heq). rewrite Heq in *. clear Heq.
  destruct (stage_Ok _ _ _ _ Hok) as (w7 & s7 & H7 & Heq). rewrite Heq in *. clear Heq.
  simpl. clear Hok. subst step1.
  apply populate_dim_time_tables in E1 as (T1 & T2 & T3 & T4 & T5 & T6).
  simpl in T1, T2, T3, T4, T5, T6.
  (* the patient stage *)
  unfold populate_dim_patient in H2.
  apply CommonFacts.bind_Ok in H2 as (prow & _ & H2).
  destruct (insert_dim_patient prow (dim_patient w1) (patient_key_seq w1))
    as [t2 n2]. simpl in H2. injection H2 as <- <-.
  (* the procedure stage *)
  unfold populate_dim_procedure in H3.
  destruct (insert_dim_procedure _ _ _) as [t3 n3] in H3.
  injection H3 as <- <-.
  (* the diagnosis stage *)
  unfold populate_dim_diagnosis in H4.
  apply CommonFacts.bind_Ok in H4 as (drow & _ & H4).
  destruct (insert_dim_diagnosis _ _ _) as [t4 n4] in H4.
  simpl in H4. injection H4 as <- <-.
  (* the fact stage *)
  unfold populate_fact_encounters in H5.
  apply CommonFacts.bind_Ok in H5 as (groups & Hgroups & H5).
  apply CommonFacts.bind_Ok in H5 as (frows & Hfrows & H5).
  destruct (insert_fact_encounters frows _ _) as [t5 n5] eqn:E5 in H5.
  simpl in H5. injection H5 as <- <-. simpl in E5. rewrite T4 in E5.
  assert (Ht5 : t5 = (insert_fact_encounters frows [] (encounter_key_seq w1)).1)
    by (by rewrite E5).
  (* the bridge stages *)
  unfold populate_bridge_procedures in H6.
  apply CommonFacts.bind_Ok in H6 as (keyed & _ & H6).
  simpl in H6. injection H6 as <- <-. rewrite T5 in *.
  unfold populate_bridge_diagnoses in H7.
  apply CommonFacts.bind_Ok in H7 as (keyed' & _ & H7).
  apply CommonFacts.bind_Ok in H7 as (assignments & _ & H7).
  simpl in H7. injection H7 as <- <-. rewrite T6 in *. simpl.
  split; [|split; [|split]].
  - intros f Hf. rewrite Ht5 in Hf.
    apply insert_fact_encounters_sound in Hf as [Hf|(x & Hx & Hid & Hpk)];
      [by apply elem_of_nil in Hf|].
    destruct (CommonFacts.mapM_Ok_elem _ _ _ _ Hfrows Hx) as ([e pkey] & Hg & Hsel).
    destruct (fact_groups_sound _ _ _ _ _ Hgroups Hg) as (He & dp & Hdp & Hkey & Hpid).
    unfold fact_select in Hsel.
    apply CommonFacts.bind_Ok in Hsel as (eid & Heid & Hsel).
    apply CommonFacts.bind_Ok in Hsel as (fid & Hfid & Hsel).
    injection Hsel as <-. simpl in Hid, Hpk.
    exists dp, e. simpl in Hdp. repeat split; auto; congruence.
  - intros b Hb.
    apply insert_bridge_procedures_sound in Hb as [Hb|Hb];
      [by apply elem_of_nil in Hb|].
    apply (proj1 (CommonFacts.drop_duplicates_elem_nil _ _)) in Hb.
    unfold bridge_procedure_select in Hb. simpl in Hb.
    apply list_elem_of_bind in Hb as (f & Hb & Hf).
    apply list_elem_of_bind in Hb as (ek & Hb & _).
    apply list_elem_of_bind in Hb as (p & Hb & _).
    apply list_elem_of_bind in Hb as (dp & Hb & Hdp).
    apply list_elem_of_singleton in Hb. subst b. simpl.
    apply list_elem_of_filter in Hdp as [_ Hdp]. split; eauto.
  - intros b Hb.
    apply insert_bridge_diagnoses_sound in Hb as [Hb|Hb];
      [by apply elem_of_nil in Hb|].
    apply (proj1 (CommonFacts.drop_duplicates_elem_nil _ _)) in Hb.
    unfold bridge_diagnosis_select in Hb. simpl in Hb.
    apply list_elem_of_bind in Hb as (f & Hb & Hf).
    apply list_elem_of_bind in Hb as (ek & Hb & _).
    apply list_elem_of_bind in Hb as (a & Hb & _).
    apply list_elem_of_bind in Hb as (dd & Hb & Hdd).
    apply list_elem_of_singleton in Hb. subst b. simpl.
    apply list_elem_of_filter in Hdd as [_ Hdd]. split; eauto.
  - intros e He Hno.
    rewrite <- (fact_join_unmatched d _ groups e Hgroups He); [|exact Hno].
    reflexivity.
Qed.

Lemma referential_integrity_witness :
  let w := committed scenario_run in
  (∀ f, f ∈ fact_encounters w →
        ∃ dp e, dp ∈ dim_patient w ∧ patient_key dp = fe_patient_key f
                ∧ e ∈ encounters db_scenario
                ∧ key_of (enc_patient_id e) = Ok (dp_patient_id dp)
                ∧ key_of (encounter_id e) = Ok (fe_encounter_id f))
  ∧ (∀ b, b ∈ bridge_encounter_procedures w →
          (∃ f, f ∈ fact_encounters w ∧ encounter_key f = bp_encounter_key b)
          ∧ (∃ dp, dp ∈ dim_procedure w ∧ procedure_key dp = bp_procedure_key b))
  ∧ (∀ b, b ∈ bridge_encounter_diagnoses w →
          (∃ f, f ∈ fact_encounters w ∧ encounter_key f = bd_encounter_key b)
          ∧ (∃ dd, dd ∈ dim_diagnosis w ∧ diagnosis_key dd = bd_diagnosis_key b))
  ∧ (∀ e, e ∈ encounters db_scenario →
          (∀ dp, dp ∈ dim_patient w →
                 key_of (enc_patient_id e) ≠ Ok (dp_patient_id dp)) →
          fact_join w e = Ok []).
Proof.
  apply (referential_integrity db_scenario w_new scenario_run);
    vm_compute; reflexivity.
Defined.

(** The scenario of the specification: three days, three fact rows,
    three rows in each bridge, all diagnoses primary. *)
Lemma scenario_row_counts :
  outcome scenario_run = Ok ()
  ∧ full_date <$> dim_time (committed scenario_run)
    = [ymd2ord 2024 1 1; ymd2ord 2024 1 2; ymd2ord 2024 1 3]
  ∧ length (fact_encounters (committed scenario_run)) = 3%nat
  ∧ length (bridge_encounter_procedures (committed scenario_run)) = 3%nat
  ∧ diagnosis_type <$> bridge_encounter_diagnoses (committed scenario_run)
    = ["Primary"; "Primary"; "Primary"].
Proof. vm_compute. repeat split. Qed.

End WarehouseProofs.

(** ** Patient dimension *)

Module PatientDimProofs.
Import PyStr Common Schema Calendar Warehouse Examples.






End PatientDimProofs.

(** ** Identity resolution *)

Module IdentityProofs.
Import PyStr Common Schema Loader Examples.

Lemma select_existing_patients_sound emails cur e pid :
  select_existing_patients emails cur !! e = Some pid →
  ∃ x, x ∈ patients cur ∧ contact_email x = e ∧ patient_id x = pid.
Proof.
  unfold select_existing_patients.
  set (l := filter (λ x, contact_email x ∈ emails) (patients cur)).
  assert (Hl : ∀ x, x ∈ l → x ∈ patients cur)
    by (intros x Hx; by apply list_elem_of_filter in Hx as [_ Hx]).
  revert e pid.
  apply (CommonFacts.foldl_invariant
           (λ m : gmap string string,
              ∀ e pid, m !! e = Some pid →
                       ∃ x, x ∈ patients cur ∧ contact_email x = e ∧ patient_id x = pid)).
  - intros m x Hx IH e pid. rewrite lookup_insert.
    case_decide as He; [|apply IH].
    intros H. injection H as <-. exists x. auto.
  - intros e pid H. by rewrite lookup_empty in H.
Qed.

Lemma select_existing_patients_complete emails cur x :
  x ∈ patients cur → contact_email x ∈ emails →
  is_Some (select_existing_patients emails cur !! contact_email x).
Proof.
  intros Hx He. unfold select_existing_patients.
  assert (Hin : x ∈ filter (λ x, contact_email x ∈ emails) (patients cur))
    by (by apply list_elem_of_filter).
  revert Hin. generalize (filter (λ x, contact_email x ∈ emails) (patients cur)).
  intros l. generalize (∅ : gmap string string).
  assert (G : ∀ (l : list patient) (m : gmap string string),
                is_Some (m !! contact_email x) →
                is_Some (foldl (λ m z, <[contact_email z := patient_id z]> m) m l
                           !! contact_email x)).
  { clear. induction l as [|z l IH]; intros m Hm; [done|]. simpl. apply IH.
    rewrite lookup_insert. case_decide; [eauto|done]. }
  induction l as [|y l IH]; intros m Hin; [by apply elem_of_nil in Hin|].
  simpl. apply elem_of_cons in Hin as [<-|Hin]; [|by apply IH].
  apply G. rewrite lookup_insert_eq. eauto.
Qed.

(** The loop on an external id whose token is matched: the id is mapped
    to the matched patient and no patient is created under its token. *)
Lemma create_loop_reuses env existing nih_id pid rows : ∀ c0,
  existing !! email_of nih_id = Some pid →
  (∀ y, y ∈ new_patients c0 → contact_email y ≠ email_of nih_id) →
  let c := foldl (create_step env existing) c0 rows in
  (∀ y, y ∈ new_patients c → contact_email y ≠ email_of nih_id)
  ∧ ((∃ a g, (nih_id, a, g) ∈ rows) ∨ patient_map c0 !! nih_id = Some pid →
     patient_map c !! nih_id = Some pid).
Proof.
  induction rows as [|[[i a] g] rows IH]; intros c0 Hm Hnew; simpl.
  - split; [done|]. intros [(a & g & H)|H]; [by apply elem_of_nil in H|done].
  - set (c1 := create_step env existing c0 (i, a, g)).
    assert (Hnew1 : ∀ y, y ∈ new_patients c1 → contact_email y ≠ email_of nih_id).
    { subst c1. unfold create_step. destruct (existing !! email_of i) eqn:Ei; [done|].
      simpl. intros y Hy. apply elem_of_app in Hy as [Hy|Hy]; [by apply Hnew|].
      apply list_elem_of_singleton in Hy. subst y. simpl. congruence. }
    destruct (IH c1 Hm Hnew1) as [I1 I2]. split; [exact I1|].
    intros H. apply I2.
    destruct (decide (i = nih_id)) as [->|Hne].
    + right. subst c1. unfold create_step. rewrite Hm. simpl.
      apply lookup_insert_eq.
    + destruct H as [(a' & g' & H)|H].
      * apply elem_of_cons in H as [H|H]; [congruence|]. left. eauto.
      * right. subst c1. unfold create_step.
        destruct (existing !! email_of i); simpl; by rewrite lookup_insert_ne.
Qed.

(** The part of C2 that the code keeps: an external id of the batch
    whose correlation token is already stored is resolved to a stored
    patient with that token, and no patient is created under the token, so
    later invocations resolve the id the same way as long as the stored
    tokens are not duplicated. *)
Theorem existing_patient_is_reused (env : environment) (cur : opdb)
    (unique_patients : list (string * Z * string)) (c : creation)
    (nih_id : string) (a : Z) (g : string) :
  create_patients env cur unique_patients = Ok c →
  (nih_id, a, g) ∈ unique_patients →
  email_of nih_id ∈ contact_email <$> patients cur →
  (∃ x, x ∈ patients cur ∧ contact_email x = email_of nih_id
        ∧ patient_map c !! nih_id = Some (patient_id x))
  ∧ ∀ y, y ∈ new_patients c → contact_email y ≠ email_of nih_id.
Proof.
  unfold create_patients. intros Hc Hin Hstored.
  apply CommonFacts.bind_Ok in Hc as (L & _ & Hc). injection Hc as <-.
  set (emails := (λ r : string * Z * string, email_of r.1.1) <$> unique_patients).
  assert (He : email_of nih_id ∈ emails).
  { apply list_elem_of_fmap. exists (nih_id, a, g). done. }
  apply list_elem_of_fmap in Hstored as (x & Hx & Hxin).
  rewrite Hx in He.
  destruct (select_existing_patients_complete emails cur x Hxin He) as [pid Hpid].
  rewrite <- Hx in Hpid.
  destruct (select_existing_patients_sound _ _ _ _ Hpid) as (z & Hz & Hze & Hzp).
  destruct (create_loop_reuses env (select_existing_patients emails cur)
              nih_id pid unique_patients
              {| last_id := L; new_patients := []; patient_map := ∅; created := 0 |}
              Hpid) as [I1 I2].
  { intros y Hy. by apply elem_of_nil in Hy. }
  split; [|exact I1]. exists z. split; [done|]. split; [done|].
  rewrite Hzp. apply I2. left. eauto.
Qed.

Lemma existing_patient_is_reused_witness :
  (∃ x, x ∈ patients db_with_nih1 ∧ contact_email x = email_of "1"
        ∧ patient_map creation_1_9 !! "1" = Some (patient_id x))
  ∧ ∀ y, y ∈ new_patients creation_1_9 → contact_email y ≠ email_of "1".
Proof.
  apply (existing_patient_is_reused env0 db_with_nih1
           [("1", 58, "M"); ("9", 41, "M")] creation_1_9 "1" 58 "M").
  - vm_compute. reflexivity.
  - apply list_elem_of_here.
  - vm_compute. apply list_elem_of_further, list_elem_of_here.
Defined.

(** C2 fails on the code.  The batch [batch0] holds two studies of
    external patient 1, at ages 58 and 59.  [drop_duplicates] compares
    whole (id, age, gender) rows, so both rows stay in [unique_patients];
    neither correlation token is stored yet, and the loop creates two
    patients, PAT0000002 and PAT0000003, with the one token
    nih_patient_1@external.com, counts two creations, and maps the
    external id to the second. *)
Lemma bulk_create_duplicates_patient :
  unique_patients_of batch0 = [("1", 58, "M"); ("1", 59, "M")]
  ∧ ∃ pm cur p1,
      _bulk_create_patients env0 batch0 db0 (NIH_ETL_Pipeline true db0)
        = (Ok (pm, cur), p1)
      ∧ (λ x, (patient_id x, contact_email x))
          <$> filter (λ x, contact_email x = email_of "1") (patients cur)
        = [ ("PAT0000002", "nih_patient_1@external.com");
            ("PAT0000003", "nih_patient_1@external.com") ]
      ∧ patients_created (stats p1) = 2%nat
      ∧ pm !! "1" = Some "PAT0000003".
Proof.
  split; [reflexivity|].
  eexists _, _, _. split; [vm_compute; reflexivity|].
  split; [vm_compute; reflexivity|]. split; vm_compute; reflexivity.
Qed.

End IdentityProofs.


(** * Further properties of the load engine *)

(** ** Batches and transactions *)

Module BatchProofs.
Import PyStr Common Schema Loader Examples.

Lemma slice_any_is_take {A} (B : nat) (l : list A) (bn : nat) :
  take (Nat.min (bn * B + B) (length l) - bn * B)%nat (drop (bn * B)%nat l)
  = take B (drop (bn * B)%nat l).
Proof.
  destruct (decide (bn * B + B ≤ length l)%nat) as [Hle|Hgt].
  - f_equal. lia.
  - rewrite !take_ge; [done| |]; rewrite length_drop; lia.
Qed.

Lemma concat_slices_any {A} (B : nat) (l : list A) (n : nat) :
  concat ((λ bn, take (Nat.min (bn * B + B) (length l) - bn * B)%nat
                      (drop (bn * B)%nat l)) <$> seq 0 n)
  = take (n * B)%nat l.
Proof.
  induction n as [|n IH]; [done|].
  rewrite seq_S, fmap_app, concat_app, IH. simpl. rewrite app_nil_r.
  rewrite slice_any_is_take, take_take_drop. f_equal. lia.
Qed.

(** The batches of [load] are the frame cut in order into pieces of at
    most [BATCH_SIZE] rows: every row is in exactly one batch.  When the
    size of the frame is a multiple of [BATCH_SIZE], the last batch of the
    loop is empty. *)
Theorem batches_partition_frame (df : list trow) :
  let total_batches := (length df `div` BATCH_SIZE + 1)%nat in
  concat (slice df <$> seq 0 total_batches) = df
  ∧ Forall (λ b, (length b ≤ BATCH_SIZE)%nat) (slice df <$> seq 0 total_batches)
  ∧ ((length df `mod` BATCH_SIZE = 0)%nat →
     slice df (length df `div` BATCH_SIZE) = []).
Proof.
  assert (HB : (0 < BATCH_SIZE)%nat) by (unfold BATCH_SIZE; lia).
  unfold slice. generalize dependent BATCH_SIZE. intros B HB. cbv zeta.
  pose proof (Nat.div_mod_eq (length df) B) as Hdm.
  pose proof (Nat.mod_upper_bound (length df) B ltac:(lia)) as Hm.
  split; [|split].
  - rewrite (concat_slices_any B df). apply take_ge. nia.
  - apply Forall_forall. intros b Hb. apply list_elem_of_fmap in Hb as (bn & -> & _).
    rewrite slice_any_is_take, length_take. lia.
  - intros Hz. rewrite slice_any_is_take.
    rewrite drop_ge by nia. by rewrite take_nil.
Qed.

(** An empty batch changes neither the store nor the counters, and does
    not raise, whatever the facility list: [random.choices] is asked for
    no element. *)
Theorem empty_batch_changes_nothing (env : environment) (batch_num : nat)
    (cur : opdb) (p : pipeline) :
  _load_batch_optimized env batch_num [] cur p = (Ok cur, p).
Proof.
  destruct cur, p as [inc st cache fids d]. destruct st.
  unfold _load_batch_optimized, _bulk_create_patients, load_steps_2_5. simpl.
  destruct fids; simpl; unfold with_stats, with_reports, with_procedures,
    with_encounters, add_encounters_created, add_procedures_created,
    add_reports_created; simpl; rewrite ?Nat.add_0_r; reflexivity.
Qed.

(** A frame whose size is a multiple of the batch size ends with a
    transaction that changes nothing. *)
Corollary trailing_batch_changes_nothing (env : environment) (df : list trow)
    (cur : opdb) (p : pipeline) :
  (length df `mod` BATCH_SIZE = 0)%nat →
  _load_batch_optimized env (length df `div` BATCH_SIZE)
    (slice df (length df `div` BATCH_SIZE)) cur p = (Ok cur, p).
Proof.
  intros Hz. destruct (batches_partition_frame df) as (_ & _ & H).
  rewrite (H Hz). apply empty_batch_changes_nothing.
Qed.

Lemma load_batches_cons env df bn rest cur p :
  load_batches env df (bn :: rest) cur p
  = match _load_batch_optimized env bn (slice df bn) cur p with
    | (Raise e, p') => (Raise e, p')
    | (Ok cur', p') => load_batches env df rest cur' (with_db cur' p')
    end.
Proof. reflexivity. Qed.

Lemma bulk_create_patients_pipeline env batch cur p r p1 :
  _bulk_create_patients env batch cur p = (r, p1) →
  db p1 = db p ∧ facility_ids p1 = facility_ids p
  ∧ diagnosis_cache p1 = diagnosis_cache p ∧ incremental p1 = incremental p.
Proof.
  unfold _bulk_create_patients.
  destruct (unique_patients_of _); [intros H; by injection H as <- <-|].
  destruct (create_patients _ _ _) as [c|e]; [|intros H; by injection H as <- <-].
  destruct (new_patients c); intros H; by injection H as <- <-.
Qed.

(** Without a hospital facility the first batch of a non-empty frame
    raises ([IndexError] from [random.choices], unless patient creation
    has failed before it), and nothing is committed: the patients created
    in the batch are rolled back with it. *)
Theorem load_without_hospital_commits_nothing (env : environment)
    (dft : list trow) (p : pipeline) :
  facility_ids p = [] → dft ≠ [] →
  let out := load env (Some dft) p in
  (∃ e, out.1 = Raise e)
  ∧ db out.2 = db p
  ∧ (∀ pm cur1 p1,
       _bulk_create_patients env (slice dft 0) (db p) p = (Ok (pm, cur1), p1) →
       out.1 = Raise IndexError).
Proof.
  intros Hf Hne. destruct dft as [|t0 dft]; [done|]. clear Hne.
  unfold load. cbv zeta.
  assert (Hseq : ∃ rest, seq 0 (length (t0 :: dft) `div` BATCH_SIZE + 1) = 0%nat :: rest).
  { rewrite Nat.add_1_r. simpl seq. eauto. }
  destruct Hseq as [rest ->]. rewrite load_batches_cons.
  assert (Hs : ∃ t1 ts, slice (t0 :: dft) 0 = t1 :: ts).
  { unfold slice, BATCH_SIZE. simpl. eauto. }
  destruct Hs as (t1 & ts & Hs). unfold _load_batch_optimized.
  destruct (_bulk_create_patients env (slice (t0 :: dft) 0) (db p) p)
    as [[[pm cur1]|e] p1] eqn:Eb;
    destruct (bulk_create_patients_pipeline _ _ _ _ _ _ Eb) as (Hdb & Hfid & _).
  - unfold load_steps_2_5. rewrite Hfid, Hf, Hs. simpl.
    split; [eauto|]. split; [done|]. intros pm' cur1' p1' H. done.
  - split; [eauto|]. split; [done|]. intros pm' cur1' p1' H. discriminate.
Qed.

Lemma load_without_hospital_commits_nothing_witness :
  let p := NIH_ETL_Pipeline true db_no_hospital in
  let out := load env0 (Some batch0) p in
  (∃ e, out.1 = Raise e)
  ∧ db out.2 = db p
  ∧ (∀ pm cur1 p1,
       _bulk_create_patients env0 (slice batch0 0) (db p) p = (Ok (pm, cur1), p1) →
       out.1 = Raise IndexError).
Proof.
  apply (load_without_hospital_commits_nothing env0 batch0
           (NIH_ETL_Pipeline true db_no_hospital)); [reflexivity|discriminate].
Defined.

(** When [load] raises, the committed store is the one the batches
    before the failing one have produced: the loop has run a prefix of the
    batches to the end, each committed, and the failing batch has left no
    trace in the store. *)
Theorem load_failure_keeps_committed_batches (env : environment) (df : list trow)
    (nums : list nat) : ∀ (p p' : pipeline) (e : exn),
  load_batches env df nums (db p) p = (Raise e, p') →
  ∃ done bn rest p'',
    nums = done ++ bn :: rest
    ∧ load_batches env df done (db p) p = (Ok (), p'')
    ∧ db p' = db p''
    ∧ (_load_batch_optimized env bn (slice df bn) (db p'') p'').1 = Raise e.
Proof.
  induction nums as [|bn nums IH]; intros p p' e H; [discriminate|].
  rewrite load_batches_cons in H.
  destruct (_load_batch_optimized env bn (slice df bn) (db p) p)
    as [[cur'|e'] p1] eqn:E.
  - destruct (IH (with_db cur' p1) p' e H) as (dn & bn' & rest & p'' & -> & H1 & H2 & H3).
    exists (bn :: dn), bn', rest, p''. split; [done|].
    split; [|done]. rewrite load_batches_cons. by rewrite E.
  - injection H as <- <-. exists [], bn, nums, p. split; [done|].
    split; [done|]. split; [|by rewrite E].
    revert E. unfold _load_batch_optimized.
    destruct (_bulk_create_patients env (slice df bn) (db p) p)
      as [[[pm cur1]|e1] p2] eqn:Eb;
      destruct (bulk_create_patients_pipeline _ _ _ _ _ _ Eb) as (Hdb & _).
    + unfold load_steps_2_5.
      repeat match goal with
             | |- context [match ?x with _ => _ end] =>
                 match x with
                 | context [match _ with _ => _ end] => fail 1
                 | _ => destruct x eqn:?
                 end
             end; intros H; try discriminate H;
        injection H as _ Hp; rewrite <- Hp; exact Hdb.
    + intros H. by injection H as <- <-.
Qed.

Lemma load_failure_keeps_committed_batches_witness :
  let p := NIH_ETL_Pipeline true db_no_hospital in
  ∃ done bn rest p'',
    [0%nat] = done ++ bn :: rest
    ∧ load_batches env0 batch0 done (db p) p = (Ok (), p'')
    ∧ db (load_batches env0 batch0 [0%nat] (db p) p).2 = db p''
    ∧ (_load_batch_optimized env0 bn (slice batch0 bn) (db p'') p'').1
      = Raise IndexError.
Proof.
  apply (load_failure_keeps_committed_batches env0 batch0 [0%nat]
           (NIH_ETL_Pipeline true db_no_hospital)
           (load_batches env0 batch0 [0%nat] db_no_hospital
              (NIH_ETL_Pipeline true db_no_hospital)).2 IndexError).
  vm_compute. reflexivity.
Defined.

End BatchProofs.


(** ** Constraints of the operational store *)

Module StoreProofs.
Import PyStr Common Schema Loader Examples.

Lemma NoDup_snoc {A} (l : list A) (x : A) : NoDup l → x ∉ l → NoDup (l ++ [x]).
Proof.
  intros Hl Hx. apply NoDup_app. split; [done|]. split; [|apply NoDup_singleton].
  intros y Hy Hy'. apply list_elem_of_singleton in Hy'. by subst.
Qed.

(** *** The inserts *)

Lemma insert_patients_inv rows : ∀ tbl t,
  insert_patients rows tbl = Ok t →
  t = tbl ++ rows
  ∧ (NoDup (patient_id <$> tbl) → NoDup (patient_id <$> t)).
Proof.
  induction rows as [|x rows IH]; intros tbl t H; simpl in H.
  - injection H as <-. by rewrite app_nil_r.
  - destruct (decide (patient_id x ∈ patient_id <$> tbl)) as [|Hx]; [discriminate|].
    apply IH in H as [-> Hnd]. split; [by rewrite <- app_assoc|].
    intros Htbl. apply Hnd. rewrite fmap_app. by apply NoDup_snoc.
Qed.

Lemma insert_encounters_inv rows : ∀ tbl,
  (∃ added, insert_encounters rows tbl = tbl ++ added ∧ ∀ y, y ∈ added → y ∈ rows)
  ∧ (NoDup (encounter_id <$> tbl) →
     NoDup (encounter_id <$> insert_encounters rows tbl))
  ∧ (∀ x, x ∈ rows → encounter_id x ∈ encounter_id <$> insert_encounters rows tbl)
  ∧ (∀ i, i ∈ encounter_id <$> tbl → i ∈ encounter_id <$> insert_encounters rows tbl).
Proof.
  induction rows as [|x rows IH]; intros tbl.
  - split; [exists []; by rewrite app_nil_r|]. split; [done|].
    split; [|done]. intros x Hx. by apply elem_of_nil in Hx.
  - unfold insert_encounters. simpl.
    destruct (decide (encounter_id x ∈ encounter_id <$> tbl)) as [Hin|Hout].
    + destruct (IH tbl) as ((added & E & Hadd) & Hnd & Hall & Hold).
      fold (insert_encounters rows tbl). split; [|split; [done|split; [|done]]].
      * exists added. split; [done|]. intros y Hy. apply list_elem_of_further. auto.
      * intros y Hy. apply elem_of_cons in Hy as [->|Hy]; auto.
    + destruct (IH (tbl ++ [x])) as ((added & E & Hadd) & Hnd & Hall & Hold).
      fold (insert_encounters rows (tbl ++ [x])).
      split; [|split; [|split]].
      * exists (x :: added). rewrite E, <- app_assoc. split; [done|].
        intros y Hy. apply elem_of_cons in Hy as [->|Hy];
          [apply list_elem_of_here | apply list_elem_of_further; auto].
      * intros Htbl. apply Hnd. rewrite fmap_app. by apply NoDup_snoc.
      * intros y Hy. apply elem_of_cons in Hy as [->|Hy]; [|auto].
        apply Hold. rewrite fmap_app. apply elem_of_app. right. apply list_elem_of_here.
      * intros i Hi. apply Hold. rewrite fmap_app. apply elem_of_app. by left.
Qed.

Lemma not_Exists_same_procedure_key x tbl :
  ¬ Exists (same_procedure_key x) tbl → procedure_pair x ∉ procedure_pair <$> tbl.
Proof.
  intros Hn Hin. apply Hn. apply list_elem_of_fmap in Hin as (y & Hy & Hin).
  apply Exists_exists. exists y. split; [done|].
  unfold procedure_pair in Hy. injection Hy as H1 H2. done.
Qed.

Lemma insert_procedures_inv rows : ∀ tbl next,
  let out := insert_procedures rows tbl next in
  (∃ added, out.1 = tbl ++ added
            ∧ ∀ y, y ∈ added →
                   (∃ x, x ∈ rows ∧ proc_encounter_id y = proc_encounter_id x)
                   ∧ next ≤ procedure_id y < out.2)
  ∧ next ≤ out.2
  ∧ (NoDup (procedure_pair <$> tbl) → NoDup (procedure_pair <$> out.1)).
Proof.
  induction rows as [|x rows IH]; intros tbl next; cbv zeta.
  - simpl. split; [exists []; split; [by rewrite app_nil_r|]|split; [lia|done]].
    intros y Hy. by apply elem_of_nil in Hy.
  - unfold insert_procedures. simpl.
    destruct (decide (Exists (same_procedure_key x) tbl)) as [Hin|Hout].
    + specialize (IH tbl (next + 1)). cbv zeta in IH. unfold insert_procedures in IH.
      destruct IH as ((added & E & Hadd) & Hn & Hnd).
      split; [|split; [lia|done]].
      exists added. split; [done|]. intros y Hy. destruct (Hadd y Hy) as ((z & Hz & Hc) & Hr).
      split; [|lia]. exists z. split; [by apply list_elem_of_further|done].
    + match goal with |- context [foldl _ (tbl ++ [?r], _) rows] => set (row := r) end.
      specialize (IH (tbl ++ [row]) (next + 1)). cbv zeta in IH.
      unfold insert_procedures in IH.
      destruct IH as ((added & E & Hadd) & Hn & Hnd).
      split; [|split; [lia|]].
      * exists (row :: added). rewrite E, <- app_assoc. split; [done|].
        intros y Hy. apply elem_of_cons in Hy as [->|Hy].
        -- split; [exists x; split; [apply list_elem_of_here|done]|simpl; lia].
        -- destruct (Hadd y Hy) as ((z & Hz & Hc) & Hr).
           split; [|lia]. exists z. split; [by apply list_elem_of_further|done].
      * intros Htbl. apply Hnd. rewrite fmap_app. apply NoDup_snoc; [done|].
        by apply not_Exists_same_procedure_key in Hout.
Qed.

Lemma insert_encounter_diagnoses_inv rows : ∀ tbl,
  (∃ added, insert_encounter_diagnoses rows tbl = tbl ++ added
            ∧ ∀ y, y ∈ added → y ∈ rows)
  ∧ (NoDup (assignment_pair <$> tbl) →
     NoDup (assignment_pair <$> insert_encounter_diagnoses rows tbl)).
Proof.
  induction rows as [|x rows IH]; intros tbl.
  - split; [exists []; by rewrite app_nil_r|done].
  - unfold insert_encounter_diagnoses. simpl.
    destruct (decide (Exists (same_assignment x) tbl)) as [Hin|Hout].
    + destruct (IH tbl) as ((added & E & Hadd) & Hnd).
      fold (insert_encounter_diagnoses rows tbl). split; [|done].
      exists added. split; [done|]. intros y Hy. apply list_elem_of_further. auto.
    + destruct (IH (tbl ++ [x])) as ((added & E & Hadd) & Hnd).
      fold (insert_encounter_diagnoses rows (tbl ++ [x])). split.
      * exists (x :: added). rewrite E, <- app_assoc. split; [done|].
        intros y Hy. apply elem_of_cons in Hy as [->|Hy];
          [apply list_elem_of_here | apply list_elem_of_further; auto].
      * intros Htbl. apply Hnd. rewrite fmap_app. apply NoDup_snoc; [done|].
        intros Hin. apply Hout. apply list_elem_of_fmap in Hin as (y & Hy & Hin).
        apply Exists_exists. exists y. split; [done|].
        unfold assignment_pair in Hy. injection Hy as H1 H2. done.
Qed.

Lemma insert_reports_inv rows : ∀ tbl next,
  let out := insert_reports rows tbl next in
  (∃ added, out.1 = tbl ++ added
            ∧ ∀ y, y ∈ added →
                   (∃ x, x ∈ rows ∧ rep_encounter_id y = rep_encounter_id x)
                   ∧ next ≤ report_id y < out.2)
  ∧ next ≤ out.2.
Proof.
  induction rows as [|x rows IH]; intros tbl next; cbv zeta.
  - simpl. split; [exists []; split; [by rewrite app_nil_r|]|lia].
    intros y Hy. by apply elem_of_nil in Hy.
  - unfold insert_reports. simpl.
    match goal with |- context [foldl _ (tbl ++ [?r], _) rows] => set (row := r) end.
    specialize (IH (tbl ++ [row]) (next + 1)). cbv zeta in IH.
    unfold insert_reports in IH.
    destruct IH as ((added & E & Hadd) & Hn).
    split; [|lia].
    exists (row :: added). rewrite E, <- app_assoc. split; [done|].
    intros y Hy. apply elem_of_cons in Hy as [->|Hy].
    + split; [exists x; split; [apply list_elem_of_here|done]|simpl; lia].
    + destruct (Hadd y Hy) as ((z & Hz & Hc) & Hr).
      split; [|lia]. exists z. split; [by apply list_elem_of_further|done].
Qed.

Lemma insert_procedures_ids rows : ∀ tbl next,
  NoDup (procedure_id <$> tbl) → Forall (λ x, procedure_id x < next) tbl →
  let out := insert_procedures rows tbl next in
  NoDup (procedure_id <$> out.1) ∧ Forall (λ x, procedure_id x < out.2) out.1.
Proof.
  induction rows as [|x rows IH]; intros tbl next Hnd Hlt; cbv zeta; [done|].
  unfold insert_procedures. simpl.
  destruct (decide (Exists (same_procedure_key x) tbl)) as [Hin|Hout].
  - apply (IH tbl (next + 1)); [done|].
    eapply Forall_impl; [exact Hlt|]. simpl. intros. lia.
  - match goal with |- context [foldl _ (tbl ++ [?r], _) rows] => set (row := r) end.
    apply (IH (tbl ++ [row]) (next + 1)).
    + rewrite fmap_app. apply NoDup_snoc; [done|]. simpl. intros Hin.
      apply list_elem_of_fmap in Hin as (y & Hy & Hin).
      rewrite Forall_forall in Hlt. specialize (Hlt y Hin). lia.
    + apply Forall_app. split.
      * eapply Forall_impl; [exact Hlt|]. simpl. intros. lia.
      * constructor; [simpl; lia|constructor].
Qed.

Lemma insert_reports_ids rows : ∀ tbl next,
  NoDup (report_id <$> tbl) → Forall (λ x, report_id x < next) tbl →
  let out := insert_reports rows tbl next in
  NoDup (report_id <$> out.1) ∧ Forall (λ x, report_id x < out.2) out.1.
Proof.
  induction rows as [|x rows IH]; intros tbl next Hnd Hlt; cbv zeta; [done|].
  unfold insert_reports. simpl.
  match goal with |- context [foldl _ (tbl ++ [?r], _) rows] => set (row := r) end.
  apply (IH (tbl ++ [row]) (next + 1)).
  - rewrite fmap_app. apply NoDup_snoc; [done|]. simpl. intros Hin.
    apply list_elem_of_fmap in Hin as (y & Hy & Hin).
    rewrite Forall_forall in Hlt. specialize (Hlt y Hin). lia.
  - apply Forall_app. split.
    + eapply Forall_impl; [exact Hlt|]. simpl. intros. lia.
    + constructor; [simpl; lia|constructor].
Qed.

(** *** What a batch builds *)

Lemma create_loop_values env existing rows : ∀ c0,
  (∀ i pid, patient_map c0 !! i = Some pid →
            (∃ e, existing !! e = Some pid) ∨ pid ∈ patient_id <$> new_patients c0) →
  let c := foldl (create_step env existing) c0 rows in
  ∀ i pid, patient_map c !! i = Some pid →
           (∃ e, existing !! e = Some pid) ∨ pid ∈ patient_id <$> new_patients c.
Proof.
  intros c0 H0. cbv zeta.
  apply (CommonFacts.foldl_invariant
           (λ c, ∀ i pid, patient_map c !! i = Some pid →
                          (∃ e, existing !! e = Some pid)
                          ∨ pid ∈ patient_id <$> new_patients c)); [|exact H0].
  intros c [[nih_id a] g] _ IH i pid. unfold create_step.
  destruct (existing !! email_of nih_id) as [pid'|] eqn:E; simpl.
  - rewrite lookup_insert. case_decide as Hk; [|apply IH].
    intros Hv. injection Hv as <-. left. eauto.
  - rewrite lookup_insert. case_decide as Hk.
    + intros Hv. injection Hv as <-. right. rewrite fmap_app. apply elem_of_app.
      right. apply list_elem_of_here.
    + intros Hv. destruct (IH i pid Hv) as [?|Hin]; [by left|]. right.
      rewrite fmap_app. apply elem_of_app. by left.
Qed.

Lemma create_patients_values env cur ups c :
  create_patients env cur ups = Ok c →
  ∀ i pid, patient_map c !! i = Some pid →
           pid ∈ patient_id <$> patients cur ∨ pid ∈ patient_id <$> new_patients c.
Proof.
  unfold create_patients. intros Ec.
  apply CommonFacts.bind_Ok in Ec as (L & _ & Ec). injection Ec as <-.
  intros i pid H. apply create_loop_values in H.
  - destruct H as [[e He]|H]; [|by right]. left.
    apply IdentityProofs.select_existing_patients_sound in He as (x & Hx & _ & <-).
    apply list_elem_of_fmap. eauto.
  - simpl. intros i' pid' H'. by rewrite lookup_empty in H'.
Qed.

(** The result of patient creation: the patients are those stored plus
    the new ones, every id of the map is the id of a patient of the cursor
    state, and nothing else has moved. *)
Lemma bulk_create_patients_inv env batch cur p pm cur1 p1 :
  _bulk_create_patients env batch cur p = (Ok (pm, cur1), p1) →
  ∃ added,
    cur1 = with_patients (patients cur ++ added) cur
    ∧ (NoDup (patient_id <$> patients cur) →
       NoDup (patient_id <$> (patients cur ++ added)))
    ∧ (∀ i pid, pm !! i = Some pid →
                pid ∈ patient_id <$> (patients cur ++ added)).
Proof.
  unfold _bulk_create_patients.
  destruct (unique_patients_of batch) as [|u us] eqn:Eu.
  { intros H. injection H as <- <- <-. exists []. rewrite app_nil_r.
    split; [by destruct cur|]. split; [done|]. intros i pid H.
    by rewrite lookup_empty in H. }
  destruct (create_patients env cur (u :: us)) as [c|e] eqn:Ec; [|discriminate].
  pose proof (λ i pid, create_patients_values _ _ _ _ Ec i pid) as Hval.
  destruct (new_patients c) as [|x xs] eqn:En.
  { intros H. injection H as <- <- <-. exists []. rewrite app_nil_r.
    split; [by destruct cur|]. split; [done|]. intros i pid H.
    destruct (Hval i pid H) as [?|Hin]; [done|]. by apply elem_of_nil in Hin. }
  destruct (insert_patients (x :: xs) (patients cur)) as [tbl|e] eqn:Ei; simpl;
    [|discriminate].
  intros H. injection H as <- <- <-.
  apply insert_patients_inv in Ei as [-> Hnd]. exists (x :: xs).
  split; [done|]. split; [done|]. intros i pid H.
  rewrite fmap_app. apply elem_of_app. exact (Hval i pid H).
Qed.

Lemma random_choices_elem env bn population k sample f :
  random_choices env bn population k = Ok sample → f ∈ sample → f ∈ population.
Proof.
  unfold random_choices. destruct population as [|x pop].
  - destruct k; [|discriminate]. intros H. injection H as <-.
    intros Hf. by apply elem_of_nil in Hf.
  - intros H. injection H as <-. intros Hf.
    apply list_elem_of_fmap in Hf as (i & -> & _).
    destruct ((x :: pop) !! _) as [y|] eqn:E; simpl.
    + apply list_elem_of_lookup. eauto.
    + apply list_elem_of_here.
Qed.

Lemma build_encounter_map_values batch k v :
  build_encounter_map batch !! k = Some v →
  ∃ t, t ∈ batch ∧ v = encounter_id_of (row_image_index (src t)).
Proof.
  unfold build_encounter_map. revert k v.
  apply (CommonFacts.foldl_invariant
           (λ m : gmap string string,
              ∀ k v, m !! k = Some v →
                     ∃ t, t ∈ batch ∧ v = encounter_id_of (row_image_index (src t)))).
  - intros m t Ht IH k v. rewrite lookup_insert. case_decide as Hk; [|apply IH].
    intros Hv. injection Hv as <-. eauto.
  - intros k v H. by rewrite lookup_empty in H.
Qed.

Lemma build_encounter_fields env bn pm sample idx t e :
  build_encounter env bn pm sample idx t = Ok e →
  encounter_id e = encounter_id_of (row_image_index (src t))
  ∧ pm !! row_patient_id (src t) = Some (enc_patient_id e)
  ∧ enc_facility_id e ∈ sample.
Proof.
  unfold build_encounter, getitem. intros H.
  apply CommonFacts.bind_Ok in H as (pid & Hpid & H).
  apply CommonFacts.bind_Ok in H as (fid & Hfid & H). injection H as <-. simpl.
  destruct (pm !! _) as [pid'|]; [|discriminate]. injection Hpid as ->.
  destruct (sample !! idx) as [f|] eqn:Ef; [|discriminate]. injection Hfid as ->.
  split; [done|]. split; [done|]. apply list_elem_of_lookup. eauto.
Qed.

Lemma elem_of_imap_pair {A} (l : list A) (x : A) :
  x ∈ l → ∃ i, (i, x) ∈ imap (λ i t, (i, t)) l.
Proof.
  intros Hx. apply list_elem_of_lookup in Hx as [i Hi]. exists i.
  apply list_elem_of_lookup. exists i. by rewrite list_lookup_imap, Hi.
Qed.

(** The encounter of every row of the batch is in the table after the
    insert, whether the row has added it or conflicted with it. *)
Lemma batch_encounters_stored env bn pm sample batch encs tbl t :
  mapM (λ x : nat * trow, build_encounter env bn pm sample x.1 x.2)
       (imap (λ i t, (i, t)) batch) = Ok encs →
  t ∈ batch →
  encounter_id_of (row_image_index (src t))
    ∈ encounter_id <$> insert_encounters encs tbl.
Proof.
  intros Hm Ht. destruct (elem_of_imap_pair _ _ Ht) as [i Hi].
  destruct (CommonFacts.mapM_Ok_elem_l _ _ _ _ Hm Hi) as (e & He & Hb).
  simpl in Hb. apply build_encounter_fields in Hb as (<- & _).
  destruct (insert_encounters_inv encs tbl) as (_ & _ & Hin & _). by apply Hin.
Qed.

Lemma diagnoses_for_row_elem cache eid t x :
  x ∈ diagnoses_for_row cache eid t →
  ed_encounter_id x = eid ∧ ∃ code, cache !! code = Some (ed_diagnosis_id x).
Proof.
  unfold diagnoses_for_row. intros Hx.
  apply list_elem_of_omap in Hx as ([i l] & _ & Hx). simpl in Hx.
  unfold resolve_label in Hx.
  destruct (NIH_TO_ICD10_MAPPING !! strip l) as [[icd nm]|]; [|discriminate].
  destruct (cache !! icd) as [did|] eqn:Ec; [|discriminate].
  destruct (decide (did = "")); [discriminate|]. injection Hx as <-. simpl. eauto.
Qed.

(** The tables a successful batch leaves, in terms of the rows it built. *)
Lemma load_steps_2_5_shape env bn batch pm cur p cur' p' :
  load_steps_2_5 env bn batch pm cur p = (Ok cur', p') →
  ∃ sample encs procs edss reps,
    random_choices env bn (facility_ids p) (length batch) = Ok sample
    ∧ mapM (λ x : nat * trow, build_encounter env bn pm sample x.1 x.2)
           (imap (λ i t, (i, t)) batch) = Ok encs
    ∧ mapM (build_procedure (build_encounter_map batch)) batch = Ok procs
    ∧ mapM (build_encounter_diagnoses (diagnosis_cache p) (build_encounter_map batch))
           batch = Ok edss
    ∧ mapM (build_report (build_encounter_map batch)) batch = Ok reps
    ∧ patients cur' = patients cur
    ∧ facilities cur' = facilities cur
    ∧ diagnoses cur' = diagnoses cur
    ∧ encounters cur' = insert_encounters encs (encounters cur)
    ∧ (procedures cur', procedure_id_seq cur')
      = insert_procedures procs (procedures cur) (procedure_id_seq cur)
    ∧ encounter_diagnoses cur'
      = insert_encounter_diagnoses (concat edss) (encounter_diagnoses cur)
    ∧ (reports cur', report_id_seq cur')
      = insert_reports reps (reports cur) (report_id_seq cur).
Proof.
  unfold load_steps_2_5.
  destruct (_ ≫= _) as [encs|e] eqn:Eenc; [|discriminate].
  apply CommonFacts.bind_Ok in Eenc as (sample & Es & Eenc).
  destruct (mapM (build_procedure _) batch) as [procs|e] eqn:Eprocs; [|discriminate].
  destruct (insert_procedures procs _ _) as [ptbl pnext] eqn:Eins.
  destruct (mapM (build_encounter_diagnoses _ _) batch) as [edss|e] eqn:Eeds;
    [|discriminate].
  destruct (mapM (build_report _) batch) as [reps|e] eqn:Ereps; [|discriminate].
  destruct (insert_reports reps _ _) as [rtbl rnext] eqn:Erep.
  intros H. injection H as <- <-.
  exists sample, encs, procs, edss, reps. simpl in Eins.
  repeat (split; [done|]).
  destruct (concat edss); simpl in *; by rewrite Erep.
Qed.

Lemma load_batch_shape env bn batch cur p cur' p' :
  _load_batch_optimized env bn batch cur p = (Ok cur', p') →
  ∃ added pm sample encs procs edss reps,
    patients cur' = patients cur ++ added
    ∧ (NoDup (patient_id <$> patients cur) →
       NoDup (patient_id <$> (patients cur ++ added)))
    ∧ (∀ i pid, pm !! i = Some pid → pid ∈ patient_id <$> (patients cur ++ added))
    ∧ random_choices env bn (facility_ids p) (length batch) = Ok sample
    ∧ mapM (λ x : nat * trow, build_encounter env bn pm sample x.1 x.2)
           (imap (λ i t, (i, t)) batch) = Ok encs
    ∧ mapM (build_procedure (build_encounter_map batch)) batch = Ok procs
    ∧ mapM (build_encounter_diagnoses (diagnosis_cache p) (build_encounter_map batch))
           batch = Ok edss
    ∧ mapM (build_report (build_encounter_map batch)) batch = Ok reps
    ∧ facilities cur' = facilities cur
    ∧ diagnoses cur' = diagnoses cur
    ∧ encounters cur' = insert_encounters encs (encounters cur)
    ∧ (procedures cur', procedure_id_seq cur')
      = insert_procedures procs (procedures cur) (procedure_id_seq cur)
    ∧ encounter_diagnoses cur'
      = insert_encounter_diagnoses (concat edss) (encounter_diagnoses cur)
    ∧ (reports cur', report_id_seq cur')
      = insert_reports reps (reports cur) (report_id_seq cur).
Proof.
  unfold _load_batch_optimized.
  destruct (_bulk_create_patients env batch cur p) as [[[pm cur1]|e] p1] eqn:E;
    [|discriminate].
  intros H. apply load_steps_2_5_shape in H
    as (sample & encs & procs & edss & reps & Hs & He & Hp & Hd & Hr
        & H1 & H2 & H3 & H4 & H5 & H6 & H7).
  destruct (BatchProofs.bulk_create_patients_pipeline _ _ _ _ _ _ E)
    as (_ & Hf & Hc & _).
  apply bulk_create_patients_inv in E as (added & -> & Hnd & Hpm).
  rewrite Hf in Hs. rewrite Hc in Hd. simpl in *.
  exists added, pm, sample, encs, procs, edss, reps. repeat (split; [done|]). done.
Qed.

Lemma load_batch_pipeline env bn batch cur p r p' :
  _load_batch_optimized env bn batch cur p = (r, p') →
  db p' = db p ∧ facility_ids p' = facility_ids p
  ∧ diagnosis_cache p' = diagnosis_cache p.
Proof.
  unfold _load_batch_optimized.
  destruct (_bulk_create_patients env batch cur p) as [[[pm cur1]|e] p1] eqn:E;
    apply BatchProofs.bulk_create_patients_pipeline in E as (<- & <- & <- & _);
    [|intros H; by injection H as <- <-].
  unfold load_steps_2_5.
  destruct (_ ≫= _) as [encs|e]; [|intros H; by injection H as <- <-].
  destruct (mapM (build_procedure _) batch) as [procs|e];
    [|intros H; by injection H as <- <-].
  destruct (insert_procedures procs _ _) as [ptbl pnext].
  destruct (mapM (build_encounter_diagnoses _ _) batch) as [edss|e];
    [|intros H; by injection H as <- <-].
  destruct (mapM (build_report _) batch) as [reps|e];
    [|intros H; injection H as <- <-; by destruct (concat edss)].
  destruct (insert_reports reps _ _) as [rtbl rnext].
  intros H; injection H as <- <-; by destruct (concat edss).
Qed.

(** *** One batch *)

Lemma batch_keys_unique env bn batch cur p cur' p' :
  _load_batch_optimized env bn batch cur p = (Ok cur', p') →
  keys_unique cur → keys_unique cur'.
Proof.
  intros H [K1 K2 K3 K4 K5 K6 K7 K8].
  apply load_batch_shape in H
    as (added & pm & sample & encs & procs & edss & reps & Hpat & Hnd & _ & _ & _
        & _ & _ & _ & _ & _ & Henc & Hproc & Heds & Hrep).
  pose proof (insert_procedures_inv procs (procedures cur) (procedure_id_seq cur))
    as (_ & _ & P1).
  pose proof (insert_procedures_ids procs _ _ K4 K5) as (P2 & P3).
  pose proof (insert_reports_ids reps _ _ K7 K8) as (R2 & R3).
  cbv zeta in *. rewrite <- Hproc in P1, P2, P3. rewrite <- Hrep in R2, R3.
  simpl in *. constructor; try done.
  - rewrite Hpat. auto.
  - rewrite Henc. by apply insert_encounters_inv.
  - auto.
  - rewrite Heds. by apply insert_encounter_diagnoses_inv.
Qed.

Lemma batch_append_only env bn batch cur p cur' p' :
  _load_batch_optimized env bn batch cur p = (Ok cur', p') → append_only cur cur'.
Proof.
  intros H.
  apply load_batch_shape in H
    as (added & pm & sample & encs & procs & edss & reps & Hpat & _ & _ & _ & _
        & _ & _ & _ & Hfac & Hdiag & Henc & Hproc & Heds & Hrep).
  pose proof (insert_procedures_inv procs (procedures cur) (procedure_id_seq cur))
    as ((pa & P1 & _) & _).
  pose proof (insert_reports_inv reps (reports cur) (report_id_seq cur))
    as ((ra & R1 & _) & _).
  destruct (insert_encounters_inv encs (encounters cur)) as ((ea & E1 & _) & _).
  destruct (insert_encounter_diagnoses_inv (concat edss) (encounter_diagnoses cur))
    as ((da & D1 & _) & _).
  cbv zeta in *. rewrite <- Hproc in P1. rewrite <- Hrep in R1. simpl in *.
  unfold append_only. rewrite Hpat, Henc, E1, P1, Heds, D1, R1.
  repeat (split; [by eexists|]). done.
Qed.

Lemma batch_references env bn batch cur p cur' p' :
  _load_batch_optimized env bn batch cur p = (Ok cur', p') →
  caches_from p cur → references_resolve cur → references_resolve cur'.
Proof.
  intros H [Cf Cd] [F1 F2 F3 F4 F5 F6].
  apply load_batch_shape in H
    as (added & pm & sample & encs & procs & edss & reps & Hpat & _ & Hpm & Hs & He
        & Hp & Hd & Hr & Hfac & Hdiag & Henc & Hproc & Heds & Hrep).
  pose proof (insert_procedures_inv procs (procedures cur) (procedure_id_seq cur))
    as ((pa & P1 & P2) & _).
  pose proof (insert_reports_inv reps (reports cur) (report_id_seq cur))
    as ((ra & R1 & R2) & _).
  destruct (insert_encounters_inv encs (encounters cur))
    as ((ea & E1 & E2) & _ & _ & E4).
  destruct (insert_encounter_diagnoses_inv (concat edss) (encounter_diagnoses cur))
    as ((da & D1 & D2) & _).
  cbv zeta in *. rewrite <- Hproc in P1, P2. rewrite <- Hrep in R1, R2. simpl in *.
  assert (Hmap : ∀ k eid, build_encounter_map batch !! k = Some eid →
                          eid ∈ encounter_id <$> encounters cur').
  { intros k eid Hk. apply build_encounter_map_values in Hk as (t & Ht & ->).
    rewrite Henc. eapply batch_encounters_stored; eauto. }
  assert (Hold : ∀ i, i ∈ encounter_id <$> encounters cur →
                      i ∈ encounter_id <$> encounters cur').
  { intros i Hi. rewrite Henc. by apply E4. }
  constructor.
  - intros e Hin. rewrite Hpat, fmap_app. rewrite Henc, E1 in Hin.
    apply elem_of_app in Hin as [Hin|Hin].
    + apply elem_of_app. left. by apply F1.
    + apply E2 in Hin.
      destruct (CommonFacts.mapM_Ok_elem _ _ _ _ He Hin) as ([i t] & _ & Hb).
      simpl in Hb. apply build_encounter_fields in Hb as (_ & Hb & _).
      rewrite <- fmap_app. by eapply Hpm.
  - intros e Hin. rewrite Hfac. rewrite Henc, E1 in Hin.
    apply elem_of_app in Hin as [Hin|Hin]; [by apply F2|].
    apply E2 in Hin.
    destruct (CommonFacts.mapM_Ok_elem _ _ _ _ He Hin) as ([i t] & _ & Hb).
    simpl in Hb. apply build_encounter_fields in Hb as (_ & _ & Hb).
    apply Cf. by eapply random_choices_elem.
  - intros x Hin. rewrite P1 in Hin.
    apply elem_of_app in Hin as [Hin|Hin]; [by apply Hold, F3|].
    destruct (P2 x Hin) as ((x0 & Hx0 & ->) & _).
    destruct (CommonFacts.mapM_Ok_elem _ _ _ _ Hp Hx0) as (t & _ & Hb).
    unfold build_procedure, getitem in Hb.
    apply CommonFacts.bind_Ok in Hb as (eid & Heid & Hb). injection Hb as <-. simpl.
    destruct (build_encounter_map batch !! _) as [eid'|] eqn:Em; [|discriminate].
    injection Heid as ->. by eapply Hmap.
  - intros x Hin. rewrite Heds, D1 in Hin.
    apply elem_of_app in Hin as [Hin|Hin]; [by apply Hold, F4|].
    apply D2, CommonFacts.elem_of_concat in Hin as (l & Hx & Hl).
    destruct (CommonFacts.mapM_Ok_elem _ _ _ _ Hd Hl) as (t & _ & Hb).
    unfold build_encounter_diagnoses, getitem in Hb.
    apply CommonFacts.bind_Ok in Hb as (eid & Heid & Hb). injection Hb as <-.
    apply diagnoses_for_row_elem in Hx as (-> & _).
    destruct (build_encounter_map batch !! _) as [eid'|] eqn:Em; [|discriminate].
    injection Heid as ->. by eapply Hmap.
  - intros x Hin. rewrite Hdiag. rewrite Heds, D1 in Hin.
    apply elem_of_app in Hin as [Hin|Hin]; [by apply F5|].
    apply D2, CommonFacts.elem_of_concat in Hin as (l & Hx & Hl).
    destruct (CommonFacts.mapM_Ok_elem _ _ _ _ Hd Hl) as (t & _ & Hb).
    unfold build_encounter_diagnoses, getitem in Hb.
    apply CommonFacts.bind_Ok in Hb as (eid & Heid & Hb). injection Hb as <-.
    apply diagnoses_for_row_elem in Hx as (_ & code & Hc). by eapply Cd.
  - intros x Hin. rewrite R1 in Hin.
    apply elem_of_app in Hin as [Hin|Hin]; [by apply Hold, F6|].
    destruct (R2 x Hin) as ((x0 & Hx0 & ->) & _).
    destruct (CommonFacts.mapM_Ok_elem _ _ _ _ Hr Hx0) as (t & _ & Hb).
    unfold build_report, getitem in Hb.
    apply CommonFacts.bind_Ok in Hb as (eid & Heid & Hb). injection Hb as <-. simpl.
    destruct (build_encounter_map batch !! _) as [eid'|] eqn:Em; [|discriminate].
    injection Heid as ->. by eapply Hmap.
Qed.

(** *** The whole load *)

(** A property of the store that every successful batch keeps holds of
    the committed state when [load_batches] returns, with or without an
    error. *)
Lemma load_batches_invariant (I : opdb → Prop) env df fids cache :
  (∀ bn batch cur p cur' p',
     facility_ids p = fids → diagnosis_cache p = cache →
     _load_batch_optimized env bn batch cur p = (Ok cur', p') → I cur → I cur') →
  ∀ nums cur p,
    db p = cur → facility_ids p = fids → diagnosis_cache p = cache → I cur →
    I (db (load_batches env df nums cur p).2).
Proof.
  intros Hstep. induction nums as [|bn nums IH]; intros cur p Hdb Hf Hc HI.
  - simpl. by rewrite Hdb.
  - rewrite BatchProofs.load_batches_cons.
    destruct (_load_batch_optimized env bn (slice df bn) cur p)
      as [[cur'|e] p'] eqn:E.
    + destruct (load_batch_pipeline _ _ _ _ _ _ _ E) as (_ & Hf' & Hc').
      apply IH; simpl; [done|congruence|congruence|]. eapply Hstep; eauto.
    + destruct (load_batch_pipeline _ _ _ _ _ _ _ E) as (Hdb' & _ & _).
      simpl. by rewrite Hdb', Hdb.
Qed.

Lemma load_invariant (I : opdb → Prop) env dft p :
  (∀ bn batch cur p0 cur' p',
     facility_ids p0 = facility_ids p → diagnosis_cache p0 = diagnosis_cache p →
     _load_batch_optimized env bn batch cur p0 = (Ok cur', p') → I cur → I cur') →
  I (db p) → I (db (load env dft p).2).
Proof.
  intros Hstep HI. unfold load. destruct dft as [[|t l]|]; try done.
  by apply (load_batches_invariant I env (t :: l) (facility_ids p) (diagnosis_cache p)).
Qed.

Lemma transform_caches env df p :
  facility_ids (transform env df p).2 = facility_ids p
  ∧ diagnosis_cache (transform env df p).2 = diagnosis_cache p.
Proof.
  unfold transform.
  repeat match goal with |- context [if ?b then _ else _] => destruct b end;
    done.
Qed.

Lemma run_invariant (I : opdb → Prop) env df p :
  (∀ bn batch cur p0 cur' p',
     facility_ids p0 = facility_ids p → diagnosis_cache p0 = diagnosis_cache p →
     _load_batch_optimized env bn batch cur p0 = (Ok cur', p') → I cur → I cur') →
  I (db p) → I (db (run env df p).2).
Proof.
  intros Hstep HI. unfold run.
  pose proof (IdempotencyProofs.transform_db env df p) as Hdb.
  destruct (transform_caches env df p) as [Hf Hc].
  destruct (transform env df p) as [[dft|] p1]; cbn [snd] in Hdb, Hf, Hc;
    cbv beta iota; [|simpl; by rewrite Hdb].
  apply (load_invariant I); [|by rewrite Hdb].
  intros bn batch cur p0 cur' p' Hf0 Hc0. apply Hstep; congruence.
Qed.

Lemma append_only_refl d : append_only d d.
Proof. by repeat split. Qed.

Lemma append_only_trans d1 d2 d3 :
  append_only d1 d2 → append_only d2 d3 → append_only d1 d3.
Proof.
  intros (A1 & A2 & A3 & A4 & A5 & A6 & A7) (B1 & B2 & B3 & B4 & B5 & B6 & B7).
  repeat split; try (by etrans); congruence.
Qed.

Lemma load_diagnosis_cache_sound d code did :
  _load_diagnosis_cache d !! code = Some did →
  ∃ x, x ∈ diagnoses d ∧ diagnosis_code x = code ∧ diagnosis_id x = did.
Proof.
  unfold _load_diagnosis_cache. revert code did.
  apply (CommonFacts.foldl_invariant
           (λ m : gmap string string,
              ∀ code did, m !! code = Some did →
                ∃ x, x ∈ diagnoses d ∧ diagnosis_code x = code ∧ diagnosis_id x = did)).
  - intros m x Hx IH code did. rewrite lookup_insert. case_decide as Hk; [|apply IH].
    intros Hv. injection Hv as <-. eauto.
  - intros code did H. by rewrite lookup_empty in H.
Qed.

(** A pipeline built on a store caches reference data of that store. *)
Lemma new_pipeline_caches incr d : caches_from (NIH_ETL_Pipeline incr d) d.
Proof.
  split; simpl.
  - intros f Hf. unfold _load_facility_ids in Hf.
    apply list_elem_of_fmap in Hf as (x & -> & Hx).
    apply list_elem_of_filter in Hx as [_ Hx]. apply list_elem_of_fmap. eauto.
  - intros code did H. apply load_diagnosis_cache_sound in H as (x & Hx & _ & <-).
    apply list_elem_of_fmap. eauto.
Qed.

(** X6.  Whatever a run does, batches committed or an error raised in the
    middle, the store it leaves satisfies the uniqueness constraints of
    the schema if the store it started from did: patient, encounter,
    procedure and report keys are unique, so are the (encounter,
    procedure code) and (encounter, diagnosis) pairs, and both sequences
    stay ahead of the keys they issued. *)
Theorem run_keeps_keys_unique (env : environment) (df : list nih_row)
    (p : pipeline) :
  keys_unique (db p) → keys_unique (db (run env df p).2).
Proof.
  apply (run_invariant keys_unique).
  intros bn batch cur p0 cur' p' _ _. apply batch_keys_unique.
Qed.

Lemma run_keeps_keys_unique_witness :
  keys_unique db_scenario
  ∧ keys_unique (db (run env0 df0 (NIH_ETL_Pipeline true db_scenario)).2).
Proof.
  assert (H : keys_unique db_scenario)
    by (constructor; apply (bool_decide_unpack _); vm_compute; exact I).
  split; [exact H|].
  exact (run_keeps_keys_unique env0 df0 (NIH_ETL_Pipeline true db_scenario) H).
Defined.

(** X7.  A run only appends: each table of the store it leaves starts
    with the rows the table had before, in the same order, and the
    facility and diagnosis catalogs are untouched. *)
Theorem run_appends_only (env : environment) (df : list nih_row) (p : pipeline) :
  append_only (db p) (db (run env df p).2).
Proof.
  apply (run_invariant (append_only (db p))); [|apply append_only_refl].
  intros bn batch cur p0 cur' p' _ _ H Hcur.
  eapply append_only_trans; [exact Hcur|]. by eapply batch_append_only.
Qed.

(** X8.  A run of a pipeline created on a store whose references all
    resolve leaves a store whose references all resolve: every encounter
    names a stored patient and facility, every procedure, diagnosis
    assignment and report names a stored encounter, and every assignment
    a diagnosis of the catalog. *)
Theorem run_keeps_references (env : environment) (df : list nih_row)
    (incr : bool) (d : opdb) :
  references_resolve d →
  references_resolve (db (run env df (NIH_ETL_Pipeline incr d)).2).
Proof.
  intros Hd.
  pose proof (run_invariant
                (λ cur, references_resolve cur ∧ facilities cur = facilities d
                        ∧ diagnoses cur = diagnoses d)
                env df (NIH_ETL_Pipeline incr d)) as H.
  apply H; [|done].
  intros bn batch cur p0 cur' p' Hf Hc Hb (Hr & Hfac & Hdiag).
  destruct (batch_append_only _ _ _ _ _ _ _ Hb) as (_ & _ & _ & _ & _ & Af & Ad).
  split; [|split; congruence].
  eapply batch_references; [exact Hb| |exact Hr].
  destruct (new_pipeline_caches incr d) as [Cf Cd]. split.
  - intros f Hin. rewrite Hf in Hin. rewrite Hfac. by apply Cf.
  - intros code did Hin. rewrite Hc in Hin. rewrite Hdiag. by eapply Cd.
Qed.

Lemma run_keeps_references_witness :
  references_resolve db_scenario
  ∧ references_resolve (db (run env0 df0 (NIH_ETL_Pipeline true db_scenario)).2).
Proof.
  assert (H : references_resolve db_scenario)
    by (constructor; apply Forall_forall; apply (bool_decide_unpack _); vm_compute;
        exact I).
  split; [exact H|].
  exact (run_keeps_references env0 df0 true db_scenario H).
Defined.

End StoreProofs.

(** ** Counters and row counts of a batch *)

Module CounterProofs.
Import PyStr Common Schema Loader Examples.

Lemma mapM_length {A B} (f : A → result B) (l : list A) rows :
  mapM f l = Ok rows → length rows = length l.
Proof.
  intros H. apply CommonFacts.mapM_Ok in H. symmetry. by eapply Forall2_length.
Qed.

Lemma insert_encounters_length rows : ∀ tbl,
  (length (insert_encounters rows tbl) ≤ length tbl + length rows)%nat.
Proof.
  induction rows as [|x rows IH]; intros tbl; simpl; [lia|].
  unfold insert_encounters in *. simpl.
  destruct (decide (encounter_id x ∈ encounter_id <$> tbl)).
  - specialize (IH tbl). lia.
  - specialize (IH (tbl ++ [x])). rewrite length_app in IH. simpl in IH. lia.
Qed.

Lemma insert_procedures_length rows : ∀ tbl next,
  let out := insert_procedures rows tbl next in
  (length out.1 ≤ length tbl + length rows)%nat
  ∧ out.2 = next + Z.of_nat (length rows).
Proof.
  induction rows as [|x rows IH]; intros tbl next; cbv zeta.
  - simpl. split; lia.
  - unfold insert_procedures in *. simpl foldl.
    destruct (decide (Exists (same_procedure_key x) tbl)).
    + destruct (IH tbl (next + 1)) as [I1 I2]. split; [simpl; lia|].
      rewrite I2. simpl length. lia.
    + match goal with |- context [foldl _ (tbl ++ [?r], _) rows] => set (row := r) end.
      destruct (IH (tbl ++ [row]) (next + 1)) as [I1 I2].
      rewrite length_app in I1. simpl in I1. split; [simpl; lia|].
      rewrite I2. simpl length. lia.
Qed.

Lemma insert_reports_length rows : ∀ tbl next,
  let out := insert_reports rows tbl next in
  length out.1 = (length tbl + length rows)%nat
  ∧ out.2 = next + Z.of_nat (length rows).
Proof.
  induction rows as [|x rows IH]; intros tbl next; cbv zeta.
  - simpl. split; lia.
  - unfold insert_reports in *. simpl foldl.
    match goal with |- context [foldl _ (tbl ++ [?r], _) rows] => set (row := r) end.
    destruct (IH (tbl ++ [row]) (next + 1)) as [I1 I2].
    rewrite length_app in I1. simpl in I1. split; [simpl; lia|].
    rewrite I2. simpl length. lia.
Qed.

(** The loop counts one creation per new patient row. *)
Lemma create_loop_created env existing rows : ∀ c0,
  created c0 = length (new_patients c0) →
  let c := foldl (create_step env existing) c0 rows in
  created c = length (new_patients c).
Proof.
  intros c0 H0. cbv zeta.
  apply (CommonFacts.foldl_invariant (λ c, created c = length (new_patients c)));
    [|exact H0].
  intros c [[nih_id a] g] _ IH. unfold create_step.
  destruct (existing !! email_of nih_id); simpl; [done|].
  rewrite length_app. simpl. lia.
Qed.

Lemma create_patients_created env cur ups c :
  create_patients env cur ups = Ok c → created c = length (new_patients c).
Proof.
  unfold create_patients. intros Ec.
  apply CommonFacts.bind_Ok in Ec as (L & _ & Ec). injection Ec as <-.
  by apply create_loop_created.
Qed.

Lemma add_patients_created_0 s : add_patients_created 0 s = s.
Proof. destruct s. unfold add_patients_created. simpl. by rewrite Nat.add_0_r. Qed.

(** What patient creation does to the counters and to the table. *)
Lemma bulk_create_patients_stats env batch cur p pm cur1 p1 :
  _bulk_create_patients env batch cur p = (Ok (pm, cur1), p1) →
  ∃ n, stats p1 = add_patients_created n (stats p)
       ∧ length (patients cur1) = (length (patients cur) + n)%nat
       ∧ encounters cur1 = encounters cur ∧ procedures cur1 = procedures cur
       ∧ reports cur1 = reports cur
       ∧ procedure_id_seq cur1 = procedure_id_seq cur
       ∧ report_id_seq cur1 = report_id_seq cur.
Proof.
  unfold _bulk_create_patients.
  destruct (unique_patients_of batch) as [|u us] eqn:Eu.
  { intros H. injection H as <- <- <-. exists 0%nat.
    split; [by rewrite add_patients_created_0|]. split; [lia|done]. }
  destruct (create_patients env cur (u :: us)) as [c|e] eqn:Ec; [|discriminate].
  apply create_patients_created in Ec.
  destruct (new_patients c) as [|x xs] eqn:En.
  { intros H. injection H as <- <- <-. exists 0%nat. simpl in Ec. rewrite Ec.
    split; [simpl; by rewrite add_patients_created_0|]. split; [lia|done]. }
  destruct (insert_patients (x :: xs) (patients cur)) as [tbl|e] eqn:Ei; simpl;
    [|discriminate].
  intros H. injection H as <- <- <-.
  apply StoreProofs.insert_patients_inv in Ei as [-> _].
  exists (created c). split; [done|]. split; [|done].
  simpl. rewrite length_app, Ec. done.
Qed.

Lemma load_steps_2_5_stats env bn batch pm cur p cur' p' :
  load_steps_2_5 env bn batch pm cur p = (Ok cur', p') →
  patients_created (stats p') = patients_created (stats p)
  ∧ encounters_created (stats p') = (encounters_created (stats p) + length batch)%nat
  ∧ procedures_created (stats p') = (procedures_created (stats p) + length batch)%nat
  ∧ reports_created (stats p') = (reports_created (stats p) + length batch)%nat
  ∧ records_processed (stats p') = records_processed (stats p)
  ∧ records_skipped (stats p') = records_skipped (stats p).
Proof.
  unfold load_steps_2_5.
  destruct (_ ≫= _) as [encs|e] eqn:Eenc; [|discriminate].
  apply CommonFacts.bind_Ok in Eenc as (sample & Es & Eenc).
  apply mapM_length in Eenc. rewrite length_imap in Eenc.
  destruct (mapM (build_procedure _) batch) as [procs|e] eqn:Eprocs; [|discriminate].
  apply mapM_length in Eprocs.
  destruct (insert_procedures procs _ _) as [ptbl pnext] eqn:Eins.
  destruct (mapM (build_encounter_diagnoses _ _) batch) as [edss|e] eqn:Eeds;
    [|discriminate].
  destruct (mapM (build_report _) batch) as [reps|e] eqn:Ereps; [|discriminate].
  apply mapM_length in Ereps.
  destruct (insert_reports reps _ _) as [rtbl rnext] eqn:Erep.
  intros H. injection H as <- <-.
  destruct (concat edss); simpl; repeat split; lia.
Qed.

(** X9.  After a batch that ended without error: [patients_created] has
    grown by the number of rows added to [patients]; the encounter,
    procedure and report counters have each grown by the size of the
    batch, which is the number of rows submitted and an upper bound only
    on the rows added to [encounters] and [procedures]; the reports table
    has grown by exactly the size of the batch; and both sequences have
    advanced by the size of the batch, conflicting procedure rows
    included. *)
Theorem batch_counts_submitted_rows (env : environment) (bn : nat)
    (batch : list trow) (cur cur' : opdb) (p p' : pipeline) :
  _load_batch_optimized env bn batch cur p = (Ok cur', p') →
  (patients_created (stats p') + length (patients cur)
   = patients_created (stats p) + length (patients cur'))%nat
  ∧ encounters_created (stats p') = (encounters_created (stats p) + length batch)%nat
  ∧ procedures_created (stats p') = (procedures_created (stats p) + length batch)%nat
  ∧ reports_created (stats p') = (reports_created (stats p) + length batch)%nat
  ∧ (length (encounters cur') ≤ length (encounters cur) + length batch)%nat
  ∧ (length (procedures cur') ≤ length (procedures cur) + length batch)%nat
  ∧ length (reports cur') = (length (reports cur) + length batch)%nat
  ∧ procedure_id_seq cur' = procedure_id_seq cur + Z.of_nat (length batch)
  ∧ report_id_seq cur' = report_id_seq cur + Z.of_nat (length batch).
Proof.
  unfold _load_batch_optimized.
  destruct (_bulk_create_patients env batch cur p) as [[[pm cur1]|e] p1] eqn:E;
    [|discriminate].
  intros H.
  apply bulk_create_patients_stats in E
    as (n & Hst & Hlen & He & Hp & Hr & Hps & Hrs).
  pose proof (load_steps_2_5_stats _ _ _ _ _ _ _ _ H) as (S1 & S2 & S3 & S4 & _).
  apply StoreProofs.load_steps_2_5_shape in H
    as (sample & encs & procs & edss & reps & _ & Menc & Mproc & _ & Mrep
        & Hpat & _ & _ & Henc & Hproc & _ & Hrep).
  apply mapM_length in Menc, Mproc, Mrep. rewrite length_imap in Menc.
  pose proof (insert_encounters_length encs (encounters cur1)) as L1.
  pose proof (insert_procedures_length procs (procedures cur1) (procedure_id_seq cur1))
    as [L2 L3].
  pose proof (insert_reports_length reps (reports cur1) (report_id_seq cur1))
    as [L4 L5].
  cbv zeta in *. rewrite <- Hproc in L2, L3. rewrite <- Hrep in L4, L5.
  rewrite <- Henc in L1. simpl in L2, L3, L4, L5.
  rewrite Hst in S1, S2, S3, S4. simpl in S1, S2, S3, S4.
  rewrite Hpat, Hlen, S1, S2, S3, S4, L3, L4, L5, Hps, Hrs, Hr, Mproc, Mrep.
  rewrite He, Menc in L1. rewrite Hp, Mproc in L2.
  repeat split; try done; lia.
Qed.

Lemma batch_counts_submitted_rows_witness :
  let p := NIH_ETL_Pipeline true db0 in
  let out := _load_batch_optimized env0 0 batch0 db0 p in
  let cur' := default db0 (match out.1 with Ok c => Some c | Raise _ => None end) in
  (patients_created (stats out.2) + length (patients db0)
   = patients_created (stats p) + length (patients cur'))%nat
  ∧ encounters_created (stats out.2) = (encounters_created (stats p) + length batch0)%nat
  ∧ procedures_created (stats out.2) = (procedures_created (stats p) + length batch0)%nat
  ∧ reports_created (stats out.2) = (reports_created (stats p) + length batch0)%nat
  ∧ (length (encounters cur') ≤ length (encounters db0) + length batch0)%nat
  ∧ (length (procedures cur') ≤ length (procedures db0) + length batch0)%nat
  ∧ length (reports cur') = (length (reports db0) + length batch0)%nat
  ∧ procedure_id_seq cur' = procedure_id_seq db0 + Z.of_nat (length batch0)
  ∧ report_id_seq cur' = report_id_seq db0 + Z.of_nat (length batch0).
Proof.
  apply (batch_counts_submitted_rows env0 0 batch0 db0).
  vm_compute. reflexivity.
Defined.

End CounterProofs.

(** ** Loading a frame again without the incremental filter *)

Module ReloadProofs.
Import PyStr Common Schema Loader Examples.

(** *** Inserts that find every row *)

Lemma Exists_same_procedure_key x tbl :
  Exists (same_procedure_key x) tbl ↔ procedure_pair x ∈ procedure_pair <$> tbl.
Proof.
  rewrite Exists_exists. unfold same_procedure_key, procedure_pair. split.
  - intros (y & Hy & -> & ->). apply list_elem_of_fmap. eauto.
  - intros H. apply list_elem_of_fmap in H as (y & Hp & Hy).
    injection Hp as -> ->. eauto.
Qed.

Lemma Exists_same_assignment x tbl :
  Exists (same_assignment x) tbl ↔ assignment_pair x ∈ assignment_pair <$> tbl.
Proof.
  rewrite Exists_exists. unfold same_assignment, assignment_pair. split.
  - intros (y & Hy & -> & ->). apply list_elem_of_fmap. eauto.
  - intros H. apply list_elem_of_fmap in H as (y & Hp & Hy).
    injection Hp as -> ->. eauto.
Qed.

Lemma insert_encounters_none rows tbl :
  (∀ x, x ∈ rows → encounter_id x ∈ encounter_id <$> tbl) →
  insert_encounters rows tbl = tbl.
Proof.
  induction rows as [|x rows IH]; intros H; [done|].
  unfold insert_encounters in *. simpl.
  rewrite decide_True by (apply H, list_elem_of_here).
  apply IH. intros y Hy. by apply H, list_elem_of_further.
Qed.

Lemma insert_procedures_none rows tbl : ∀ next,
  (∀ x, x ∈ rows → procedure_pair x ∈ procedure_pair <$> tbl) →
  (insert_procedures rows tbl next).1 = tbl.
Proof.
  induction rows as [|x rows IH]; intros next H; [done|].
  unfold insert_procedures in *. simpl.
  rewrite decide_True by (apply Exists_same_procedure_key, H, list_elem_of_here).
  apply IH. intros y Hy. by apply H, list_elem_of_further.
Qed.

Lemma insert_encounter_diagnoses_none rows tbl :
  (∀ x, x ∈ rows → assignment_pair x ∈ assignment_pair <$> tbl) →
  insert_encounter_diagnoses rows tbl = tbl.
Proof.
  induction rows as [|x rows IH]; intros H; [done|].
  unfold insert_encounter_diagnoses in *. simpl.
  rewrite decide_True by (apply Exists_same_assignment, H, list_elem_of_here).
  apply IH. intros y Hy. by apply H, list_elem_of_further.
Qed.

(** *** Inserts leave every submitted key in the table *)

Lemma insert_procedures_complete rows : ∀ tbl next,
  (∀ k, k ∈ procedure_pair <$> tbl →
        k ∈ procedure_pair <$> (insert_procedures rows tbl next).1)
  ∧ (∀ x, x ∈ rows →
          procedure_pair x ∈ procedure_pair <$> (insert_procedures rows tbl next).1).
Proof.
  induction rows as [|x rows IH]; intros tbl next.
  - split; [done|]. intros x Hx. by apply elem_of_nil in Hx.
  - unfold insert_procedures. simpl.
    destruct (decide (Exists (same_procedure_key x) tbl)) as [Hex|Hex].
    + destruct (IH tbl (next + 1)) as [I1 I2]. split; [exact I1|].
      intros y Hy. apply elem_of_cons in Hy as [->|Hy]; [|by apply I2].
      by apply I1, Exists_same_procedure_key.
    + match goal with |- context [foldl _ (?t, ?n) rows] =>
        destruct (IH t n) as [I1 I2] end.
      split.
      * intros c Hc. apply I1. rewrite fmap_app. apply elem_of_app. by left.
      * intros y Hy. apply elem_of_cons in Hy as [->|Hy]; [|by apply I2].
        apply I1. rewrite fmap_app. apply elem_of_app. right.
        apply list_elem_of_here.
Qed.

Lemma insert_encounter_diagnoses_complete rows : ∀ tbl,
  (∀ k, k ∈ assignment_pair <$> tbl →
        k ∈ assignment_pair <$> insert_encounter_diagnoses rows tbl)
  ∧ (∀ x, x ∈ rows →
          assignment_pair x ∈ assignment_pair <$> insert_encounter_diagnoses rows tbl).
Proof.
  induction rows as [|x rows IH]; intros tbl.
  - split; [done|]. intros x Hx. by apply elem_of_nil in Hx.
  - unfold insert_encounter_diagnoses. simpl.
    destruct (decide (Exists (same_assignment x) tbl)) as [Hex|Hex].
    + destruct (IH tbl) as [I1 I2]. split; [exact I1|].
      intros y Hy. apply elem_of_cons in Hy as [->|Hy]; [|by apply I2].
      by apply I1, Exists_same_assignment.
    + destruct (IH (tbl ++ [x])) as [I1 I2].
      split.
      * intros c Hc. apply I1. rewrite fmap_app. apply elem_of_app. by left.
      * intros y Hy. apply elem_of_cons in Hy as [->|Hy]; [|by apply I2].
        apply I1. rewrite fmap_app. apply elem_of_app. right.
        apply list_elem_of_here.
Qed.

(** Every row of the batch finds its own encounter id in the map. *)
Lemma foldl_encounter_map batch k : ∀ m : gmap string string,
  m !! k = Some (encounter_id_of k) ∨ (∃ t, t ∈ batch ∧ row_image_index (src t) = k) →
  foldl (λ m t, <[row_image_index (src t) :=
                  encounter_id_of (row_image_index (src t))]> m) m batch !! k
  = Some (encounter_id_of k).
Proof.
  induction batch as [|t0 batch IH]; intros m H; simpl.
  - destruct H as [H|(t & Ht & _)]; [done|by apply elem_of_nil in Ht].
  - apply IH. destruct (decide (row_image_index (src t0) = k)) as [<-|Hne].
    + left. apply lookup_insert_eq.
    + destruct H as [H|(t & Ht & Hk)].
      * left. by rewrite lookup_insert_ne.
      * right. apply elem_of_cons in Ht as [->|Ht]; [done|eauto].
Qed.

Lemma build_encounter_map_lookup batch t :
  t ∈ batch →
  build_encounter_map batch !! row_image_index (src t)
  = Some (encounter_id_of (row_image_index (src t))).
Proof.
  intros Ht. apply foldl_encounter_map. right. eauto.
Qed.

(** *** Patients on a second load *)

Lemma create_loop_emails env existing rows : ∀ c0,
  let c := foldl (create_step env existing) c0 rows in
  (∀ e, e ∈ contact_email <$> new_patients c0 → e ∈ contact_email <$> new_patients c)
  ∧ (∀ row, row ∈ rows →
       is_Some (existing !! email_of row.1.1)
       ∨ email_of row.1.1 ∈ contact_email <$> new_patients c).
Proof.
  induction rows as [|[[nih_id a] g] rows IH]; intros c0; cbv zeta.
  - split; [done|]. intros row Hr. by apply elem_of_nil in Hr.
  - change (foldl (create_step env existing) c0 ((nih_id, a, g) :: rows))
      with (foldl (create_step env existing)
                  (create_step env existing c0 (nih_id, a, g)) rows).
    assert (Hstep : ∀ e, e ∈ contact_email <$> new_patients c0 →
              e ∈ contact_email <$>
                    new_patients (create_step env existing c0 (nih_id, a, g))).
    { intros e He. unfold create_step.
      destruct (existing !! email_of nih_id); simpl; [done|].
      rewrite fmap_app. apply elem_of_app. by left. }
    assert (Hnew : existing !! email_of nih_id = None →
              email_of nih_id ∈ contact_email <$>
                    new_patients (create_step env existing c0 (nih_id, a, g))).
    { intros E. unfold create_step. rewrite E. simpl.
      rewrite fmap_app. apply elem_of_app. right. apply list_elem_of_here. }
    set (c1 := create_step env existing c0 (nih_id, a, g)) in *.
    destruct (IH c1) as [I1 I2]. cbv zeta in I1, I2.
    split; [auto|].
    intros row Hr. apply elem_of_cons in Hr as [->|Hr]; [|by apply I2].
    change ((nih_id, a, g).1.1) with nih_id.
    destruct (existing !! email_of nih_id) as [pid|] eqn:E; [left; eauto|].
    right. by apply I1, Hnew.
Qed.

Lemma create_loop_no_new env existing rows : ∀ c0,
  (∀ row, row ∈ rows → is_Some (existing !! email_of row.1.1)) →
  let c := foldl (create_step env existing) c0 rows in
  new_patients c = new_patients c0 ∧ created c = created c0.
Proof.
  induction rows as [|[[nih_id a] g] rows IH]; intros c0 H; cbv zeta; [done|].
  change (foldl (create_step env existing) c0 ((nih_id, a, g) :: rows))
    with (foldl (create_step env existing)
                (create_step env existing c0 (nih_id, a, g)) rows).
  destruct (IH (create_step env existing c0 (nih_id, a, g))) as [I1 I2].
  { intros row Hr. by apply H, list_elem_of_further. }
  cbv zeta in I1, I2. rewrite I1, I2.
  destruct (H (nih_id, a, g) (list_elem_of_here _ _)) as [pid Hpid].
  change ((nih_id, a, g).1.1) with nih_id in Hpid.
  unfold create_step. by rewrite Hpid.
Qed.

Lemma elem_of_unique_patients batch row :
  row ∈ unique_patients_of batch ↔
  ∃ t, t ∈ batch ∧ row = (row_patient_id (src t), row_patient_age (src t),
                          row_patient_gender (src t)).
Proof.
  unfold unique_patients_of. rewrite CommonFacts.drop_duplicates_elem_nil.
  rewrite list_elem_of_fmap. split; intros (t & H1 & H2); eauto.
Qed.

Lemma create_patients_emails env cur ups c row :
  create_patients env cur ups = Ok c → row ∈ ups →
  email_of row.1.1 ∈ contact_email <$> patients cur
  ∨ email_of row.1.1 ∈ contact_email <$> new_patients c.
Proof.
  unfold create_patients. intros Ec Hrow.
  apply CommonFacts.bind_Ok in Ec as (L & _ & Ec). injection Ec as <-.
  match goal with |- context [foldl (create_step env ?ex) ?c0 ups] =>
    destruct (create_loop_emails env ex ups c0) as [_ I2] end.
  destruct (I2 _ Hrow) as [[pid Hs]|Hn]; [left|by right].
  apply IdentityProofs.select_existing_patients_sound in Hs as (x & Hx & <- & _).
  apply list_elem_of_fmap. eauto.
Qed.

Lemma create_patients_no_new env cur ups c :
  create_patients env cur ups = Ok c →
  (∀ row, row ∈ ups → email_of row.1.1 ∈ contact_email <$> patients cur) →
  new_patients c = [] ∧ created c = 0%nat.
Proof.
  unfold create_patients. intros Ec Hall.
  apply CommonFacts.bind_Ok in Ec as (L & _ & Ec). injection Ec as <-.
  match goal with |- context [foldl (create_step env ?ex) ?c0 ups] =>
    apply (create_loop_no_new env ex ups c0) end.
  intros row Hrow. destruct (list_elem_of_fmap_1 _ _ _ (Hall row Hrow))
    as (x & Hx & Hin).
  rewrite Hx. apply IdentityProofs.select_existing_patients_complete; [done|].
  rewrite <- Hx. apply list_elem_of_fmap. eauto.
Qed.

(** After patient creation every row of the batch has a patient with its
    external email. *)
Lemma bulk_create_patients_emails env batch cur p pm cur1 p1 t :
  _bulk_create_patients env batch cur p = (Ok (pm, cur1), p1) →
  t ∈ batch →
  email_of (row_patient_id (src t)) ∈ contact_email <$> patients cur1.
Proof.
  unfold _bulk_create_patients. intros H Ht.
  assert (Hrow : (row_patient_id (src t), row_patient_age (src t),
                  row_patient_gender (src t)) ∈ unique_patients_of batch)
    by (apply elem_of_unique_patients; eauto).
  destruct (unique_patients_of batch) as [|u us] eqn:Eu;
    [by apply elem_of_nil in Hrow|].
  destruct (create_patients env cur (u :: us)) as [c|e] eqn:Ec; [|discriminate].
  pose proof (create_patients_emails _ _ _ _ _ Ec Hrow) as Hc. simpl in Hc.
  destruct (new_patients c) as [|x xs] eqn:En.
  { injection H as <- <- <-. destruct Hc as [?|Hc]; [done|].
    by apply elem_of_nil in Hc. }
  destruct (insert_patients (x :: xs) (patients cur)) as [tbl|e] eqn:Ei; simpl in H;
    [|discriminate].
  injection H as <- <- <-.
  apply StoreProofs.insert_patients_inv in Ei as [-> _]. simpl.
  rewrite fmap_app. by apply elem_of_app.
Qed.

(** When every row of the batch has a patient with its external email,
    patient creation adds nothing. *)
Lemma bulk_create_patients_reload env batch cur p pm cur1 p1 :
  _bulk_create_patients env batch cur p = (Ok (pm, cur1), p1) →
  (∀ t, t ∈ batch →
        email_of (row_patient_id (src t)) ∈ contact_email <$> patients cur) →
  cur1 = cur ∧ patients_created (stats p1) = patients_created (stats p).
Proof.
  unfold _bulk_create_patients. intros H Hall.
  assert (Hrows : ∀ row, row ∈ unique_patients_of batch →
                         email_of row.1.1 ∈ contact_email <$> patients cur).
  { intros row Hrow. apply elem_of_unique_patients in Hrow as (t & Ht & ->).
    by apply Hall. }
  destruct (unique_patients_of batch) as [|u us] eqn:Eu;
    [by injection H as <- <- <-|].
  destruct (create_patients env cur (u :: us)) as [c|e] eqn:Ec; [|discriminate].
  destruct (create_patients_no_new _ _ _ _ Ec Hrows) as [Hn Hcr].
  rewrite Hn in H. injection H as <- <- <-.
  split; [done|]. simpl. rewrite Hcr. lia.
Qed.

(** *** One batch *)

Lemma elem_of_imap_pair_inv {A} (l : list A) (i : nat) (x : A) :
  (i, x) ∈ imap (λ i t, (i, t)) l → l !! i = Some x.
Proof.
  intros H. apply list_elem_of_lookup in H as [j Hj].
  rewrite list_lookup_imap in Hj. destruct (l !! j) as [y|] eqn:E; [|discriminate].
  simpl in Hj. injection Hj as -> ->. done.
Qed.

Lemma build_procedure_pair batch t x :
  t ∈ batch → build_procedure (build_encounter_map batch) t = Ok x →
  procedure_pair x = (encounter_id_of (row_image_index (src t)), nih_procedure_code t).
Proof.
  intros Ht. unfold build_procedure, getitem.
  rewrite (build_encounter_map_lookup _ _ Ht). simpl. intros H. by injection H as <-.
Qed.

Lemma build_encounter_diagnoses_rows cache batch t l :
  t ∈ batch → build_encounter_diagnoses cache (build_encounter_map batch) t = Ok l →
  l = diagnoses_for_row cache (encounter_id_of (row_image_index (src t))) t.
Proof.
  intros Ht. unfold build_encounter_diagnoses, getitem.
  rewrite (build_encounter_map_lookup _ _ Ht). simpl. intros H. by injection H as <-.
Qed.

(** After a batch that ended without error every row of it is loaded. *)
Lemma batch_loads_rows env bn batch cur p cur' p' t :
  _load_batch_optimized env bn batch cur p = (Ok cur', p') → t ∈ batch →
  loaded (diagnosis_cache p) cur' t.
Proof.
  unfold _load_batch_optimized.
  destruct (_bulk_create_patients env batch cur p) as [[[pm cur1]|e] p1] eqn:E;
    [|discriminate].
  intros H Ht.
  pose proof (bulk_create_patients_emails _ _ _ _ _ _ _ t E Ht) as Hemail.
  destruct (BatchProofs.bulk_create_patients_pipeline _ _ _ _ _ _ E)
    as (_ & _ & Hc & _).
  apply StoreProofs.load_steps_2_5_shape in H
    as (sample & encs & procs & edss & reps & _ & Menc & Mproc & Meds & _
        & Hpat & _ & _ & Henc & Hproc & Heds & _).
  rewrite Hc in Meds. unfold loaded. cbv zeta.
  split; [by rewrite Hpat|]. split.
  { rewrite Henc. by eapply StoreProofs.batch_encounters_stored. }
  split.
  - destruct (CommonFacts.mapM_Ok_elem_l _ _ _ _ Mproc Ht) as (x & Hx & Hb).
    rewrite <- (build_procedure_pair _ _ _ Ht Hb).
    destruct (insert_procedures_complete procs (procedures cur1)
                (procedure_id_seq cur1)) as [_ I2].
    rewrite <- Hproc in I2. by apply I2.
  - intros x Hx.
    destruct (CommonFacts.mapM_Ok_elem_l _ _ _ _ Meds Ht) as (l & Hl & Hb).
    apply (build_encounter_diagnoses_rows _ _ _ _ Ht) in Hb. subst l.
    rewrite Heds. apply insert_encounter_diagnoses_complete.
    apply CommonFacts.elem_of_concat. eauto.
Qed.

Lemma prefix_fmap_elem {A B} (f : A → B) (l1 l2 : list A) (y : B) :
  l1 `prefix_of` l2 → y ∈ f <$> l1 → y ∈ f <$> l2.
Proof.
  intros [k ->] H. rewrite fmap_app. apply elem_of_app. by left.
Qed.

Lemma loaded_mono cache d d' t :
  append_only d d' → loaded cache d t → loaded cache d' t.
Proof.
  intros (A1 & A2 & A3 & A4 & _) (L1 & L2 & L3 & L4). unfold loaded. cbv zeta.
  split; [by eapply prefix_fmap_elem|]. split; [by eapply prefix_fmap_elem|].
  split; [by eapply prefix_fmap_elem|].
  intros x Hx. eapply prefix_fmap_elem; [exact A4|]. by apply L4.
Qed.

(** A batch whose rows are all loaded changes neither patients nor
    encounters, procedures and diagnosis assignments; it adds one report
    per row and counts every row. *)
Lemma batch_reload env bn batch cur p cur' p' :
  _load_batch_optimized env bn batch cur p = (Ok cur', p') →
  (∀ t, t ∈ batch → loaded (diagnosis_cache p) cur t) →
  patients cur' = patients cur
  ∧ encounters cur' = encounters cur
  ∧ procedures cur' = procedures cur
  ∧ encounter_diagnoses cur' = encounter_diagnoses cur
  ∧ length (reports cur') = (length (reports cur) + length batch)%nat
  ∧ patients_created (stats p') = patients_created (stats p)
  ∧ encounters_created (stats p') = (encounters_created (stats p) + length batch)%nat
  ∧ procedures_created (stats p') = (procedures_created (stats p) + length batch)%nat
  ∧ reports_created (stats p') = (reports_created (stats p) + length batch)%nat.
Proof.
  unfold _load_batch_optimized.
  destruct (_bulk_create_patients env batch cur p) as [[[pm cur1]|e] p1] eqn:E;
    [|discriminate].
  intros H Hall.
  destruct (BatchProofs.bulk_create_patients_pipeline _ _ _ _ _ _ E)
    as (_ & _ & Hc & _).
  pose proof (CounterProofs.bulk_create_patients_stats _ _ _ _ _ _ _ E)
    as (n & Hst & _).
  apply bulk_create_patients_reload in E as [-> Hcreated];
    [|intros t Ht; by destruct (Hall t Ht)].
  pose proof (CounterProofs.load_steps_2_5_stats _ _ _ _ _ _ _ _ H)
    as (S1 & S2 & S3 & S4 & _).
  apply StoreProofs.load_steps_2_5_shape in H
    as (sample & encs & procs & edss & reps & _ & Menc & Mproc & Meds & Mrep
        & Hpat & _ & _ & Henc & Hproc & Heds & Hrep).
  rewrite Hc in Meds.
  assert (E1 : insert_encounters encs (encounters cur) = encounters cur).
  { apply insert_encounters_none. intros x Hx.
    destruct (CommonFacts.mapM_Ok_elem _ _ _ _ Menc Hx) as ([i t] & Hin & Hb).
    simpl in Hb. apply StoreProofs.build_encounter_fields in Hb as (-> & _).
    apply elem_of_imap_pair_inv, list_elem_of_lookup_2 in Hin.
    by destruct (Hall t Hin) as (_ & ? & _). }
  assert (E2 : (insert_procedures procs (procedures cur) (procedure_id_seq cur)).1
               = procedures cur).
  { apply insert_procedures_none. intros x Hx.
    destruct (CommonFacts.mapM_Ok_elem _ _ _ _ Mproc Hx) as (t & Hin & Hb).
    rewrite (build_procedure_pair _ _ _ Hin Hb).
    by destruct (Hall t Hin) as (_ & _ & ? & _). }
  assert (E3 : insert_encounter_diagnoses (concat edss) (encounter_diagnoses cur)
               = encounter_diagnoses cur).
  { apply insert_encounter_diagnoses_none. intros x Hx.
    apply CommonFacts.elem_of_concat in Hx as (l & Hx & Hl).
    destruct (CommonFacts.mapM_Ok_elem _ _ _ _ Meds Hl) as (t & Hin & Hb).
    apply (build_encounter_diagnoses_rows _ _ _ _ Hin) in Hb. subst l.
    destruct (Hall t Hin) as (_ & _ & _ & H4). by apply H4. }
  pose proof (CounterProofs.insert_reports_length reps (reports cur)
                (report_id_seq cur)) as [L4 _].
  cbv zeta in L4. rewrite <- Hrep in L4. simpl in L4.
  apply CounterProofs.mapM_length in Mrep.
  rewrite <- Hproc in E2. simpl in E2.
  rewrite Hst in S2, S3, S4. simpl in S2, S3, S4.
  rewrite Henc, Heds, Hpat, E1, E3, E2, L4, Mrep, S1, S2, S3, S4, Hcreated.
  done.
Qed.

(** *** The whole load *)

Lemma load_batches_loads env df nums : ∀ cur p p',
  load_batches env df nums cur p = (Ok (), p') → db p = cur →
  append_only cur (db p')
  ∧ ∀ bn t, bn ∈ nums → t ∈ slice df bn → loaded (diagnosis_cache p) (db p') t.
Proof.
  induction nums as [|bn nums IH]; intros cur p p' H Hdb.
  - simpl in H. injection H as <-. rewrite Hdb.
    split; [apply StoreProofs.append_only_refl|].
    intros bn t Hbn. by apply elem_of_nil in Hbn.
  - rewrite BatchProofs.load_batches_cons in H.
    destruct (_load_batch_optimized env bn (slice df bn) cur p)
      as [[cur'|e] p''] eqn:E; [|discriminate].
    destruct (StoreProofs.load_batch_pipeline _ _ _ _ _ _ _ E) as (_ & _ & Hc).
    apply IH in H as [A L]; [|done]. simpl in L. rewrite Hc in L.
    pose proof (StoreProofs.batch_append_only _ _ _ _ _ _ _ E) as A0.
    split; [by eapply StoreProofs.append_only_trans|].
    intros bn' t Hbn Ht. apply elem_of_cons in Hbn as [->|Hbn]; [|by eapply L].
    eapply loaded_mono; [exact A|]. by eapply batch_loads_rows.
Qed.

Lemma load_batches_reload env df nums : ∀ cur p p',
  load_batches env df nums cur p = (Ok (), p') → db p = cur →
  (∀ bn t, bn ∈ nums → t ∈ slice df bn → loaded (diagnosis_cache p) cur t) →
  let n := length (concat (slice df <$> nums)) in
  patients (db p') = patients cur
  ∧ encounters (db p') = encounters cur
  ∧ procedures (db p') = procedures cur
  ∧ encounter_diagnoses (db p') = encounter_diagnoses cur
  ∧ length (reports (db p')) = (length (reports cur) + n)%nat
  ∧ patients_created (stats p') = patients_created (stats p)
  ∧ encounters_created (stats p') = (encounters_created (stats p) + n)%nat
  ∧ procedures_created (stats p') = (procedures_created (stats p) + n)%nat
  ∧ reports_created (stats p') = (reports_created (stats p) + n)%nat.
Proof.
  induction nums as [|bn nums IH]; intros cur p p' H Hdb Hall; cbv zeta.
  - simpl in H. injection H as <-. rewrite Hdb. simpl. repeat split; lia.
  - rewrite BatchProofs.load_batches_cons in H.
    destruct (_load_batch_optimized env bn (slice df bn) cur p)
      as [[cur'|e] p''] eqn:E; [|discriminate].
    destruct (StoreProofs.load_batch_pipeline _ _ _ _ _ _ _ E) as (_ & _ & Hc).
    apply batch_reload in E
      as (B1 & B2 & B3 & B4 & B5 & B6 & B7 & B8 & B9);
      [|intros t Ht; eapply Hall; [apply list_elem_of_here|done]].
    apply IH in H as (I1 & I2 & I3 & I4 & I5 & I6 & I7 & I8 & I9); [|done|].
    + change (concat (slice df <$> bn :: nums))
        with (slice df bn ++ concat (slice df <$> nums)).
      rewrite length_app. cbv zeta in *.
      change (stats (with_db cur' p'')) with (stats p'') in *.
      rewrite I1, I2, I3, I4, I5, I6, I7, I8, I9, B1, B2, B3, B4, B5, B6, B7, B8, B9.
      repeat split; lia.
    + intros bn' t Hbn Ht. simpl. rewrite Hc.
      destruct (Hall bn' t (list_elem_of_further _ _ _ Hbn) Ht) as (L1 & L2 & L3 & L4).
      unfold loaded. cbv zeta. by rewrite B1, B2, B3, B4.
Qed.

Lemma concat_slices (df : list trow) :
  concat (slice df <$> seq 0 (length df `div` BATCH_SIZE + 1)) = df.
Proof.
  unfold slice. rewrite BatchProofs.concat_slices_any. apply take_ge.
  pose proof (Nat.div_mod_eq (length df) BATCH_SIZE) as Hdm.
  pose proof (Nat.mod_upper_bound (length df) BATCH_SIZE) as Hm.
  unfold BATCH_SIZE in *. lia.
Qed.

Lemma elem_of_slice (df : list trow) bn t : t ∈ slice df bn → t ∈ df.
Proof.
  unfold slice. intros H. by apply subseteq_take, subseteq_drop in H.
Qed.

Lemma load_nonempty env (dft : list trow) p :
  length dft ≠ 0%nat →
  load env (Some dft) p
  = load_batches env dft (seq 0 (length dft `div` BATCH_SIZE + 1)) (db p) p.
Proof. by destruct dft. Qed.

(** [transform] without the incremental filter lets every row through. *)
Lemma transform_full env df p :
  incremental p = false →
  transform env df p
  = if bool_decide (length df = 0%nat) then (None, p)
    else (Some (imap (transform_row env) df),
          with_stats (set_records_processed (length df)) p).
Proof. intros Hi. unfold transform. by rewrite Hi. Qed.

(** X10.  Running the pipeline again on the same frame with the
    incremental filter off, after a run that ended without error, changes
    no patient, encounter, procedure or diagnosis assignment; it adds one
    more report for every row of the frame, and its counters report every
    row as a created encounter, procedure and report, and no patient. *)
Theorem full_reload_adds_only_reports (env1 env2 : environment)
    (df : list nih_row) (d : opdb) (p1 p2 : pipeline) :
  run env1 df (NIH_ETL_Pipeline false d) = (Ok (), p1) →
  run env2 df (NIH_ETL_Pipeline false (db p1)) = (Ok (), p2) →
  patients (db p2) = patients (db p1)
  ∧ encounters (db p2) = encounters (db p1)
  ∧ procedures (db p2) = procedures (db p1)
  ∧ encounter_diagnoses (db p2) = encounter_diagnoses (db p1)
  ∧ length (reports (db p2)) = (length (reports (db p1)) + length df)%nat
  ∧ patients_created (stats p2) = 0%nat
  ∧ encounters_created (stats p2) = length df
  ∧ procedures_created (stats p2) = length df
  ∧ reports_created (stats p2) = length df.
Proof.
  unfold run. rewrite !transform_full by done.
  case_bool_decide as Hlen.
  { intros H1 H2. injection H1 as <-. injection H2 as <-. simpl.
    rewrite Hlen. repeat split; lia. }
  set (dft1 := imap (transform_row env1) df).
  set (dft2 := imap (transform_row env2) df).
  assert (Hl1 : length dft1 ≠ 0%nat) by (subst dft1; by rewrite length_imap).
  assert (Hl2 : length dft2 = length df) by apply length_imap.
  rewrite !load_nonempty by (done || lia).
  intros H1 H2.
  apply load_batches_loads in H1 as [A L]; [|done].
  simpl diagnosis_cache in L. simpl db in A.
  assert (Hcache : _load_diagnosis_cache (db p1) = _load_diagnosis_cache d).
  { unfold _load_diagnosis_cache. destruct A as (_ & _ & _ & _ & _ & _ & ->). done. }
  apply load_batches_reload in H2; [|done|].
  - cbv zeta in H2. rewrite concat_slices, Hl2 in H2. simpl in H2.
    destruct H2 as (I1 & I2 & I3 & I4 & I5 & I6 & I7 & I8 & I9).
    repeat split; done.
  - intros bn t _ Ht. simpl. rewrite Hcache.
    apply elem_of_slice, list_elem_of_lookup in Ht as [i Hi].
    subst dft2. rewrite list_lookup_imap in Hi.
    destruct (df !! i) as [r|] eqn:Er; [|discriminate]. injection Hi as <-.
    assert (Hin : transform_row env1 i r ∈ dft1).
    { apply list_elem_of_lookup. exists i. subst dft1.
      by rewrite list_lookup_imap, Er. }
    destruct (IdempotencyProofs.slices_cover _ _ Hin) as (bn1 & Hbn1 & Hs).
    exact (L bn1 _ Hbn1 Hs).
Qed.

Lemma full_reload_adds_only_reports_witness :
  let p1 := (run env0 df0 (NIH_ETL_Pipeline false db0)).2 in
  let p2 := (run env0 df0 (NIH_ETL_Pipeline false (db p1))).2 in
  patients (db p2) = patients (db p1)
  ∧ encounters (db p2) = encounters (db p1)
  ∧ procedures (db p2) = procedures (db p1)
  ∧ encounter_diagnoses (db p2) = encounter_diagnoses (db p1)
  ∧ length (reports (db p2)) = (length (reports (db p1)) + length df0)%nat
  ∧ patients_created (stats p2) = 0%nat
  ∧ encounters_created (stats p2) = length df0
  ∧ procedures_created (stats p2) = length df0
  ∧ reports_created (stats p2) = length df0.
Proof.
  apply (full_reload_adds_only_reports env0 env0 df0 db0); vm_compute; reflexivity.
Defined.

End ReloadProofs.

(** ** The database helper *)

Module HelperProofs.
Import PyStr Common Schema Loader Calendar Helper Examples.

Lemma head_fmap_None {A B} (f : A → B) (l : list A) :
  head (f <$> l) = None → l = [].
Proof. by destruct l. Qed.

Lemma head_fmap_Some {A B} (f : A → B) (l : list A) (y : B) :
  head (f <$> l) = Some y → ∃ x, x ∈ l ∧ f x = y.
Proof.
  destruct l as [|x l]; [done|]. simpl. intros H. injection H as <-.
  exists x. split; [apply list_elem_of_here|done].
Qed.

Lemma new_patient_id_nonempty d i : new_patient_id d = Ok i → i ≠ "".
Proof.
  unfold new_patient_id. intros H Hi. subst i.
  destruct (select_max_patient_id d) as [m|]; [|discriminate].
  destruct (decide (m = "")); [discriminate|].
  destruct (py_int (remove_PAT m)) as [k|]; [|discriminate].
  injection H as H. pose proof (IdProofs.like_PAT_format (k + 1)) as L.
  rewrite H in L. discriminate.
Qed.

(** What a call does to the patients table: nothing, or one row with
    the email of the external id, added when no row carried it. *)
Lemma get_or_create_patient_cases env d i a g r d' :
  (∀ x, x ∈ patients d → patient_id x ≠ "") →
  get_or_create_patient env d i a g = (r, d') →
  (d' = d
   ∧ ((∃ pid, r = Ok pid ∧ pid ≠ ""
              ∧ get_patient_by_external_id d i = Some pid)
      ∨ (∃ e, r = Raise e)))
  ∨ (∃ x, r = Ok (patient_id x) ∧ patient_id x ≠ ""
          ∧ contact_email x = email_of i
          ∧ filter (λ y, contact_email y = email_of i) (patients d) = []
          ∧ d' = with_patients (patients d ++ [x]) d).
Proof.
  intros Hne. unfold get_or_create_patient.
  destruct (get_patient_by_external_id d i) as [pid|] eqn:E.
  - destruct (decide (pid = "")) as [->|Hp].
    + apply head_fmap_Some in E as (x & Hx & Hid).
      apply list_elem_of_filter in Hx as [_ Hx]. by destruct (Hne x Hx).
    + intros H. injection H as <- <-. left. split; [done|]. left. eauto.
  - apply head_fmap_None in E.
    destruct (new_patient_id d) as [new_id|e] eqn:En; simpl;
      [|intros H; injection H as <- <-; left; eauto].
    destruct (birth_date env a) as [dob|e]; simpl;
      [|intros H; injection H as <- <-; left; eauto].
    destruct (decide (new_id ∈ patient_id <$> patients d)); simpl;
      [intros H; injection H as <- <-; left; eauto|].
    intros H. injection H as <- <-. right.
    eexists {| patient_id := new_id |}. simpl.
    split; [done|]. split; [by eapply new_patient_id_nonempty|]. done.
Qed.

(** X11.  On a store without an empty patient id, a call of
    [get_or_create_patient] that returned a patient id is repeatable: a
    second call for the same external id, at any time and with any age
    and gender, returns the same id and leaves the store as the first
    call left it. *)
Theorem get_or_create_patient_idempotent (env env' : environment) (d d' : opdb)
    (i : string) (a a' : Z) (g g' : string) (pid : string) :
  (∀ x, x ∈ patients d → patient_id x ≠ "") →
  get_or_create_patient env d i a g = (Ok pid, d') →
  get_or_create_patient env' d' i a' g' = (Ok pid, d').
Proof.
  intros Hne H.
  apply get_or_create_patient_cases in H
    as [[-> [(pid' & Hr & Hp & Hget)|[e He]]]
       |(x & Hr & Hp & Hem & Hnone & ->)]; try done.
  - injection Hr as ->. unfold get_or_create_patient. rewrite Hget.
    by rewrite decide_False.
  - injection Hr as ->. unfold get_or_create_patient, get_patient_by_external_id.
    simpl. rewrite filter_app, Hnone. simpl.
    rewrite filter_cons, decide_True by done. simpl. by rewrite decide_False.
Qed.

Lemma get_or_create_patient_idempotent_witness :
  let out := get_or_create_patient env0 db0 "7" 40 "M" in
  out.1 = Ok "PAT0000002"
  ∧ get_or_create_patient env0 out.2 "7" 41 "F" = (Ok "PAT0000002", out.2).
Proof.
  split; [vm_compute; reflexivity|].
  apply (get_or_create_patient_idempotent env0 env0 db0 _ "7" 40 41 "M" "F").
  - intros x Hx. apply list_elem_of_singleton in Hx. by subst x.
  - vm_compute. reflexivity.
Defined.

(** X12.  On a store without an empty patient id, [get_or_create_patient]
    never adds a patient under an email that is already stored: the
    number of patients under any other email is unchanged, and the number
    under the email of the external id is unchanged when it was positive
    or the call failed, and one when it was zero and the call
    returned. *)
Theorem get_or_create_patient_no_duplicate (env : environment) (d d' : opdb)
    (i : string) (a : Z) (g : string) (r : result string) :
  (∀ x, x ∈ patients d → patient_id x ≠ "") →
  get_or_create_patient env d i a g = (r, d') →
  (∀ e, e ≠ email_of i → patients_with_email d' e = patients_with_email d e)
  ∧ patients_with_email d' (email_of i)
    = (if decide (patients_with_email d (email_of i) = 0%nat)
       then match r with Ok _ => 1%nat | Raise _ => 0%nat end
       else patients_with_email d (email_of i))
  ∧ (∀ x, x ∈ patients d' → patient_id x ≠ "").
Proof.
  intros Hne H. unfold patients_with_email.
  apply get_or_create_patient_cases in H
    as [[-> [(pid' & Hr & Hp & Hget)|[e He]]]
       |(x & Hr & Hp & Hem & Hnone & ->)]; try done.
  - split; [done|]. split; [|done]. case_decide as Hz; [|done].
    apply length_zero_iff_nil in Hz. unfold get_patient_by_external_id in Hget.
    by rewrite Hz in Hget.
  - split; [done|]. split; [|done]. case_decide as Hz; [|done].
    by rewrite Hz, He.
  - simpl. split; [|split].
    + intros e He. rewrite filter_app, filter_cons, decide_False by congruence.
      by rewrite filter_nil, app_nil_r.
    + rewrite filter_app, Hnone, filter_cons, decide_True by done.
      by rewrite Hr.
    + intros y Hy. apply elem_of_app in Hy as [Hy|Hy]; [by apply Hne|].
      apply list_elem_of_singleton in Hy. by subst y.
Qed.

Lemma get_or_create_patient_no_duplicate_witness :
  let out := get_or_create_patient env0 db_with_nih1 "1" 58 "M" in
  (∀ e, e ≠ email_of "1" →
        patients_with_email out.2 e = patients_with_email db_with_nih1 e)
  ∧ patients_with_email out.2 (email_of "1")
    = (if decide (patients_with_email db_with_nih1 (email_of "1") = 0%nat)
       then match out.1 with Ok _ => 1%nat | Raise _ => 0%nat end
       else patients_with_email db_with_nih1 (email_of "1"))
  ∧ (∀ x, x ∈ patients out.2 → patient_id x ≠ "").
Proof.
  apply (get_or_create_patient_no_duplicate env0 db_with_nih1 _ "1" 58 "M").
  - intros x Hx. apply (bool_decide_unpack _).
    revert x Hx. apply Forall_forall. apply (bool_decide_unpack _).
    vm_compute. exact I.
  - vm_compute. reflexivity.
Defined.

(** *** Lookups in dicts built from result rows *)

(** A dict filled row by row holds, under a key, the value of the last
    row with that key. *)
Lemma foldl_insert_last {A} (kf vf : A → string) (l : list A) (key : string) :
  foldl (λ m x, <[kf x := vf x]> m) (∅ : gmap string string) l !! key
  = last (vf <$> filter (λ x, kf x = key) l).
Proof.
  induction l as [|x l IH] using rev_ind; [done|].
  rewrite foldl_app. simpl. rewrite filter_app, fmap_app, lookup_insert.
  rewrite filter_cons, filter_nil. case_decide as Hk; simpl.
  - by rewrite last_snoc.
  - by rewrite app_nil_r.
Qed.

Lemma filter_unique {A} (f : A → string) (l : list A) (c : string) :
  NoDup (f <$> l) → (length (filter (λ x, f x = c) l) ≤ 1)%nat.
Proof.
  induction l as [|x l IH]; intros Hnd; [simpl; lia|].
  rewrite fmap_cons in Hnd. apply NoDup_cons in Hnd as [Hx Hnd].
  rewrite filter_cons. case_decide as Hc; [|by apply IH]. simpl.
  rewrite (ListFacts.filter_none (λ y, f y = c)); [simpl; lia|].
  apply Forall_forall. intros y Hy Hfy. apply Hx. rewrite Hc, <- Hfy.
  apply list_elem_of_fmap. eauto.
Qed.

Lemma head_last_short {A} (l : list A) : (length l ≤ 1)%nat → last l = head l.
Proof. destruct l as [|x [|y l]]; simpl; [done|done|lia]. Qed.

(** X13.  When the diagnosis codes of the catalog are unique, the cache
    the pipeline loads at construction answers every code as
    [get_diagnosis_by_code] does on the store: the id of the diagnosis
    with that code, or nothing.  (With a repeated code the cache holds the
    id of the last row and the helper returns the first.) *)
Theorem diagnosis_cache_agrees (d : opdb) (code : string) :
  NoDup (diagnosis_code <$> diagnoses d) →
  _load_diagnosis_cache d !! code = get_diagnosis_by_code d code.
Proof.
  intros Hnd. unfold _load_diagnosis_cache, get_diagnosis_by_code.
  rewrite (foldl_insert_last diagnosis_code diagnosis_id).
  apply head_last_short. rewrite length_fmap. by apply filter_unique.
Qed.

Lemma diagnosis_cache_agrees_witness :
  NoDup (diagnosis_code <$> diagnoses db0)
  ∧ _load_diagnosis_cache db0 !! "J18.9" = get_diagnosis_by_code db0 "J18.9".
Proof.
  assert (H : NoDup (diagnosis_code <$> diagnoses db0))
    by (apply (bool_decide_unpack _); vm_compute; exact I).
  split; [exact H|]. exact (diagnosis_cache_agrees db0 "J18.9" H).
Defined.

(** *** [get_pipeline_stats] *)

Lemma drop_duplicates_NoDup {A} `{EqDecision A} (l : list A) : ∀ seen,
  NoDup (drop_duplicates seen l).
Proof.
  induction l as [|x l IH]; intros seen; simpl; [constructor|].
  destruct (decide (x ∈ seen)); [apply IH|].
  apply NoDup_cons. split; [|apply IH].
  rewrite CommonFacts.drop_duplicates_elem. intros [_ Hn]. apply Hn.
  apply list_elem_of_here.
Qed.

Lemma filter_eq_NoDup (l : list string) (k : string) :
  NoDup l → filter (λ k', k' = k) l = if decide (k ∈ l) then [k] else [].
Proof.
  induction l as [|x l IH]; intros Hnd; [done|].
  apply NoDup_cons in Hnd as [Hx Hnd]. rewrite filter_cons, (IH Hnd).
  destruct (decide (x = k)) as [->|Hne].
  - rewrite decide_False by done. rewrite decide_True by apply list_elem_of_here.
    done.
  - destruct (decide (k ∈ l)) as [Hin|Hout].
    + rewrite decide_True by (by apply list_elem_of_further). done.
    + rewrite decide_False; [done|]. intros Hk.
      apply elem_of_cons in Hk as [->|Hk]; done.
Qed.

Lemma foldl_insert_last_nat {A} (kf : A → string) (vf : A → nat) (l : list A)
    (key : string) :
  foldl (λ m x, <[kf x := vf x]> m) (∅ : gmap string nat) l !! key
  = last (vf <$> filter (λ x, kf x = key) l).
Proof.
  induction l as [|x l IH] using rev_ind; [done|].
  rewrite foldl_app. simpl. rewrite filter_app, fmap_app, lookup_insert.
  rewrite filter_cons, filter_nil. case_decide as Hk; simpl.
  - by rewrite last_snoc.
  - by rewrite app_nil_r.
Qed.

Lemma filter_fmap {A B} (f : A → B) (P : B → Prop) `{∀ y, Decision (P y)}
    (l : list A) :
  filter P (f <$> l) = f <$> filter (λ x, P (f x)) l.
Proof.
  induction l as [|x l IH]; [done|]. rewrite fmap_cons, !filter_cons.
  destruct (decide (P (f x))); simpl; by rewrite IH.
Qed.

(** The dict built from the grouped counts: a key that occurs maps to
    its number of occurrences, a key that does not occur is absent. *)
Lemma group_counts_lookup (keys : list string) (k : string) :
  foldl (λ stats (row : string * nat), <[row.1 := row.2]> stats)
        (∅ : gmap string nat) (group_counts keys) !! k
  = if decide (k ∈ keys) then Some (length (filter (λ k', k' = k) keys)) else None.
Proof.
  rewrite (foldl_insert_last_nat fst snd). unfold group_counts.
  rewrite (filter_fmap _ (λ row : string * nat, row.1 = k)).
  rewrite <- list_fmap_compose. simpl.
  rewrite filter_eq_NoDup by apply drop_duplicates_NoDup.
  destruct (decide (k ∈ drop_duplicates [] keys)) as [Hin|Hout].
  - apply (proj1 (CommonFacts.drop_duplicates_elem_nil _ _)) in Hin.
    by rewrite decide_True.
  - rewrite decide_False; [done|]. intros Hk. apply Hout.
    by apply (proj2 (CommonFacts.drop_duplicates_elem_nil _ _)).
Qed.

Lemma length_filter_fmap {A B} (f : A → B) (P : B → Prop)
    `{∀ y, Decision (P y)} `{∀ x, Decision (P (f x))} (l : list A) :
  length (filter P (f <$> l)) = length (filter (λ x, P (f x)) l).
Proof.
  induction l as [|x l IH]; [done|]. rewrite fmap_cons, !filter_cons.
  repeat case_decide; simpl; try done; by rewrite IH.
Qed.

Lemma length_filter_split {A} (P : A → bool) (l : list A) :
  (length (filter (λ x, P x = true) l) + length (filter (λ x, P x = false) l)
   = length l)%nat.
Proof.
  induction l as [|x l IH]; [done|]. rewrite !filter_cons.
  destruct (P x) eqn:E; simpl; lia.
Qed.

(** X14.  [get_pipeline_stats] maps "NIH Dataset" to the number of
    procedures whose code matches [NIH_%] and "Synthetic Data" to the
    number of the others; a source without procedures is absent from the
    dict, not mapped to zero; there is no other key; and the counts add up
    to the number of procedures.  "NIH Dataset" is absent exactly when the
    set of loaded image keys that [transform] consults is empty. *)
Theorem get_pipeline_stats_counts (d : opdb) :
  let n := length (filter (λ x, like_NIH_ (procedure_code x) = true) (procedures d)) in
  let m := length (filter (λ x, like_NIH_ (procedure_code x) = false) (procedures d)) in
  get_pipeline_stats d !! "NIH Dataset" = (if decide (n = 0%nat) then None else Some n)
  ∧ get_pipeline_stats d !! "Synthetic Data"
    = (if decide (m = 0%nat) then None else Some m)
  ∧ (∀ k, k ≠ "NIH Dataset" → k ≠ "Synthetic Data" → get_pipeline_stats d !! k = None)
  ∧ (n + m)%nat = length (procedures d)
  ∧ (get_pipeline_stats d !! "NIH Dataset" = None
     ↔ get_existing_image_indices d = ∅).
Proof.
  intros n m. unfold get_pipeline_stats.
  set (keys := source_of <$> (procedure_code <$> procedures d)).
  assert (Hkeys : ∀ k, k ∈ keys ↔
            ∃ x, x ∈ procedures d ∧ source_of (procedure_code x) = k).
  { intros k. subst keys. rewrite <- list_fmap_compose, list_elem_of_fmap.
    split; intros (x & H1 & H2); eauto. }
  assert (Hcount : ∀ b, length (filter (λ k', k' = (if b : bool then "NIH Dataset" else "Synthetic Data")) keys)
                        = length (filter (λ x, like_NIH_ (procedure_code x) = b)
                                         (procedures d))).
  { intros b. subst keys. rewrite <- list_fmap_compose.
    rewrite (length_filter_fmap _ (λ k', k' = (if b : bool then "NIH Dataset" else "Synthetic Data"))).
    f_equal. apply list_filter_iff. intros x. simpl. unfold source_of.
    destruct (like_NIH_ (procedure_code x)), b; simpl; split; done. }
  assert (Hin : ∀ b, (if b : bool then "NIH Dataset" else "Synthetic Data") ∈ keys ↔
            length (filter (λ x, like_NIH_ (procedure_code x) = b) (procedures d))
            ≠ 0%nat).
  { intros b. rewrite Hkeys. split.
    - intros (x & Hx & Hs) Hz. apply length_zero_iff_nil in Hz.
      assert (Hf : x ∈ filter (λ x, like_NIH_ (procedure_code x) = b) (procedures d)).
      { apply list_elem_of_filter. split; [|done]. unfold source_of in Hs.
        destruct (like_NIH_ (procedure_code x)), b; simpl in Hs; done. }
      rewrite Hz in Hf. by apply elem_of_nil in Hf.
    - intros Hz.
      destruct (filter (λ x, like_NIH_ (procedure_code x) = b) (procedures d))
        as [|x l] eqn:E; [done|].
      assert (Hx : x ∈ filter (λ x, like_NIH_ (procedure_code x) = b) (procedures d))
        by (rewrite E; apply list_elem_of_here).
      apply list_elem_of_filter in Hx as [Hb Hx]. exists x. split; [done|].
      unfold source_of. rewrite Hb. by destruct b. }
  assert (Hn : foldl (λ stats (row : string * nat), <[row.1 := row.2]> stats)
                     (∅ : gmap string nat) (group_counts keys) !! "NIH Dataset"
               = if decide (n = 0%nat) then None else Some n).
  { rewrite group_counts_lookup. pose proof (Hin true) as Ht. simpl in Ht.
    pose proof (Hcount true) as Hc. simpl in Hc. fold n in Ht, Hc.
    destruct (decide (n = 0%nat)) as [Hz|Hz].
    - rewrite decide_False; [done|]. intros Hk. by apply Ht in Hk.
    - rewrite decide_True by (by apply Ht). by rewrite Hc. }
  split; [exact Hn|]. split; [|split; [|split]].
  - rewrite group_counts_lookup. pose proof (Hin false) as Ht. simpl in Ht.
    pose proof (Hcount false) as Hc. simpl in Hc. fold m in Ht, Hc.
    destruct (decide (m = 0%nat)) as [Hz|Hz].
    + rewrite decide_False; [done|]. intros Hk. by apply Ht in Hk.
    + rewrite decide_True by (by apply Ht). by rewrite Hc.
  - intros k H1 H2. rewrite group_counts_lookup. rewrite decide_False; [done|].
    intros Hk. apply Hkeys in Hk as (x & _ & Hs). unfold source_of in Hs.
    destruct (like_NIH_ (procedure_code x)); congruence.
  - apply (length_filter_split (λ x, like_NIH_ (procedure_code x))).
  - rewrite Hn. unfold get_existing_image_indices.
    assert (Hlen : n = length (filter (λ c, like_NIH_ c = true)
                                      (procedure_code <$> procedures d)))
      by (subst n; symmetry;
          apply (length_filter_fmap procedure_code (λ c, like_NIH_ c = true))).
    destruct (filter (λ c, like_NIH_ c = true) (procedure_code <$> procedures d))
      as [|c l] eqn:E; simpl in Hlen.
    + rewrite decide_True by done. done.
    + rewrite decide_False by lia. split; [done|]. intros He.
      assert (Hc : c ∈ (list_to_set (c :: l) : gset string))
        by (apply elem_of_list_to_set, list_elem_of_here).
      rewrite He in Hc. by apply not_elem_of_empty in Hc.
Qed.

End HelperProofs.

(** ** Simulated incremental loads *)

Module OrchestratorProofs.
Import PyStr Common Schema Loader Helper Orchestrator Examples.

(** A run on a store that holds the key of every row of the frame loads
    nothing and counts every row as skipped. *)
Lemma run_all_loaded env df d :
  (∀ r, r ∈ df → derived_key r ∈ get_existing_image_indices d) →
  run env df (NIH_ETL_Pipeline true d)
  = (Ok (), with_stats (set_records_skipped (length df)) (NIH_ETL_Pipeline true d)).
Proof.
  intros Hall0.
  assert (Hall : Forall (λ r, ¬ (derived_key r ∉ get_existing_image_indices d)) df).
  { apply Forall_forall. intros r Hr Hn. apply Hn. by apply Hall0. }
  unfold run, transform. simpl incremental. simpl db.
  set (existing := get_existing_image_indices d) in *. cbv zeta. simpl andb.
  destruct (decide (existing = ∅)) as [He|He].
  - rewrite (bool_decide_eq_true_2 _ He). simpl negb. cbv iota.
    assert (df = []) as ->.
    { destruct df as [|r df]; [done|]. apply Forall_cons in Hall as [Hr _].
      exfalso. apply Hr. rewrite He. apply not_elem_of_empty. }
    done.
  - rewrite (bool_decide_eq_false_2 _ He). simpl negb. cbv iota.
    rewrite (ListFacts.filter_none _ _ Hall). simpl. by rewrite Nat.sub_0_r.
Qed.

Lemma simulate_runs_all_loaded envs df d nums : ∀ results,
  (∀ r, r ∈ df → derived_key r ∈ get_existing_image_indices d) →
  simulate_runs envs df nums d results
  = (Ok (results ++ (skipped_run df <$> nums)), d).
Proof.
  induction nums as [|k nums IH]; intros results Hall; simpl.
  - by rewrite app_nil_r.
  - rewrite (run_all_loaded _ _ _ Hall). simpl. rewrite (IH _ Hall).
    by rewrite <- app_assoc.
Qed.

(** X15.  In a simulation whose first run ends without error, every
    later run ends without error, leaves the store as the first run left
    it, and is recorded with zero processed rows, zero new patients and
    encounters, and a skipped count equal to the size of the file. *)
Theorem simulation_after_first_run (envs : nat → environment)
    (df : list nih_row) (d : opdb) (p1 : pipeline) (n : nat) :
  run (envs 1%nat) df (NIH_ETL_Pipeline true d) = (Ok (), p1) →
  simulate_incremental_loads envs df (S n) d
  = (Ok (run_stats_of 1 p1 :: (skipped_run df <$> seq 2 n)), db p1).
Proof.
  intros H1. unfold simulate_incremental_loads.
  change (seq 1 (S n)) with (1%nat :: seq 2 n).
  change (simulate_runs envs df (1%nat :: seq 2 n) d [])
    with (match run (envs 1%nat) df (NIH_ETL_Pipeline true d) with
          | (Raise e, p') => (Raise e, db p')
          | (Ok _, p') =>
              simulate_runs envs df (seq 2 n) (db p') ([] ++ [run_stats_of 1 p'])
          end).
  rewrite H1. apply simulate_runs_all_loaded.
  intros r Hr. by eapply IdempotencyProofs.run_loads_every_key.
Qed.

Lemma simulation_after_first_run_witness :
  let p1 := (run env0 df0 (NIH_ETL_Pipeline true db0)).2 in
  simulate_incremental_loads (λ _, env0) df0 3 db0
  = (Ok (run_stats_of 1 p1 :: (skipped_run df0 <$> seq 2 2)), db p1).
Proof.
  apply (simulation_after_first_run (λ _, env0) df0 db0). vm_compute. reflexivity.
Defined.

End OrchestratorProofs.

(** ** Keys of the warehouse and the quality checks *)

Module WarehouseKeyProofs.
Import PyStr Common Schema Calendar Warehouse QA QAServer Examples.

(** *** Inserts with a conflict target *)

Section keyed_insert.
Context {R : Type} (natural surrogate : R → Z) (mk : Z → R → R).
Hypothesis mk_natural : ∀ n x, natural (mk n x) = natural x.
Hypothesis mk_surrogate : ∀ n x, surrogate (mk n x) = n.

(** The shape shared by the inserts into the dimensions and the fact
    table: a row whose natural key is in the table is dropped, any other
    is added under the next value of the sequence, and every proposed row
    consumes a value. *)
Lemma insert_keyed_inv rows : ∀ tbl next,
  NoDup (natural <$> tbl) → NoDup (surrogate <$> tbl) →
  Forall (λ x, surrogate x < next) tbl →
  let out := foldl (λ acc x,
                      let '(t, n) := acc in
                      if decide (natural x ∈ natural <$> t) then (t, n + 1)
                      else (t ++ [mk n x], n + 1))
                   (tbl, next) rows in
  NoDup (natural <$> out.1) ∧ NoDup (surrogate <$> out.1)
  ∧ Forall (λ x, surrogate x < out.2) out.1
  ∧ tbl `prefix_of` out.1.
Proof.
  induction rows as [|x rows IH]; intros tbl next H1 H2 H3; cbv zeta; [done|].
  simpl foldl. destruct (decide (natural x ∈ natural <$> tbl)) as [Hin|Hout].
  - apply (IH tbl (next + 1)); [done|done|].
    eapply Forall_impl; [exact H3|]. simpl. intros. lia.
  - destruct (IH (tbl ++ [mk next x]) (next + 1)) as (I1 & I2 & I3 & I4).
    + rewrite fmap_app. apply StoreProofs.NoDup_snoc; [done|]. simpl.
      by rewrite mk_natural.
    + rewrite fmap_app. apply StoreProofs.NoDup_snoc; [done|]. simpl.
      rewrite mk_surrogate. intros Hin.
      apply list_elem_of_fmap in Hin as (y & Hy & Hin).
      rewrite Forall_forall in H3. specialize (H3 y Hin). lia.
    + apply Forall_app. split.
      * eapply Forall_impl; [exact H3|]. simpl. intros. lia.
      * constructor; [|constructor]. rewrite mk_surrogate. lia.
    + split; [done|]. split; [done|]. split; [done|].
      etrans; [|exact I4]. by apply prefix_app_r.
Qed.

End keyed_insert.

Lemma insert_dim_time_NoDup rows : ∀ tbl,
  NoDup (date_id <$> tbl) → NoDup (date_id <$> insert_dim_time rows tbl).
Proof.
  induction rows as [|x rows IH]; intros tbl H; [done|].
  unfold insert_dim_time in *. simpl.
  destruct (decide (date_id x ∈ date_id <$> tbl)); [by apply IH|].
  apply IH. rewrite fmap_app. by apply StoreProofs.NoDup_snoc.
Qed.

Lemma insert_bridge_procedures_NoDup rows : ∀ tbl,
  NoDup tbl → NoDup (insert_bridge_procedures rows tbl).
Proof.
  induction rows as [|x rows IH]; intros tbl H; [done|].
  unfold insert_bridge_procedures in *. simpl.
  destruct (decide (x ∈ tbl)); [by apply IH|].
  apply IH. by apply StoreProofs.NoDup_snoc.
Qed.

Lemma insert_bridge_diagnoses_NoDup rows : ∀ tbl,
  NoDup (bridge_diagnosis_pair <$> tbl) →
  NoDup (bridge_diagnosis_pair <$> insert_bridge_diagnoses rows tbl).
Proof.
  induction rows as [|x rows IH]; intros tbl H; [done|].
  unfold insert_bridge_diagnoses in *. simpl.
  destruct (decide (Exists (same_bridge_diagnosis x) tbl)) as [Hin|Hout];
    [by apply IH|].
  apply IH. rewrite fmap_app. apply StoreProofs.NoDup_snoc; [done|]. simpl.
  intros Hp. apply Hout. apply list_elem_of_fmap in Hp as (y & Hy & Hin).
  apply Exists_exists. exists y. split; [done|].
  unfold bridge_diagnosis_pair in Hy. injection Hy as E1 E2. by split.
Qed.

(** *** The stages *)

Lemma prefix_elem {A} (l1 l2 : list A) (x : A) : l1 `prefix_of` l2 → x ∈ l1 → x ∈ l2.
Proof. intros [k ->] H. apply elem_of_app. by left. Qed.

Lemma stage_time d w s w' s' :
  populate_dim_time d w s = Some (Ok (w', s')) →
  warehouse_keys_unique w ∧ warehouse_references w →
  warehouse_keys_unique w' ∧ warehouse_references w'.
Proof.
  unfold populate_dim_time. intros H [K F]. destruct (select_min_max d).
  - destruct (dim_time_records_of d) as [[rows|e]|]; try discriminate.
    injection H as <- <-. destruct K, F. split; constructor; simpl; try done.
    by apply insert_dim_time_NoDup.
  - by injection H as <- <-.
Qed.

Lemma stage_patient d w s w' s' :
  populate_dim_patient d w s = Ok (w', s') →
  warehouse_keys_unique w ∧ warehouse_references w →
  warehouse_keys_unique w' ∧ warehouse_references w'.
Proof.
  unfold populate_dim_patient. intros H [K F].
  apply CommonFacts.bind_Ok in H as (rows & _ & H).
  destruct (insert_dim_patient rows (dim_patient w) (patient_key_seq w))
    as [t n] eqn:E. simpl in H. injection H as <- <-.
  destruct K, F.
  pose proof (insert_keyed_inv dp_patient_id patient_key
                (λ n x, {| patient_key := n; dp_patient_id := dp_patient_id x;
                           age := age x; sex := sex x; age_group := age_group x;
                           location := location x |})
                (λ _ _, eq_refl) (λ _ _, eq_refl) rows (dim_patient w)
                (patient_key_seq w)) as I.
  cbv beta zeta in I. unfold insert_dim_patient in E. rewrite E in I. simpl in I.
  destruct I as (I1 & I2 & I3 & I4); [done|done|done|].
  split; constructor; simpl; try done.
  intros f Hf. eapply ReloadProofs.prefix_fmap_elem; [exact I4|]. auto.
Qed.

Lemma stage_procedure d w s w' s' :
  populate_dim_procedure d w s = (w', s') →
  warehouse_keys_unique w ∧ warehouse_references w →
  warehouse_keys_unique w' ∧ warehouse_references w'.
Proof.
  unfold populate_dim_procedure. intros H [K F].
  destruct (insert_dim_procedure _ (dim_procedure w) (procedure_key_seq w))
    as [t n] eqn:E. injection H as <- <-.
  destruct K, F.
  match type of E with insert_dim_procedure ?rows _ _ = _ =>
    pose proof (insert_keyed_inv dpr_procedure_id procedure_key
                  (λ n x, {| procedure_key := n;
                             dpr_procedure_id := dpr_procedure_id x;
                             external_procedure_id := external_procedure_id x;
                             dpr_procedure_code := dpr_procedure_code x;
                             dpr_procedure_name := dpr_procedure_name x;
                             dpr_modality := dpr_modality x;
                             projection := projection x;
                             dpr_body_part := dpr_body_part x |})
                  (λ _ _, eq_refl) (λ _ _, eq_refl) rows (dim_procedure w)
                  (procedure_key_seq w)) as I end.
  cbv beta zeta in I. unfold insert_dim_procedure in E. rewrite E in I. simpl in I.
  destruct I as (I1 & I2 & I3 & I4); [done|done|done|].
  split; constructor; simpl; try done.
  intros b Hb. eapply ReloadProofs.prefix_fmap_elem; [exact I4|]. auto.
Qed.

Lemma stage_diagnosis d w s w' s' :
  populate_dim_diagnosis d w s = Ok (w', s') →
  warehouse_keys_unique w ∧ warehouse_references w →
  warehouse_keys_unique w' ∧ warehouse_references w'.
Proof.
  unfold populate_dim_diagnosis. intros H [K F].
  apply CommonFacts.bind_Ok in H as (rows & _ & H).
  destruct (insert_dim_diagnosis rows (dim_diagnosis w) (diagnosis_key_seq w))
    as [t n] eqn:E. simpl in H. injection H as <- <-.
  destruct K, F.
  pose proof (insert_keyed_inv dd_diagnosis_id diagnosis_key
                (λ n x, {| diagnosis_key := n; dd_diagnosis_id := dd_diagnosis_id x;
                           dd_diagnosis_code := dd_diagnosis_code x;
                           dd_diagnosis_name := dd_diagnosis_name x;
                           category := category x;
                           dd_severity := dd_severity x |})
                (λ _ _, eq_refl) (λ _ _, eq_refl) rows (dim_diagnosis w)
                (diagnosis_key_seq w)) as I.
  cbv beta zeta in I. unfold insert_dim_diagnosis in E. rewrite E in I. simpl in I.
  destruct I as (I1 & I2 & I3 & I4); [done|done|done|].
  split; constructor; simpl; done.
Qed.

Lemma stage_fact d w s w' s' :
  populate_fact_encounters d w s = Ok (w', s') →
  warehouse_keys_unique w ∧ warehouse_references w →
  warehouse_keys_unique w' ∧ warehouse_references w'.
Proof.
  unfold populate_fact_encounters. intros H [K F].
  apply CommonFacts.bind_Ok in H as (groups & Hgroups & H).
  apply CommonFacts.bind_Ok in H as (rows & Hrows & H).
  destruct (insert_fact_encounters rows (fact_encounters w) (encounter_key_seq w))
    as [t n] eqn:E. simpl in H. injection H as <- <-.
  destruct K, F.
  pose proof (insert_keyed_inv fe_encounter_id encounter_key
                (λ n x, {| encounter_key := n; fe_encounter_id := fe_encounter_id x;
                           fe_patient_key := fe_patient_key x;
                           fe_date_id := fe_date_id x;
                           fe_facility_id := fe_facility_id x;
                           fe_encounter_type := fe_encounter_type x;
                           procedure_count := procedure_count x;
                           diagnosis_count := diagnosis_count x;
                           report_count := report_count x |})
                (λ _ _, eq_refl) (λ _ _, eq_refl) rows (fact_encounters w)
                (encounter_key_seq w)) as I.
  cbv beta zeta in I. pose proof E as E'. unfold insert_fact_encounters in E'.
  rewrite E' in I. simpl in I.
  destruct I as (I1 & I2 & I3 & I4); [done|done|done|].
  split; constructor; simpl; try done.
  intros f Hf.
  assert (Hf' : f ∈ (insert_fact_encounters rows (fact_encounters w)
                       (encounter_key_seq w)).1) by (by rewrite E).
  apply WarehouseProofs.insert_fact_encounters_sound in Hf'
    as [Hold|(x & Hx & _ & Hpk)]; [auto|].
  destruct (CommonFacts.mapM_Ok_elem _ _ _ _ Hrows Hx) as ([e pkey] & Hg & Hsel).
  destruct (WarehouseProofs.fact_groups_sound _ _ _ _ _ Hgroups Hg)
    as (_ & dp & Hdp & Hkey & _).
  unfold fact_select in Hsel.
  apply CommonFacts.bind_Ok in Hsel as (eid & _ & Hsel).
  apply CommonFacts.bind_Ok in Hsel as (fid & _ & Hsel).
  injection Hsel as <-. simpl in Hpk. rewrite Hpk, <- Hkey.
  apply list_elem_of_fmap. eauto.
Qed.

Lemma stage_bridge_procedures d w s w' s' :
  populate_bridge_procedures d w s = Ok (w', s') →
  warehouse_keys_unique w ∧ warehouse_references w →
  warehouse_keys_unique w' ∧ warehouse_references w'.
Proof.
  unfold populate_bridge_procedures. intros H [K F].
  apply CommonFacts.bind_Ok in H as (keyed & _ & H).
  simpl in H. injection H as <- <-. destruct K, F.
  split; constructor; simpl; try done.
  - by apply insert_bridge_procedures_NoDup.
  - intros b Hb.
    apply WarehouseProofs.insert_bridge_procedures_sound in Hb as [Hb|Hb]; [auto|].
    apply (proj1 (CommonFacts.drop_duplicates_elem_nil _ _)) in Hb.
    unfold bridge_procedure_select in Hb.
    apply list_elem_of_bind in Hb as (f & Hb & _).
    apply list_elem_of_bind in Hb as (ek & Hb & _).
    apply list_elem_of_bind in Hb as (p & Hb & _).
    apply list_elem_of_bind in Hb as (dp & Hb & Hdp).
    apply list_elem_of_singleton in Hb. subst b. simpl.
    apply list_elem_of_filter in Hdp as [_ Hdp]. apply list_elem_of_fmap. eauto.
Qed.

Lemma stage_bridge_diagnoses d w s w' s' :
  populate_bridge_diagnoses d w s = Ok (w', s') →
  warehouse_keys_unique w ∧ warehouse_references w →
  warehouse_keys_unique w' ∧ warehouse_references w'.
Proof.
  unfold populate_bridge_diagnoses. intros H [K F].
  apply CommonFacts.bind_Ok in H as (keyed & _ & H).
  apply CommonFacts.bind_Ok in H as (assignments & _ & H).
  simpl in H. injection H as <- <-. destruct K, F.
  split; constructor; simpl; try done.
  by apply insert_bridge_diagnoses_NoDup.
Qed.

Lemma stage_invariant (I : warehouse → Prop) step k w s :
  I w →
  (∀ w' s', step w s = Ok (w', s') → I w') →
  (∀ w' s', I w' → I (committed (k w' s'))) →
  I (committed (stage step k w s)).
Proof.
  intros HI Hstep Hk. unfold stage.
  destruct (step w s) as [[w' s']|e] eqn:E; [|done]. by eapply Hk, Hstep.
Qed.

Lemma cleared_consistent w0 :
  warehouse_keys_unique (clear_warehouse w0)
  ∧ warehouse_references (clear_warehouse w0).
Proof.
  split; constructor; simpl; try constructor.
  - intros f Hf. by apply elem_of_nil in Hf.
  - intros b Hb. by apply elem_of_nil in Hb.
Qed.

(** Whatever stage a run reached, the committed warehouse satisfies the
    uniqueness constraints and the two references. *)
Lemma run_consistent d w0 r :
  run d w0 = Some r →
  warehouse_keys_unique (committed r) ∧ warehouse_references (committed r).
Proof.
  unfold run.
  destruct (populate_dim_time d (clear_warehouse w0) init_wstats) as [step1|] eqn:E1;
    [|discriminate].
  intros H. injection H as <-.
  apply (stage_invariant (λ w, warehouse_keys_unique w ∧ warehouse_references w));
    [apply cleared_consistent| |].
  { intros w' s' ->. eapply stage_time; [exact E1|apply cleared_consistent]. }
  intros w1 s1 I1. apply stage_invariant; [done| |].
  { intros w' s' H. by eapply stage_patient. }
  intros w2 s2 I2. apply stage_invariant; [done| |].
  { intros w' s' H. injection H as H. by eapply stage_procedure. }
  intros w3 s3 I3. apply stage_invariant; [done| |].
  { intros w' s' H. by eapply stage_diagnosis. }
  intros w4 s4 I4. apply stage_invariant; [done| |].
  { intros w' s' H. by eapply stage_fact. }
  intros w5 s5 I5. apply stage_invariant; [done| |].
  { intros w' s' H. by eapply stage_bridge_procedures. }
  intros w6 s6 I6. apply stage_invariant; [done| |].
  { intros w' s' H. by eapply stage_bridge_diagnoses. }
  intros w7 s7 I7. done.
Qed.

(** X16.  Whatever stage a run of the warehouse job reached, the
    warehouse it has committed has no two rows with the same date id,
    patient id, procedure id, diagnosis id or encounter id, no two rows of
    a table with the same surrogate key, no repeated row in the procedure
    bridge and no repeated (encounter, diagnosis) pair in the diagnosis
    bridge; and every sequence is ahead of the keys it issued. *)
Theorem run_keeps_warehouse_keys_unique (d : opdb) (w0 : warehouse)
    (r : run_result) :
  run d w0 = Some r → warehouse_keys_unique (committed r).
Proof. intros H. by apply run_consistent in H as [K _]. Qed.

Lemma run_keeps_warehouse_keys_unique_witness :
  warehouse_keys_unique (committed scenario_run).
Proof.
  apply (run_keeps_warehouse_keys_unique db_scenario w_new). vm_compute. reflexivity.
Defined.

(** *** The quality checks on a committed warehouse *)

Lemma count_le_1 {A} `{EqDecision A} (l : list A) (k : A) :
  NoDup l → (length (filter (λ k', k' = k) l) ≤ 1)%nat.
Proof.
  induction l as [|x l IH]; intros Hnd; [simpl; lia|].
  apply NoDup_cons in Hnd as [Hx Hnd]. rewrite filter_cons.
  case_decide as Hk; [|by apply IH]. subst x. simpl.
  rewrite (ListFacts.filter_none (λ k', k' = k)); [simpl; lia|].
  apply Forall_forall. by intros y Hy ->.
Qed.

Lemma NoDup_count {A} `{EqDecision A} (l : list A) :
  (∀ k, k ∈ l → (length (filter (λ k', k' = k) l) ≤ 1)%nat) → NoDup l.
Proof.
  induction l as [|x l IH]; intros H; [constructor|].
  apply NoDup_cons. split.
  - intros Hx. specialize (H x (list_elem_of_here _ _)).
    rewrite filter_cons, decide_True in H by done. simpl in H.
    assert (Hf : x ∈ filter (λ k', k' = x) l) by (by apply list_elem_of_filter).
    destruct (filter (λ k', k' = x) l); [by apply elem_of_nil in Hf|simpl in H; lia].
  - apply IH. intros k Hk. specialize (H k (list_elem_of_further _ _ _ Hk)).
    rewrite filter_cons in H. case_decide; simpl in H; lia.
Qed.

(** The duplicate check of a column returns no row exactly when the
    column has no repeated value. *)
Lemma having_count_gt_1_nil {A} `{EqDecision A} (keys : list A) :
  having_count_gt_1 keys = [] ↔ NoDup keys.
Proof.
  unfold having_count_gt_1. split.
  - intros H. apply NoDup_count. intros k Hk.
    destruct (decide (length (filter (λ k', k' = k) keys) ≤ 1)%nat) as [?|Hn];
      [done|].
    assert (Hin : (k, Z.of_nat (length (filter (λ k', k' = k) keys)))
                  ∈ (filter (λ kc : A * Z, 1 < kc.2)
                       ((λ k, (k, Z.of_nat (length (filter (λ k', k' = k) keys))))
                          <$> drop_duplicates [] keys))).
    { apply list_elem_of_filter. split; [simpl; lia|].
      apply list_elem_of_fmap. exists k. split; [done|].
      by apply (proj2 (CommonFacts.drop_duplicates_elem_nil _ _)). }
    rewrite H in Hin. by apply elem_of_nil in Hin.
  - intros Hnd. apply ListFacts.filter_none. apply Forall_forall.
    intros [k c] Hkc. apply list_elem_of_fmap in Hkc as (k' & Heq & _).
    injection Heq as -> ->. simpl. pose proof (count_le_1 keys k' Hnd). lia.
Qed.

Lemma entries_verdicts server queries results :
  Forall2 (entry_for server) queries results →
  verdicts results
  = (λ q : Z * string,
       (q.1, match server q.2 with
             | Rows _ [] => "PASS"
             | Rows _ _ => "FAIL"
             | Error _ => "ERROR"
             end)) <$> queries.
Proof.
  unfold verdicts. induction 1 as [|q x queries results Hq _ IH]; [done|].
  rewrite !fmap_cons, IH. f_equal. destruct Hq as (Hid & _ & Hs). rewrite Hid.
  f_equal. destruct (server q.2) as [cols [|row rows]|msg]; [done| |];
    by destruct Hs.
Qed.

Lemma run_all_verdicts server :
  verdicts (run_all server).1
  = (λ q : Z * string,
       (q.1, match server q.2 with
             | Rows _ [] => "PASS"
             | Rows _ _ => "FAIL"
             | Error _ => "ERROR"
             end)) <$> _load_queries.
Proof.
  destruct (QAProofs.run_queries_spec server _load_queries [] fresh_connection
              eq_refl) as (new & H1 & H2 & _).
  unfold run_all. cbv zeta in H1. rewrite H1. by apply entries_verdicts.
Qed.

Ltac resolve_query :=
  match goal with
  | |- context [query_id ?t] =>
      let v := eval vm_compute in (query_id t) in
      change (query_id t) with v
  end.

Lemma qa_verdicts_after_populate_aux (d : opdb) (w0 : warehouse) (r : run_result) :
  run d w0 = Some r →
  verdicts (run_all (answer_of (committed r))).1
  = [ (1, "PASS"); (2, "PASS"); (3, "PASS"); (5, "PASS"); (6, "PASS"); (7, "PASS");
      (9, if decide (NoDup (dpr_procedure_code <$> dim_procedure (committed r)))
          then "PASS" else "FAIL") ].
Proof.
  intros H. apply run_consistent in H as [K F]. destruct K, F.
  rewrite run_all_verdicts. unfold _load_queries, answer_of. simpl fmap.
  repeat resolve_query. cbv iota beta.
  rewrite (proj2 (having_count_gt_1_nil (dp_patient_id <$> _))) by done.
  rewrite (proj2 (having_count_gt_1_nil (fe_encounter_id <$> _))) by done.
  rewrite (ListFacts.filter_none (λ f, fe_patient_key f ∉ _));
    [|apply Forall_forall; intros f Hf Hn; by apply Hn, fact_patient0].
  rewrite (ListFacts.filter_none (λ b, bp_procedure_key b ∉ _));
    [|apply Forall_forall; intros b Hb Hn; by apply Hn, bridge_procedure0].
  simpl. repeat f_equal.
  destruct (decide (NoDup (dpr_procedure_code <$> dim_procedure (committed r))))
    as [Hnd|Hnd].
  - by rewrite (proj2 (having_count_gt_1_nil _) Hnd).
  - destruct (having_count_gt_1 _) as [|kc l] eqn:E; [|done].
    by apply having_count_gt_1_nil in E.
Qed.

(** X17.  On the warehouse committed by a run of the warehouse job,
    whatever stage the run reached, the quality report has the verdict
    PASS for the duplicate patient ids, the orphan encounters, the
    duplicate encounter ids and the orphan bridge procedures (and for the
    two [IS NULL] checks, whose columns are never [NULL] here); the
    verdict of the duplicate procedure codes is PASS when no two rows of
    [dim_procedure] share a code and FAIL otherwise. *)
Theorem qa_verdicts_after_populate (d : opdb) (w0 : warehouse) (r : run_result) :
  run d w0 = Some r →
  verdicts (run_all (answer_of (committed r))).1
  = [ (1, "PASS"); (2, "PASS"); (3, "PASS"); (5, "PASS"); (6, "PASS"); (7, "PASS");
      (9, if decide (NoDup (dpr_procedure_code <$> dim_procedure (committed r)))
          then "PASS" else "FAIL") ].
Proof. apply qa_verdicts_after_populate_aux. Qed.

Lemma qa_verdicts_after_populate_witness :
  verdicts (run_all (answer_of (committed scenario_run))).1
  = [ (1, "PASS"); (2, "PASS"); (3, "PASS"); (5, "PASS"); (6, "PASS"); (7, "PASS");
      (9, if decide (NoDup (dpr_procedure_code
                              <$> dim_procedure (committed scenario_run)))
          then "PASS" else "FAIL") ].
Proof.
  apply (qa_verdicts_after_populate db_scenario w_new). vm_compute. reflexivity.
Defined.

(** *** The procedure dimension *)

Lemma drop_duplicates_NoDup_id {A} `{EqDecision A} (l : list A) : ∀ seen,
  NoDup l → (∀ x, x ∈ l → x ∉ seen) → drop_duplicates seen l = l.
Proof.
  induction l as [|x l IH]; intros seen Hnd Hs; [done|].
  apply NoDup_cons in Hnd as [Hx Hnd]. simpl.
  rewrite decide_False by apply Hs, list_elem_of_here. f_equal.
  apply IH; [done|]. intros y Hy Hin.
  apply elem_of_cons in Hin as [->|Hin]; [done|].
  by apply (Hs y (list_elem_of_further _ _ _ Hy)).
Qed.

(** Without a conflict every proposed row is added, in order. *)
Lemma insert_dim_procedure_all rows : ∀ tbl next,
  NoDup (dpr_procedure_id <$> rows) →
  (∀ x, x ∈ rows → dpr_procedure_id x ∉ dpr_procedure_id <$> tbl) →
  (λ x, (dpr_procedure_id x, dpr_procedure_code x))
    <$> (insert_dim_procedure rows tbl next).1
  = ((λ x, (dpr_procedure_id x, dpr_procedure_code x)) <$> tbl)
    ++ ((λ x, (dpr_procedure_id x, dpr_procedure_code x)) <$> rows).
Proof.
  induction rows as [|x rows IH]; intros tbl next Hnd Hfresh.
  - simpl. by rewrite app_nil_r.
  - rewrite fmap_cons in Hnd. apply NoDup_cons in Hnd as [Hx Hnd].
    unfold insert_dim_procedure in *. simpl foldl.
    rewrite decide_False by apply Hfresh, list_elem_of_here.
    rewrite IH; [|done|].
    + rewrite fmap_app, <- app_assoc. done.
    + intros y Hy. rewrite fmap_app. intros Hin.
      apply elem_of_app in Hin as [Hin|Hin].
      * by apply (Hfresh y (list_elem_of_further _ _ _ Hy)).
      * apply list_elem_of_singleton in Hin. simpl in Hin. apply Hx.
        rewrite <- Hin. apply list_elem_of_fmap. eauto.
Qed.

Lemma stage_patient_procedures d w s w' s' :
  populate_dim_patient d w s = Ok (w', s') → dim_procedure w' = dim_procedure w.
Proof.
  unfold populate_dim_patient. intros H.
  apply CommonFacts.bind_Ok in H as (rows & _ & H).
  destruct (insert_dim_patient _ _ _) as [t n]. simpl in H. by injection H as <- <-.
Qed.

Lemma stage_diagnosis_procedures d w s w' s' :
  populate_dim_diagnosis d w s = Ok (w', s') → dim_procedure w' = dim_procedure w.
Proof.
  unfold populate_dim_diagnosis. intros H.
  apply CommonFacts.bind_Ok in H as (rows & _ & H).
  destruct (insert_dim_diagnosis _ _ _) as [t n]. simpl in H. by injection H as <- <-.
Qed.

Lemma stage_fact_procedures d w s w' s' :
  populate_fact_encounters d w s = Ok (w', s') → dim_procedure w' = dim_procedure w.
Proof.
  unfold populate_fact_encounters. intros H.
  apply CommonFacts.bind_Ok in H as (groups & _ & H).
  apply CommonFacts.bind_Ok in H as (rows & _ & H).
  destruct (insert_fact_encounters _ _ _) as [t n]. simpl in H.
  by injection H as <- <-.
Qed.

Lemma stage_bridge_procedures_procedures d w s w' s' :
  populate_bridge_procedures d w s = Ok (w', s') →
  dim_procedure w' = dim_procedure w.
Proof.
  unfold populate_bridge_procedures. intros H.
  apply CommonFacts.bind_Ok in H as (keyed & _ & H). simpl in H.
  by injection H as <- <-.
Qed.

Lemma stage_bridge_diagnoses_procedures d w s w' s' :
  populate_bridge_diagnoses d w s = Ok (w', s') →
  dim_procedure w' = dim_procedure w.
Proof.
  unfold populate_bridge_diagnoses. intros H.
  apply CommonFacts.bind_Ok in H as (keyed & _ & H).
  apply CommonFacts.bind_Ok in H as (assignments & _ & H). simpl in H.
  by injection H as <- <-.
Qed.

(** X18.  After a run of the warehouse job that ended without error, on
    a store whose procedure ids are unique, [dim_procedure] has one row
    per stored procedure, in the order of the store, with the procedure's
    id and code; so the duplicate procedure code check passes exactly
    when no two stored procedures share a code. *)
Theorem dim_procedure_mirrors_procedures (d : opdb) (w0 : warehouse)
    (r : run_result) :
  run d w0 = Some r → outcome r = Ok () →
  NoDup (procedure_id <$> procedures d) →
  (λ x, (dpr_procedure_id x, dpr_procedure_code x)) <$> dim_procedure (committed r)
  = (λ p, (procedure_id p, procedure_code p)) <$> procedures d
  ∧ (NoDup (procedure_code <$> procedures d)
     ↔ (9, "PASS") ∈ verdicts (run_all (answer_of (committed r))).1).
Proof.
  intros Hrun Hok Hnd.
  assert (Hmirror :
    (λ x, (dpr_procedure_id x, dpr_procedure_code x)) <$> dim_procedure (committed r)
    = (λ p, (procedure_id p, procedure_code p)) <$> procedures d).
  { clear - Hrun Hok Hnd. unfold run in Hrun.
    destruct (populate_dim_time d (clear_warehouse w0) init_wstats)
      as [step1|] eqn:E1; [|discriminate].
    injection Hrun as Hr. subst r.
    destruct (WarehouseProofs.stage_Ok _ _ _ _ Hok) as (w1 & s1 & H1 & Heq).
    rewrite Heq in *. clear Heq.
    destruct (WarehouseProofs.stage_Ok _ _ _ _ Hok) as (w2 & s2 & H2 & Heq).
    rewrite Heq in *. clear Heq.
    destruct (WarehouseProofs.stage_Ok _ _ _ _ Hok) as (w3 & s3 & H3 & Heq).
    rewrite Heq in *. clear Heq.
    destruct (WarehouseProofs.stage_Ok _ _ _ _ Hok) as (w4 & s4 & H4 & Heq).
    rewrite Heq in *. clear Heq.
    destruct (WarehouseProofs.stage_Ok _ _ _ _ Hok) as (w5 & s5 & H5 & Heq).
    rewrite Heq in *. clear Heq.
    destruct (WarehouseProofs.stage_Ok _ _ _ _ Hok) as (w6 & s6 & H6 & Heq).
    rewrite Heq in *. clear Heq.
    destruct (WarehouseProofs.stage_Ok _ _ _ _ Hok) as (w7 & s7 & H7 & Heq).
    rewrite Heq in *. clear Heq.
    simpl. clear Hok. subst step1.
    apply WarehouseProofs.populate_dim_time_tables in E1 as (_ & T2 & _).
    simpl in T2.
    apply stage_patient_procedures in H2. apply stage_diagnosis_procedures in H4.
    apply stage_fact_procedures in H5.
    apply stage_bridge_procedures_procedures in H6.
    apply stage_bridge_diagnoses_procedures in H7.
    rewrite H7, H6, H5, H4. injection H3 as H3.
    unfold populate_dim_procedure in H3.
    destruct (insert_dim_procedure _ (dim_procedure w2) (procedure_key_seq w2))
      as [t n] eqn:E. injection H3 as <- _. simpl.
    rewrite H2, T2 in E.
    assert (Hrows : NoDup (dim_procedure_select <$> procedures d)).
    { apply (NoDup_fmap_1 dpr_procedure_id). by rewrite <- list_fmap_compose. }
    rewrite drop_duplicates_NoDup_id in E;
      [|done|intros x _ Hx; by apply elem_of_nil in Hx].
    pose proof (insert_dim_procedure_all (dim_procedure_select <$> procedures d)
                  [] (procedure_key_seq w2)) as I.
    rewrite E in I. simpl in I. rewrite I.
    - by rewrite <- list_fmap_compose.
    - by rewrite <- list_fmap_compose.
    - intros x _ Hx. by apply elem_of_nil in Hx. }
  split; [exact Hmirror|].
  assert (Hcodes : dpr_procedure_code <$> dim_procedure (committed r)
                   = procedure_code <$> procedures d).
  { apply (f_equal (fmap snd)) in Hmirror.
    by rewrite <- !list_fmap_compose in Hmirror. }
  rewrite (qa_verdicts_after_populate_aux d w0 r Hrun), Hcodes.
  destruct (decide (NoDup (procedure_code <$> procedures d))) as [Hc|Hc].
  - split; [|done]. intros _. do 6 apply list_elem_of_further.
    apply list_elem_of_here.
  - split; [done|]. intros Hin. exfalso.
    repeat (apply elem_of_cons in Hin as [Hin|Hin]; [discriminate Hin|]).
    by apply elem_of_nil in Hin.
Qed.

Lemma dim_procedure_mirrors_procedures_witness :
  (λ x, (dpr_procedure_id x, dpr_procedure_code x))
    <$> dim_procedure (committed scenario_run)
  = (λ p, (procedure_id p, procedure_code p)) <$> procedures db_scenario
  ∧ (NoDup (procedure_code <$> procedures db_scenario)
     ↔ (9, "PASS") ∈ verdicts (run_all (answer_of (committed scenario_run))).1).
Proof.
  apply (dim_procedure_mirrors_procedures db_scenario w_new).
  - vm_compute. reflexivity.
  - vm_compute. reflexivity.
  - apply (bool_decide_unpack _). vm_compute. exact I.
Defined.

End WarehouseKeyProofs.
